(** * EVE Control Room: the decision and evidence ledger

    A shallow embedding of the ledger core of [eve/core]:

    - [x_vault.py]: [MerkleTree], [EvidenceObject], [XVault]
      ([seal], [verify_evidence], [verify_chain]);
    - [trinity_api.py]: [normalize_project_id], [ECLParser],
      [ECLValidator], [Database] and [DecisionEngine].

    Python [str] values are Rocq [string]s.  The library functions the
    code calls ([hashlib.sha256], [json.dumps], [str.upper], [re.match]
    on the two fixed patterns) are written out so that every definition
    below evaluates on concrete inputs.  Wall-clock readings
    ([datetime.now]) and [uuid4] values are inputs of the operations that
    read them. *)

From Stdlib Require Import ZArith NArith List String Ascii Bool Lia.
From Stdlib Require Import DecimalString DecimalZ DecimalN Sorted.
From stdpp Require Import base option list strings gmap.

Local Open Scope Z_scope.

(** ** Python string primitives *)

Module PyStr.

Definition chars (s : string) : list ascii := list_ascii_of_string s.
Definition of_chars (l : list ascii) : string := string_of_list_ascii l.

Definition code (c : ascii) : Z := Z.of_N (N_of_ascii c).

(** [s.encode()]: a [str] is held as its byte sequence. *)
Definition encode (s : string) : list Z := map code (chars s).

(** Truthiness of a [str]: non-empty. *)
Definition truthy (s : string) : bool :=
  match s with EmptyString => false | String _ _ => true end.

Definition hex_digit (d : Z) : ascii :=
  ascii_of_N (Z.to_N (if d <? 10 then 48 + d else 87 + d)).

(** [str.isspace] of one character (code points below 256). *)
Definition is_space (c : ascii) : bool :=
  let n := code c in
  ((9 <=? n) && (n <=? 13)) || ((28 <=? n) && (n <=? 32))
  || (n =? 133) || (n =? 160).

Definition is_digit (c : ascii) : bool :=
  let n := code c in (48 <=? n) && (n <=? 57).

Definition is_lower (c : ascii) : bool :=
  let n := code c in (97 <=? n) && (n <=? 122).

(** [str.isascii] *)
Definition isascii (s : string) : bool :=
  forallb (fun c => code c <? 128) (chars s).

(** [str.upper], exact on ASCII text ([isascii]): the other letters,
    which Python maps as well (some of them to two characters, or to
    characters above 255), are left as they are. *)
Definition upper_char (c : ascii) : ascii :=
  if is_lower c then ascii_of_N (N_of_ascii c - 32) else c.

Fixpoint upper (s : string) : string :=
  match s with
  | EmptyString => EmptyString
  | String c r => String (upper_char c) (upper r)
  end.

Definition startswith (s p : string) : bool := String.prefix p s.

(** [s[n:]] *)
Fixpoint drop (n : nat) (s : string) : string :=
  match n, s with
  | O, _ => s
  | S k, String _ r => drop k r
  | S _, EmptyString => EmptyString
  end.

Fixpoint lstrip (s : string) : string :=
  match s with
  | String c r => if is_space c then lstrip r else s
  | EmptyString => EmptyString
  end.

Definition rstrip (s : string) : string :=
  of_chars (rev (chars (lstrip (of_chars (rev (chars s)))))).

Definition strip (s : string) : string := rstrip (lstrip s).

(** [str.split(sep)] for a separator of one character. *)
Fixpoint split_on (sep : ascii) (s : string) : list string :=
  match s with
  | EmptyString => [EmptyString]
  | String c r =>
      if Ascii.eqb c sep then EmptyString :: split_on sep r
      else match split_on sep r with
           | [] => [String c EmptyString]
           | w :: ws => String c w :: ws
           end
  end.

(** [str.split(sep, 1)]: at the first separator only. *)
Fixpoint split_first (sep : ascii) (s : string) : list string :=
  match s with
  | EmptyString => [EmptyString]
  | String c r =>
      if Ascii.eqb c sep then [EmptyString; r]
      else match split_first sep r with
           | [] => [String c EmptyString]
           | w :: ws => String c w :: ws
           end
  end.

(** [str.split()]: the maximal runs of non-space characters. *)
Fixpoint split_ws_aux (word : list ascii) (s : string) : list string :=
  match s with
  | EmptyString =>
      match word with [] => [] | _ => [of_chars (rev word)] end
  | String c r =>
      if is_space c then
        match word with
        | [] => split_ws_aux [] r
        | _ => of_chars (rev word) :: split_ws_aux [] r
        end
      else split_ws_aux (c :: word) r
  end.

Definition split_ws (s : string) : list string := split_ws_aux [] s.

(** [c in s] *)
Fixpoint contains (c : ascii) (s : string) : bool :=
  match s with
  | EmptyString => false
  | String d r => Ascii.eqb d c || contains c r
  end.

(** [str(n)] and [format(n, "06d")] for an [int]. *)
Definition str (n : Z) : string :=
  DecimalString.NilEmpty.string_of_int (Z.to_int n).

Fixpoint zeros (n : nat) : string :=
  match n with
  | O => EmptyString
  | S k => String "0" (zeros k)
  end.

Definition zfill (width : nat) (digits : string) : string :=
  zeros (width - String.length digits) +:+ digits.

Definition format_06d (n : Z) : string :=
  if n <? 0 then String "-" (zfill 5 (str (- n))) else zfill 6 (str n).

(** A decimal text read back as the number it writes, leading zeros
    allowed. *)
Definition parse_int (s : string) : option Z :=
  option_map Z.of_int (DecimalString.NilEmpty.int_of_string s).

End PyStr.

(** ** [hashlib.sha256(...).hexdigest()] (FIPS 180-4) *)

Module SHA256.

Definition mask32 : Z := 0xffffffff.
Definition w32 (x : Z) : Z := Z.land x mask32.
Definition add32 (x y : Z) : Z := w32 (x + y).

Definition rotr (n x : Z) : Z :=
  Z.lor (Z.shiftr x n) (w32 (Z.shiftl x (32 - n))).

Definition Ch (x y z : Z) : Z :=
  Z.lxor (Z.land x y) (Z.land (Z.lxor x mask32) z).
Definition Maj (x y z : Z) : Z :=
  Z.lxor (Z.lxor (Z.land x y) (Z.land x z)) (Z.land y z).
Definition bsig0 (x : Z) : Z :=
  Z.lxor (Z.lxor (rotr 2 x) (rotr 13 x)) (rotr 22 x).
Definition bsig1 (x : Z) : Z :=
  Z.lxor (Z.lxor (rotr 6 x) (rotr 11 x)) (rotr 25 x).
Definition ssig0 (x : Z) : Z :=
  Z.lxor (Z.lxor (rotr 7 x) (rotr 18 x)) (Z.shiftr x 3).
Definition ssig1 (x : Z) : Z :=
  Z.lxor (Z.lxor (rotr 17 x) (rotr 19 x)) (Z.shiftr x 10).

Definition is_prime (n : nat) : bool :=
  forallb (fun d => negb (n mod d =? 0)%nat) (seq 2 (n - 2)).

(** The first primes below 312: there are 64 of them. *)
Definition primes : list Z :=
  map Z.of_nat (List.filter is_prime (seq 2 310)).

(** The largest [r] below [2 ^ bits] with [r ^ e <= n], found bit by bit. *)
Fixpoint int_root (bits : nat) (e n r : Z) : Z :=
  match bits with
  | O => r
  | S k =>
      let c := r + 2 ^ Z.of_nat k in
      int_root k e n (if c ^ e <=? n then c else r)
  end.

(** The first 32 bits of the fractional part of the [e]-th root of [p]. *)
Definition root_fraction (e p : Z) : Z :=
  w32 (int_root 40 e (p * 2 ^ (32 * e)) 0).

(** The round constants: from the cube roots of the first 64 primes. *)
Definition K : list Z := Eval vm_compute in map (root_fraction 3) primes.

(** The initial hash value: from the square roots of the first 8 primes. *)
Definition H0 : list Z := Eval vm_compute in map (root_fraction 2) (take 8 primes).

(** Big-endian bytes of [x], [n] of them. *)
Fixpoint be_bytes (n : nat) (x : Z) : list Z :=
  match n with
  | O => []
  | S k => be_bytes k (Z.shiftr x 8) ++ [Z.land x 0xff]
  end.

Definition be_word (bs : list Z) : Z :=
  fold_left (fun acc b => Z.lor (Z.shiftl acc 8) b) bs 0.

(** Padding: a 1 bit, zeros up to 56 mod 64, the bit length on 8 bytes. *)
Definition pad (msg : list Z) : list Z :=
  let len := Z.of_nat (length msg) in
  let zeros := Z.to_nat ((55 - len) mod 64) in
  msg ++ [0x80] ++ repeat 0 zeros ++ be_bytes 8 (8 * len).

Fixpoint chunks (fuel : nat) (size : nat) (l : list Z) : list (list Z) :=
  match fuel with
  | O => []
  | S k =>
      match l with
      | [] => []
      | _ => take size l :: chunks k size (drop size l)
      end
  end.

Definition words (block : list Z) : list Z :=
  map be_word (chunks 16 4 block).

(** Message schedule, most recent word first. *)
Fixpoint schedule (n : nat) (rev_w : list Z) : list Z :=
  match n with
  | O => rev_w
  | S k =>
      let w := add32 (add32 (ssig1 (nth 1 rev_w 0)) (nth 6 rev_w 0))
                     (add32 (ssig0 (nth 14 rev_w 0)) (nth 15 rev_w 0)) in
      schedule k (w :: rev_w)
  end.

Record regs := Regs { ra : Z; rb : Z; rc : Z; rd : Z;
                      re : Z; rf : Z; rg : Z; rh : Z }.

Definition round (r : regs) (kw : Z * Z) : regs :=
  let '(k, w) := kw in
  let t1 := add32 (add32 (add32 (rh r) (bsig1 (re r)))
                         (add32 (Ch (re r) (rf r) (rg r)) k)) w in
  let t2 := add32 (bsig0 (ra r)) (Maj (ra r) (rb r) (rc r)) in
  Regs (add32 t1 t2) (ra r) (rb r) (rc r) (add32 (rd r) t1) (re r) (rf r) (rg r).

Definition regs_of (h : list Z) : regs :=
  Regs (nth 0 h 0) (nth 1 h 0) (nth 2 h 0) (nth 3 h 0)
       (nth 4 h 0) (nth 5 h 0) (nth 6 h 0) (nth 7 h 0).

Definition regs_list (r : regs) : list Z :=
  [ra r; rb r; rc r; rd r; re r; rf r; rg r; rh r].

Definition compress (h : list Z) (block : list Z) : list Z :=
  let w := rev (schedule 48 (rev (words block))) in
  let r := fold_left round (combine K w) (regs_of h) in
  map (fun p : Z * Z => add32 (fst p) (snd p)) (combine h (regs_list r)).

Definition digest (msg : list Z) : list Z :=
  let p := pad msg in
  fold_left compress (chunks (length p) 64 p) H0.

Definition hex_byte (b : Z) : list ascii :=
  [PyStr.hex_digit (Z.shiftr b 4); PyStr.hex_digit (Z.land b 0xf)].

Definition hex_word (x : Z) : list ascii :=
  flat_map hex_byte (be_bytes 4 x).

Definition hexdigest (s : string) : string :=
  PyStr.of_chars (flat_map hex_word (digest (PyStr.encode s))).

End SHA256.

Definition sha256_hex : string -> string := SHA256.hexdigest.

(** ** Exceptions *)

Inductive exn := ValueError | TypeError | AttributeError | KeyError.

Inductive result (A : Type) : Type :=
| Ok (a : A)
| Raise (e : exn).
Arguments Ok {A} a.
Arguments Raise {A} e.

(** ** [json.dumps(..., sort_keys=True)] *)

Module Json.

#[warnings="-register-all"]
Inductive json : Type :=
| JNull
| JBool (b : bool)
| JInt (n : Z)
| JStr (s : string)
| JList (l : list json)
| JDict (items : list (string * json)).

Definition dq : ascii := "034"%char.
Definition backslash : ascii := "092"%char.

Definition hex2 (n : Z) : string :=
  String (PyStr.hex_digit (Z.shiftr n 4))
    (String (PyStr.hex_digit (Z.land n 0xf)) EmptyString).

(** One character of a JSON string literal.  With [ensure_ascii] every
    character outside [' '..'~'] is written as a [\u] escape (characters
    are code points below 256 there); without it only the quote, the
    backslash and the control characters are escaped and every other
    byte of the UTF-8 text is kept. *)
Definition escape_char (ensure_ascii : bool) (c : ascii) : string :=
  let n := PyStr.code c in
  if n =? 34 then String backslash (String dq EmptyString)
  else if n =? 92 then String backslash (String backslash EmptyString)
  else if n =? 10 then String backslash "n"
  else if n =? 13 then String backslash "r"
  else if n =? 9 then String backslash "t"
  else if n =? 8 then String backslash "b"
  else if n =? 12 then String backslash "f"
  else if (n <? 32) || (ensure_ascii && (126 <? n))
       then String backslash ("u00" +:+ hex2 n)
  else String c EmptyString.

Fixpoint escape (ensure_ascii : bool) (s : string) : string :=
  match s with
  | EmptyString => EmptyString
  | String c r => escape_char ensure_ascii c +:+ escape ensure_ascii r
  end.

Definition hex_value (c : ascii) : option Z :=
  let n := PyStr.code c in
  if (48 <=? n) && (n <=? 57) then Some (n - 48)
  else if (97 <=? n) && (n <=? 102) then Some (n - 87)
  else None.

(** Reading one character of a JSON string literal back: the character and
    the rest of the text; [None] at the closing quote and on what
    [escape_char] never writes. *)
Definition unescape_char (s : string) : option (ascii * string) :=
  match s with
  | EmptyString => None
  | String c r =>
      if Ascii.eqb c dq then None
      else if Ascii.eqb c backslash then
        match r with
        | String d r' =>
            if Ascii.eqb d dq then Some (dq, r')
            else if Ascii.eqb d backslash then Some (backslash, r')
            else if Ascii.eqb d "n" then Some ("010"%char, r')
            else if Ascii.eqb d "r" then Some ("013"%char, r')
            else if Ascii.eqb d "t" then Some ("009"%char, r')
            else if Ascii.eqb d "b" then Some ("008"%char, r')
            else if Ascii.eqb d "f" then Some ("012"%char, r')
            else if Ascii.eqb d "u" then
              match r' with
              | String _ (String _ (String h (String l r''))) =>
                  match hex_value h, hex_value l with
                  | Some x, Some y => Some (ascii_of_N (Z.to_N (16 * x + y)), r'')
                  | _, _ => None
                  end
              | _ => None
              end
            else None
        | EmptyString => None
        end
      else Some (c, r)
  end.

Definition quote (ensure_ascii : bool) (s : string) : string :=
  String dq (escape ensure_ascii s +:+ String dq EmptyString).

Fixpoint join (sep : string) (l : list string) : string :=
  match l with
  | [] => EmptyString
  | [x] => x
  | x :: r => x +:+ sep +:+ join sep r
  end.

(** [str(n)] for an [int]. *)
Definition str_of_Z (n : Z) : string :=
  DecimalString.NilEmpty.string_of_int (Z.to_int n).

(** Stable insertion of an item by key; keys compare as Python compares
    [str]. *)
Fixpoint insert_item (kv : string * string) (l : list (string * string))
  : list (string * string) :=
  match l with
  | [] => [kv]
  | kv' :: r =>
      if String.ltb (fst kv) (fst kv') then kv :: l
      else kv' :: insert_item kv r
  end.

Definition sort_items (l : list (string * string)) : list (string * string) :=
  foldr insert_item [] l.

(** The default separators [", "] and [": "]; dictionary items are sorted
    by key.  A [JDict] holds the items of a Python [dict], whose keys are
    distinct. *)
Fixpoint dumps (ensure_ascii : bool) (j : json) : string :=
  match j with
  | JNull => "null"
  | JBool true => "true"
  | JBool false => "false"
  | JInt n => PyStr.str n
  | JStr s => quote ensure_ascii s
  | JList l => "[" +:+ join ", " (map (dumps ensure_ascii) l) +:+ "]"
  | JDict items =>
      let dumped :=
        map (fun kv : string * json =>
               let '(k, v) := kv in (k, dumps ensure_ascii v)) items in
      "{" +:+ join ", "
                (map (fun kv : string * string =>
                        quote ensure_ascii (fst kv) +:+ ": " +:+ snd kv)
                     (sort_items dumped))
          +:+ "}"
  end.

End Json.
Import Json.

Definition quoted (s : string) : string := String dq (s +:+ String dq EmptyString).
Definition esc (s : string) : string := String backslash s.
Definition chr (c : ascii) : string := String c EmptyString.

(** * [x_vault.py]: the evidence ledger *)

Module XVault.

Inductive EvidenceType :=
| WITNESS_RESPONSE
| AUTHORIZATION_DECISION
| KNOWLEDGE_PUBLISH
| RULE_PROFILE_CHANGE
| SYSTEM_EVENT
| EXPORT_EVENT.

Record EvidenceObject := mkEvidence {
  evidence_id : string;
  evidence_type : EvidenceType;
  timestamp : string;
  content_hash : string;
  content : json;
  merkle_path : list string;
  previous_hash : string;
  signature : string;
  metadata : json
}.

(** The hash both [seal] and [EvidenceObject.verify] take of a content:
    [sha256(json.dumps(content, sort_keys=True, ensure_ascii=False).encode())]. *)
Definition hash_content (c : json) : string := sha256_hex (dumps false c).

(** [EvidenceObject.verify] *)
Definition verify (e : EvidenceObject) : bool :=
  String.eqb (hash_content (content e)) (content_hash e).

Record Snapshot := mkSnapshot {
  snapshot_id : string;
  snap_timestamp : string;
  knowledge_version : string;
  object_count : nat;
  snap_merkle_root : string;
  object_hashes : list (string * string);
  snap_signature : string;
  previous_snapshot : option string
}.

Record RegulatorPackage := mkPackage {
  package_id : string;
  created_at : string;
  period_start : string;
  period_end : string;
  evidence_objects : list EvidenceObject;
  pkg_snapshots : list Snapshot;
  pkg_merkle_root : string;
  pkg_signature : string
}.

(** ** [MerkleTree] *)

Record MerkleTree := mkTree {
  leaves : list string;
  tree : list (list string)
}.

Definition _hash_pair (left right : string) : string :=
  sha256_hex (left +:+ right).

(** The [for i in range(0, len(level), 2)] loop of [_build_tree]: adjacent
    nodes are hashed in pairs, a last node without a partner with itself. *)
Fixpoint next_level (level : list string) : list string :=
  match level with
  | [] => []
  | [x] => [_hash_pair x x]
  | x :: y :: rest => _hash_pair x y :: next_level rest
  end.

(** The [while len(self.tree[-1]) > 1] loop, started on [level]. *)
Fixpoint build_levels (fuel : nat) (level : list string) : list (list string) :=
  match fuel with
  | O => [level]
  | S k =>
      if (1 <? length level)%nat
      then level :: build_levels k (next_level level)
      else [level]
  end.

Definition _build_tree (t : MerkleTree) : MerkleTree :=
  match leaves t with
  | [] => t
  | _ => mkTree (leaves t) (build_levels (length (leaves t)) (leaves t))
  end.

(** [MerkleTree()] *)
Definition empty_tree : MerkleTree := mkTree [] [].

(** [MerkleTree(leaves)] *)
Definition new_tree (ls : list string) : MerkleTree := _build_tree (mkTree ls []).

Definition add_leaf (t : MerkleTree) (leaf_hash : string) : MerkleTree :=
  _build_tree (mkTree (leaves t ++ [leaf_hash]) (tree t)).

Definition root (t : MerkleTree) : option string :=
  match last (tree t) with
  | None => None
  | Some top => head top
  end.

(** The loop of [get_proof] over [self.tree[:-1]]. *)
Fixpoint proof_walk (levels : list (list string)) (index : nat)
  : list (string * string) :=
  match levels with
  | [] => []
  | level :: rest =>
      let '(sibling_index, position) :=
        if Nat.even index then ((index + 1)%nat, "right"%string)
        else ((index - 1)%nat, "left"%string) in
      match level !! sibling_index with
      | Some sibling => (sibling, position) :: proof_walk rest (index / 2)%nat
      | None => proof_walk rest (index / 2)%nat
      end
  end.

Definition get_proof (t : MerkleTree) (leaf_index : nat) : list (string * string) :=
  if (length (leaves t) <=? leaf_index)%nat then []
  else proof_walk (removelast (tree t)) leaf_index.

Definition proof_step (current : string) (item : string * string) : string :=
  let '(sibling_hash, position) := item in
  if String.eqb position "right"
  then sha256_hex (current +:+ sibling_hash)
  else sha256_hex (sibling_hash +:+ current).

Definition verify_proof (leaf_hash : string) (proof : list (string * string))
  (root : string) : bool :=
  String.eqb (fold_left proof_step proof leaf_hash) root.

(** ** [XVault] *)

Record XVault := mkVault {
  org_id : string;
  signing_key : string;
  evidence_chain : list EvidenceObject;
  snapshots : list Snapshot;
  merkle_tree : MerkleTree;
  last_hash : string
}.

(** [XVault(org_id, signing_key)] *)
Definition new_vault (org key : string) : XVault :=
  mkVault org key [] [] empty_tree "genesis".

Definition _sign (v : XVault) (data timestamp : string) : string :=
  sha256_hex (data +:+ ":" +:+ timestamp +:+ ":" +:+ org_id v +:+ ":" +:+ signing_key v).

(** [f"{h}:{p}"] *)
Definition path_item (hp : string * string) : string :=
  fst hp +:+ ":" +:+ snd hp.

(** [metadata or {}] *)
Definition metadata_or_empty (m : option json) : json :=
  match m with
  | Some (JDict (kv :: items)) => JDict (kv :: items)
  | _ => JDict []
  end.

(** [seal]; [now] is the reading of the clock and [uuid] the fresh
    [uuid4()] of this call. *)
Definition seal (now uuid : string) (ty : EvidenceType) (c : json)
  (meta : option json) (v : XVault) : EvidenceObject * XVault :=
  let h := hash_content c in
  let mt := add_leaf (merkle_tree v) h in
  let leaf_index := (length (leaves mt) - 1)%nat in
  let merkle_proof := get_proof mt leaf_index in
  let path := map path_item merkle_proof in
  let evidence :=
    mkEvidence uuid ty now h c path (last_hash v) (_sign v h now)
               (metadata_or_empty meta) in
  (evidence,
   mkVault (org_id v) (signing_key v) (evidence_chain v ++ [evidence])
           (snapshots v) mt h).

Definition root_or_empty (t : MerkleTree) : string :=
  match root t with
  | Some r => r
  | None => EmptyString
  end.

Definition create_snapshot (now uuid : string) (version : string) (v : XVault)
  : Snapshot * XVault :=
  let snap :=
    mkSnapshot uuid now version (length (evidence_chain v))
               (root_or_empty (merkle_tree v))
               (map (fun e => (evidence_id e, content_hash e)) (evidence_chain v))
               (_sign v (root_or_empty (merkle_tree v)) now)
               (snapshot_id <$> last (snapshots v)) in
  (snap,
   mkVault (org_id v) (signing_key v) (evidence_chain v)
           (snapshots v ++ [snap]) (merkle_tree v) (last_hash v)).

Definition in_period (start stop ts : string) : bool :=
  String.leb start ts && String.leb ts stop.

(** [export_regulator_package]; [uuid] names the package, [seal_now] and
    [seal_uuid] are read by the [seal] of the export event. *)
Definition export_regulator_package (now uuid seal_now seal_uuid : string)
  (start stop : string) (v : XVault) : RegulatorPackage * XVault :=
  let filtered_evidence :=
    filter (fun e => in_period start stop (timestamp e) = true) (evidence_chain v) in
  let filtered_snapshots :=
    filter (fun s => in_period start stop (snap_timestamp s) = true) (snapshots v) in
  let package :=
    mkPackage uuid now start stop filtered_evidence filtered_snapshots
              (root_or_empty (merkle_tree v))
              (_sign v (root_or_empty (merkle_tree v)) now) in
  (package,
   snd (seal seal_now seal_uuid EXPORT_EVENT
          (JDict [("package_id", JStr uuid);
                  ("period_start", JStr start);
                  ("period_end", JStr stop);
                  ("evidence_count", JInt (Z.of_nat (length filtered_evidence)))])
          None v)).

(** The loop of [verify_evidence] over the stored path: [h, p = item.split(":")]
    raises unless the item has exactly one colon. *)
Fixpoint parse_path (path : list string) : option (list (string * string)) :=
  match path with
  | [] => Some []
  | item :: rest =>
      match PyStr.split_on ":" item with
      | [h; p] => cons (h, p) <$> parse_path rest
      | _ => None
      end
  end.

Definition verify_evidence (v : XVault) (e : EvidenceObject) : result bool :=
  if negb (verify e) then Ok false
  else
    match merkle_path e, root (merkle_tree v) with
    | _ :: _, Some r =>
        if PyStr.truthy r then
          match parse_path (merkle_path e) with
          | Some proof => Ok (verify_proof (content_hash e) proof r)
          | None => Raise ValueError
          end
        else Ok true
    | _, _ => Ok true
    end.

Definition hash_mismatch (e : EvidenceObject) : string :=
  "Evidence " +:+ evidence_id e +:+ ": content hash mismatch".

Definition chain_broken (e : EvidenceObject) : string :=
  "Evidence " +:+ evidence_id e +:+ ": chain broken".

(** One turn of the loop of [verify_chain] at position [i]. *)
Definition check_record (chain : list EvidenceObject) (errors : list string)
  (ie : nat * EvidenceObject) : list string :=
  let '(i, evidence) := ie in
  let errors :=
    if verify evidence then errors else errors ++ [hash_mismatch evidence] in
  if (0 <? i)%nat then
    match chain !! (i - 1)%nat with
    | Some prior =>
        if String.eqb (previous_hash evidence) (content_hash prior)
        then errors else errors ++ [chain_broken evidence]
    | None => errors
    end
  else errors.

Definition verify_chain (v : XVault) : bool * list string :=
  let errors :=
    fold_left (check_record (evidence_chain v))
              (imap (fun i e => (i, e)) (evidence_chain v)) [] in
  ((length errors =? 0)%nat, errors).

(** ** Ledger histories *)

(** The record [e] after its content was overwritten in place. *)
Definition with_content (c : json) (e : EvidenceObject) : EvidenceObject :=
  mkEvidence (evidence_id e) (evidence_type e) (timestamp e) (content_hash e) c
             (merkle_path e) (previous_hash e) (signature e) (metadata e).

(** The ledger after the content of the record at position [k] was
    overwritten. *)
Definition mutate_content (k : nat) (c : json) (v : XVault) : XVault :=
  mkVault (org_id v) (signing_key v)
          (alter (with_content c) k (evidence_chain v))
          (snapshots v) (merkle_tree v) (last_hash v).

(** The ledger with its log replaced by [log]: records removed or
    rewritten behind the ledger's back. *)
Definition with_chain (log : list EvidenceObject) (v : XVault) : XVault :=
  mkVault (org_id v) (signing_key v) log (snapshots v) (merkle_tree v) (last_hash v).

(** Two records that agree on the fields [verify_chain] reads. *)
Definition same_chain_fields (e e' : EvidenceObject) : Prop :=
  evidence_id e = evidence_id e' /\ content e = content e'
  /\ content_hash e = content_hash e' /\ previous_hash e = previous_hash e'.

(** The states of a ledger whose records are only ever written by its own
    operations: [seal] is the one that appends, also inside
    [export_regulator_package]. *)
Inductive reachable (org key : string) : XVault -> Prop :=
| reach_new : reachable org key (new_vault org key)
| reach_seal v now uuid ty c meta :
    reachable org key v ->
    reachable org key (snd (seal now uuid ty c meta v))
| reach_snapshot v now uuid version :
    reachable org key v ->
    reachable org key (snd (create_snapshot now uuid version v))
| reach_export v now uuid seal_now seal_uuid start stop :
    reachable org key v ->
    reachable org key
      (snd (export_regulator_package now uuid seal_now seal_uuid start stop v)).

(** The violations of a log, record by record: a content that does not
    hash to the stored hash, then a [previous_hash] that is not the
    [content_hash] of the record before ([prev], none for the first). *)
Fixpoint chain_errors (prev : option string) (log : list EvidenceObject)
  : list string :=
  match log with
  | [] => []
  | e :: rest =>
      (if verify e then [] else [hash_mismatch e])
      ++ match prev with
         | Some h => if String.eqb (previous_hash e) h then [] else [chain_broken e]
         | None => []
         end
      ++ chain_errors (Some (content_hash e)) rest
  end.

Definition colon_free (s : string) : Prop := PyStr.contains ":" s = false.

(** What every operation of the ledger keeps: the log has no violation,
    [last_hash] is the hash of the last record, the leaves of the tree are
    the hashes of the log (none holds a colon) and the tree is the one
    built over them. *)
Record sealed_inv (v : XVault) : Prop := {
  inv_clean : chain_errors None (evidence_chain v) = [];
  inv_last : last_hash v
             = match last (evidence_chain v) with
               | Some e => content_hash e
               | None => "genesis"%string
               end;
  inv_leaves : leaves (merkle_tree v) = map content_hash (evidence_chain v);
  inv_hex : Forall colon_free (leaves (merkle_tree v));
  inv_tree : tree (merkle_tree v)
             = match leaves (merkle_tree v) with
               | [] => []
               | _ => build_levels (length (leaves (merkle_tree v)))
                                   (leaves (merkle_tree v))
               end
}.

(** ** Scenarios *)

(** Five content hashes and the tree over them. *)
Definition five_leaves : list string :=
  map (fun n => hash_content (JDict [("n", JInt n)])) [1; 2; 3; 4; 5].

Definition five_tree : MerkleTree := new_tree five_leaves.

(** [verify_proof(leaves[i], get_proof(i), root)] on a tree. *)
Definition proof_round_trip (t : MerkleTree) (i : nat) : option bool :=
  leaf ← leaves t !! i;
  r ← root t;
  Some (verify_proof leaf (get_proof t i) r).

(** A ledger with two sealed records, as in the module's own example. *)
Definition demo_first : EvidenceObject * XVault :=
  seal "2026-01-17T10:00:00+00:00" "7d9f5a52-0000-4000-8000-000000000001"
       WITNESS_RESPONSE
       (JDict [("query", JStr "What does the AI Act say?");
               ("response", JStr "According to article 14...");
               ("sources", JList [JStr "eu/ai_act/article_14"])])
       None
       (new_vault "org_acme" "default_key").

Definition demo_vault : XVault :=
  snd (seal "2026-01-17T10:00:01+00:00" "7d9f5a52-0000-4000-8000-000000000002"
         AUTHORIZATION_DECISION
         (JDict [("request_id", JStr "req_123"); ("decision", JStr "approved");
                 ("approver", JStr "user_456")])
         None
         (snd demo_first)).

(** The second sealing of that ledger, with its record. *)
Definition demo_second : EvidenceObject * XVault :=
  seal "2026-01-17T10:00:01+00:00" "7d9f5a52-0000-4000-8000-000000000002"
       AUTHORIZATION_DECISION
       (JDict [("request_id", JStr "req_123"); ("decision", JStr "approved");
               ("approver", JStr "user_456")])
       None
       (snd demo_first).

(** A third record on the same ledger. *)
Definition demo_third : EvidenceObject * XVault :=
  seal "2026-01-17T10:00:02+00:00" "7d9f5a52-0000-4000-8000-000000000003"
       SYSTEM_EVENT
       (JDict [("event", JStr "rotation")])
       None
       demo_vault.

(** The record [e] with another signature. *)
Definition with_signature (sig : string) (e : EvidenceObject) : EvidenceObject :=
  mkEvidence (evidence_id e) (evidence_type e) (timestamp e) (content_hash e)
             (content e) (merkle_path e) (previous_hash e) sig (metadata e).

End XVault.

(** * [trinity_api.py]: the decision engine *)

Module Trinity.

(** ** Project id normalization *)

Definition is_lower_alnum (c : ascii) : bool :=
  PyStr.is_lower c || PyStr.is_digit c.

Definition is_id_char (c : ascii) : bool :=
  is_lower_alnum c || Ascii.eqb c "-".

(** [$] without [re.MULTILINE]: at the end of the string, or just before a
    newline that ends the string. *)
Definition at_dollar (s : string) : bool :=
  match s with
  | EmptyString => true
  | String c EmptyString => Ascii.eqb c "010"
  | _ => false
  end.

(** [[a-z0-9-]{0,n}[a-z0-9]$] *)
Fixpoint match_id_tail (n : nat) (s : string) {struct s} : bool :=
  match s with
  | EmptyString => false
  | String c r =>
      (is_lower_alnum c && at_dollar r)
      || match n with
         | O => false
         | S k => is_id_char c && match_id_tail k r
         end
  end.

(** [PROJECT_ID_REGEX.match(s)] for [^[a-z0-9][a-z0-9-]{0,62}[a-z0-9]$]. *)
Definition PROJECT_ID_REGEX_match (s : string) : bool :=
  match s with
  | EmptyString => false
  | String c r => is_lower_alnum c && match_id_tail 62 r
  end.

(** The partition-id grammar in the words of the specification: lowercase
    alphanumerics and internal hyphens only, 2 to 64 characters, starting
    and ending with an alphanumeric. *)
Definition spec_partition_id (s : string) : bool :=
  let cs := PyStr.chars s in
  (2 <=? length cs)%nat && (length cs <=? 64)%nat
  && forallb is_id_char cs
  && match head cs with Some c => is_lower_alnum c | None => false end
  && match last cs with Some c => is_lower_alnum c | None => false end.

Definition newline : string := String "010" EmptyString.

Definition normalize_project_id (project_id : option string)
  : result (string * string) :=
  match project_id with
  | None => Ok ("legacy", "v1")%string
  | Some s =>
      if negb (PyStr.truthy s) then Ok ("legacy", "v1")%string
      else if negb (PROJECT_ID_REGEX_match s) then Raise ValueError
      else Ok (s, "v2"%string)
  end.

(** ** Enumerations and the rule table *)

Inductive DecisionType :=
| DT_CLASSIFICATION
| DT_GOVERNANCE_APPROVAL
| DT_RISK_ACCEPTANCE
| DT_DATA_APPROVAL
| DT_CHANGE_APPROVAL
| DT_INCIDENT_ACTION
| DT_DECOMMISSION.

Definition DecisionType_value (t : DecisionType) : string :=
  match t with
  | DT_CLASSIFICATION => "CLASSIFICATION"
  | DT_GOVERNANCE_APPROVAL => "GOVERNANCE_APPROVAL"
  | DT_RISK_ACCEPTANCE => "RISK_ACCEPTANCE"
  | DT_DATA_APPROVAL => "DATA_APPROVAL"
  | DT_CHANGE_APPROVAL => "CHANGE_APPROVAL"
  | DT_INCIDENT_ACTION => "INCIDENT_ACTION"
  | DT_DECOMMISSION => "DECOMMISSION"
  end.

Inductive ECLDecisionCommand :=
| CLASSIFY
| APPROVE_GOVERNANCE
| ACCEPT_RISK
| APPROVE_DATA
| APPROVE_CHANGE
| INCIDENT_ACTION
| DECOMMISSION.

Definition all_commands : list ECLDecisionCommand :=
  [CLASSIFY; APPROVE_GOVERNANCE; ACCEPT_RISK; APPROVE_DATA; APPROVE_CHANGE;
   INCIDENT_ACTION; DECOMMISSION].

Definition command_value (c : ECLDecisionCommand) : string :=
  match c with
  | CLASSIFY => "CLASSIFY"
  | APPROVE_GOVERNANCE => "APPROVE_GOVERNANCE"
  | ACCEPT_RISK => "ACCEPT_RISK"
  | APPROVE_DATA => "APPROVE_DATA"
  | APPROVE_CHANGE => "APPROVE_CHANGE"
  | INCIDENT_ACTION => "INCIDENT_ACTION"
  | DECOMMISSION => "DECOMMISSION"
  end.

(** [ECLDecisionCommand(verb)]: the member of that value, [None] where the
    constructor raises [ValueError]. *)
Definition command_of_value (verb : string) : option ECLDecisionCommand :=
  find (fun c => String.eqb (command_value c) verb) all_commands.

Definition COMMAND_TO_DECISION_TYPE (c : ECLDecisionCommand) : DecisionType :=
  match c with
  | CLASSIFY => DT_CLASSIFICATION
  | APPROVE_GOVERNANCE => DT_GOVERNANCE_APPROVAL
  | ACCEPT_RISK => DT_RISK_ACCEPTANCE
  | APPROVE_DATA => DT_DATA_APPROVAL
  | APPROVE_CHANGE => DT_CHANGE_APPROVAL
  | INCIDENT_ACTION => DT_INCIDENT_ACTION
  | DECOMMISSION => DT_DECOMMISSION
  end.

(** The three values of ["requires_risk_links"]: [False], [True] and
    ["conditional"]. *)
Inductive RiskRequirement := RiskNo | RiskYes | RiskConditional.

Record Rules := mkRules {
  required_artifacts : list (string * nat);
  required_roles : list string;
  requires_risk_links : RiskRequirement
}.

Definition VALIDATION_RULES (c : ECLDecisionCommand) : Rules :=
  match c with
  | CLASSIFY =>
      mkRules [("CDOC-SCOPE", 1%nat); ("CDOC-CLASS", 1%nat)]
              ["Compliance Owner"] RiskNo
  | APPROVE_GOVERNANCE =>
      mkRules [("CDOC-ROLES", 1%nat); ("CDOC-MANDATE", 1%nat)]
              ["Legal Counsel"; "Board Member"] RiskNo
  | ACCEPT_RISK =>
      mkRules [("CDOC-RISK", 1%nat); ("CDOC-MITIGATION", 1%nat)]
              ["Risk Owner"; "Compliance Owner"] RiskYes
  | APPROVE_DATA =>
      mkRules [("CDOC-DATA", 1%nat); ("CDOC-QUALITY", 1%nat)]
              ["Data Protection Officer"] RiskNo
  | APPROVE_CHANGE =>
      mkRules [("CDOC-CHANGE", 1%nat); ("CDOC-IMPACT", 1%nat)]
              ["System Owner"; "Compliance Owner"] RiskConditional
  | INCIDENT_ACTION =>
      mkRules [("CDOC-INCIDENT", 1%nat); ("CDOC-ACTION", 1%nat)]
              ["Incident Manager"] RiskYes
  | DECOMMISSION =>
      mkRules [("CDOC-DECOM", 1%nat); ("CDOC-ARCHIVE", 1%nat)]
              ["System Owner"; "Legal Counsel"] RiskNo
  end.

(** ** Commands *)

(** An entry of a Python [dict] under a fixed key: the key is missing, it
    holds [None], or it holds a value. *)
Inductive entry (A : Type) : Type :=
| Missing
| IsNone
| Val (a : A).
Arguments Missing {A}.
Arguments IsNone {A}.
Arguments Val {A} a.

(** [d.get(key)]; Python's [None] is [None]. *)
Definition get {A} (e : entry A) : option A :=
  match e with
  | Val a => Some a
  | _ => None
  end.

(** [d.get(key, default)] *)
Definition get_or {A} (e : entry A) (default : A) : option A :=
  match e with
  | Missing => Some default
  | IsNone => None
  | Val a => Some a
  end.

(** What [obj.get(key)] stores under [key] in the params of [_parse_json]. *)
Definition stored {A} (e : entry A) : entry A :=
  match e with
  | Missing => IsNone
  | _ => e
  end.

Definition truthy_str (o : option string) : bool :=
  match o with
  | Some s => PyStr.truthy s
  | None => false
  end.

Definition truthy_list {A} (o : option (list A)) : bool :=
  match o with
  | Some (_ :: _) => true
  | _ => false
  end.

(** A signoff item that holds both keys, with texts under them. *)
Record Signoff := mkSignoff {
  role : string;
  actor_id : string
}.

(** The filters of a query, where they are an object of texts. *)
Record Filters := mkFilters {
  f_decision_type : option string;
  f_status : option string;
  f_system_id : option string;
  f_project_id : option string
}.

Record Params := mkParams {
  p_system_id : entry string;
  p_use_case : entry string;
  p_artifacts : entry (list string);
  p_risk_links : entry (list string);
  p_signoff : entry (list Signoff);
  p_project_id : entry string;
  p_eve_decision_id : entry string;
  p_supersedes : entry string;
  p_filters : entry Filters
}.

Definition no_params : Params :=
  mkParams Missing Missing Missing Missing Missing Missing Missing Missing Missing.

Inductive CommandType := decision | read.

Record Command := mkCommand {
  cmd_type : CommandType;
  verb : string;
  params : Params
}.

(** ** [ECLValidator] *)

Record Validation := mkValidation {
  valid : bool;
  v_errors : list string;
  v_warnings : list string
}.

Definition str_nat (n : nat) : string := PyStr.str (Z.of_nat n).

(** [[a for a in artifacts if a.upper().startswith(prefix.upper())]] *)
Definition matching_artifacts (prefix : string) (artifacts : list string)
  : list string :=
  List.filter (fun a => PyStr.startswith (PyStr.upper a) (PyStr.upper prefix))
              artifacts.

Definition artifact_error (verb : string) (prefix : string) (min_count found : nat)
  : string :=
  verb +:+ " requires " +:+ str_nat min_count +:+ " artifact(s) with prefix '"
       +:+ prefix +:+ "'. Found: " +:+ str_nat found.

(** The loop over [rules["required_artifacts"]]; each turn iterates
    [artifacts], which raises [TypeError] on [None]. *)
Fixpoint check_artifacts (verb : string) (artifacts : option (list string))
  (required : list (string * nat)) (errors : list string)
  : result (list string) :=
  match required with
  | [] => Ok errors
  | (prefix, min_count) :: rest =>
      match artifacts with
      | None => Raise TypeError
      | Some arts =>
          let found := length (matching_artifacts prefix arts) in
          check_artifacts verb artifacts rest
            (if (found <? min_count)%nat
             then errors ++ [artifact_error verb prefix min_count found]
             else errors)
      end
  end.

Definition role_error (verb required_role : string) : string :=
  verb +:+ " requires signoff from: '" +:+ required_role +:+ "'".

(** The loop over [rules["required_roles"]]. *)
Fixpoint check_roles (verb : string) (provided_roles : list string)
  (required : list string) (errors : list string) : list string :=
  match required with
  | [] => errors
  | required_role :: rest =>
      check_roles verb provided_roles rest
        (if existsb (String.eqb required_role) provided_roles
         then errors
         else errors ++ [role_error verb required_role])
  end.

Definition validate (command : Command) : result Validation :=
  match cmd_type command with
  | read => Ok (mkValidation true [] [])
  | decision =>
      let verb := verb command in
      let params := params command in
      match command_of_value verb with
      | None =>
          Ok (mkValidation false ["Unknown decision command: " +:+ verb] [])
      | Some cmd_enum =>
          let rules := VALIDATION_RULES cmd_enum in
          let errors :=
            if truthy_str (get (p_system_id params)) then []
            else [verb +:+ " requires system_id"] in
          match check_artifacts verb (get_or (p_artifacts params) [])
                  (required_artifacts rules) errors with
          | Raise e => Raise e
          | Ok errors =>
              match get_or (p_signoff params) [] with
              | None => Raise TypeError
              | Some signoffs =>
                  let provided_roles := map role signoffs in
                  let errors :=
                    check_roles verb provided_roles (required_roles rules) errors in
                  let risk_links := get_or (p_risk_links params) [] in
                  let '(errors, warnings) :=
                    match requires_risk_links rules with
                    | RiskYes =>
                        if truthy_list risk_links then (errors, [])
                        else (errors ++ [verb +:+ " requires at least one risk_link"], [])
                    | RiskConditional =>
                        if truthy_list risk_links then (errors, [])
                        else (errors, [verb +:+ " may require risk_links depending on impact"])
                    | RiskNo => (errors, [])
                    end in
                  let warnings :=
                    if truthy_str (get (p_use_case params)) then warnings
                    else warnings ++ [verb +:+ " should include use_case for traceability"] in
                  Ok (mkValidation (length errors =? 0)%nat errors warnings)
              end
          end
      end
  end.

(** ** [ECLParser] *)

Definition VALID_DECISION_COMMANDS : list string := map command_value all_commands.
Definition VALID_READ_COMMANDS : list string := ["QUERY"; "REPLAY"; "VERIFY"]%string.

Definition mem (s : string) (l : list string) : bool := existsb (String.eqb s) l.

(** The requirements of a rule that [artifacts] does not meet, and the
    roles it asks for that are not among [provided_roles], both in the
    order of the rule. *)
Definition unmet_artifacts (artifacts : list string) (required : list (string * nat))
  : list (string * nat) :=
  List.filter
    (fun r => (length (matching_artifacts (fst r) artifacts) <? snd r)%nat) required.

Definition missing_roles (provided_roles required : list string) : list string :=
  List.filter (fun r => negb (mem r provided_roles)) required.

(** The result of a parse: without a ["command"] key on the early exits. *)
Inductive ParseResult :=
| Rejected (errors : list string)
| Parsed (success : bool) (command : Command) (errors : list string).

Definition parse_success (r : ParseResult) : bool :=
  match r with
  | Rejected _ => false
  | Parsed success _ _ => success
  end.

Definition parse_errors (r : ParseResult) : list string :=
  match r with
  | Rejected errors => errors
  | Parsed _ _ errors => errors
  end.

(** The object [json.loads] returns for a structured command. *)
Record JsonObject := mkJson {
  j_command : entry string;
  j_system_id : entry string;
  j_use_case : entry string;
  j_artifacts : entry (list string);
  j_risk_links : entry (list string);
  j_signoff : entry (list Signoff);
  j_project_id : entry string;
  j_eve_decision_id : entry string;
  j_supersedes : entry string;
  j_filters : entry Filters
}.

Definition _parse_json (obj : JsonObject) : result ParseResult :=
  match get_or (j_command obj) EmptyString with
  | None => Raise AttributeError
  | Some raw =>
      let command := PyStr.upper raw in
      let is_decision := mem command VALID_DECISION_COMMANDS in
      let is_read := mem command VALID_READ_COMMANDS in
      if negb (PyStr.truthy command) || (negb is_decision && negb is_read)
      then Ok (Rejected ["Unknown command: " +:+ command])
      else
        let params :=
          mkParams (stored (j_system_id obj)) (stored (j_use_case obj))
                   (stored (j_artifacts obj)) (stored (j_risk_links obj))
                   (stored (j_signoff obj)) (stored (j_project_id obj))
                   (stored (j_eve_decision_id obj)) (stored (j_supersedes obj))
                   (stored (j_filters obj)) in
        let errors :=
          if is_decision && negb (truthy_str (get (p_system_id params)))
          then ["Missing 'system_id' for decision command"]%string else [] in
        Ok (Parsed (length errors =? 0)%nat
                   (mkCommand (if is_decision then decision else read) command params)
                   errors)
  end.

Definition set_system_id (v : string) (p : Params) : Params :=
  mkParams (Val v) (p_use_case p) (p_artifacts p) (p_risk_links p) (p_signoff p)
           (p_project_id p) (p_eve_decision_id p) (p_supersedes p) (p_filters p).
Definition set_use_case (v : string) (p : Params) : Params :=
  mkParams (p_system_id p) (Val v) (p_artifacts p) (p_risk_links p) (p_signoff p)
           (p_project_id p) (p_eve_decision_id p) (p_supersedes p) (p_filters p).
Definition set_artifacts (v : list string) (p : Params) : Params :=
  mkParams (p_system_id p) (p_use_case p) (Val v) (p_risk_links p) (p_signoff p)
           (p_project_id p) (p_eve_decision_id p) (p_supersedes p) (p_filters p).
Definition set_risk_links (v : list string) (p : Params) : Params :=
  mkParams (p_system_id p) (p_use_case p) (p_artifacts p) (Val v) (p_signoff p)
           (p_project_id p) (p_eve_decision_id p) (p_supersedes p) (p_filters p).
Definition set_signoff (v : list Signoff) (p : Params) : Params :=
  mkParams (p_system_id p) (p_use_case p) (p_artifacts p) (p_risk_links p) (Val v)
           (p_project_id p) (p_eve_decision_id p) (p_supersedes p) (p_filters p).
Definition set_project_id (v : string) (p : Params) : Params :=
  mkParams (p_system_id p) (p_use_case p) (p_artifacts p) (p_risk_links p) (p_signoff p)
           (Val v) (p_eve_decision_id p) (p_supersedes p) (p_filters p).
Definition set_eve_decision_id (v : string) (p : Params) : Params :=
  mkParams (p_system_id p) (p_use_case p) (p_artifacts p) (p_risk_links p) (p_signoff p)
           (p_project_id p) (Val v) (p_supersedes p) (p_filters p).
Definition set_supersedes (v : string) (p : Params) : Params :=
  mkParams (p_system_id p) (p_use_case p) (p_artifacts p) (p_risk_links p) (p_signoff p)
           (p_project_id p) (p_eve_decision_id p) (Val v) (p_filters p).

(** [[x.strip() for x in s.split(",") if x.strip()]] *)
Definition comma_items (s : string) : list string :=
  List.filter PyStr.truthy (map PyStr.strip (PyStr.split_on "," s)).

(** The loop over [line[8:].split(",")] of a [SIGNOFF] line. *)
Fixpoint signoff_items (pieces : list string) : list Signoff :=
  match pieces with
  | [] => []
  | s :: rest =>
      if PyStr.contains ":" s then
        match PyStr.split_first ":" (PyStr.strip s) with
        | [r; a] => mkSignoff (PyStr.strip r) (PyStr.strip a) :: signoff_items rest
        | _ => signoff_items rest
        end
      else signoff_items rest
  end.

Fixpoint take_until_quote (s : string) : string * string :=
  match s with
  | EmptyString => (EmptyString, EmptyString)
  | String c r =>
      if Ascii.eqb c dq then (EmptyString, s)
      else let '(body, rest) := take_until_quote r in (String c body, rest)
  end.

(** [match.group(1) or match.group(2)] for the case-insensitive pattern of
    [_parse_text]: [USE_CASE], white space, then either a quoted non-empty
    text without quotes (group 1) or the rest of the line (group 2).  The
    line is stripped and its upper case starts with [USE_CASE] and a
    space, so the pattern always matches. *)
Definition use_case_of_line (line : string) : string :=
  let rest := PyStr.lstrip (PyStr.drop 8 line) in
  match rest with
  | EmptyString => EmptyString
  | String c r =>
      if Ascii.eqb c dq then
        match take_until_quote r with
        | (String b body, String _ _) => String b body
        | _ => rest
        end
      else rest
  end.

(** One turn of the loop over [lines[1:]]. *)
Definition parse_body_line (params : Params) (line : string) : Params :=
  let upper := PyStr.upper line in
  if PyStr.startswith upper "USE_CASE " then
    set_use_case (use_case_of_line line) params
  else if PyStr.startswith upper "ARTIFACTS " then
    set_artifacts (comma_items (PyStr.drop 10 line)) params
  else if PyStr.startswith upper "RISK_LINKS " then
    set_risk_links (comma_items (PyStr.drop 11 line)) params
  else if PyStr.startswith upper "SIGNOFF " then
    set_signoff (signoff_items (PyStr.split_on "," (PyStr.drop 8 line))) params
  else if PyStr.startswith upper "PROJECT " then
    set_project_id (PyStr.strip (PyStr.drop 8 line)) params
  else if PyStr.startswith upper "SUPERSEDES " then
    set_supersedes (PyStr.strip (PyStr.drop 11 line)) params
  else params.

Definition parse_header (parts : list string) : Params :=
  match parts with
  | _ :: keyword :: value :: _ =>
      if String.eqb (PyStr.upper keyword) "SYSTEM" then set_system_id value no_params
      else if String.eqb (PyStr.upper keyword) "DECISION"
           then set_eve_decision_id value no_params
      else no_params
  | _ => no_params
  end.

Definition _parse_text (text : string) : ParseResult :=
  let lines :=
    List.filter PyStr.truthy (map PyStr.strip (PyStr.split_on "010" text)) in
  match lines with
  | [] => Rejected ["Empty command"]%string
  | first_line :: body =>
      if negb (PyStr.startswith (PyStr.upper first_line) "EVE ")
      then Rejected ["ECL command must start with 'EVE'"]%string
      else
        let parts := PyStr.split_ws (PyStr.drop 4 first_line) in
        match parts with
        | [] => Rejected ["Missing command verb after 'EVE'"]%string
        | part0 :: _ =>
            let verb := PyStr.upper part0 in
            if negb (PyStr.truthy verb)
            then Rejected ["Missing command verb after 'EVE'"]%string
            else
              let is_decision := mem verb VALID_DECISION_COMMANDS in
              let is_read := mem verb VALID_READ_COMMANDS in
              if negb is_decision && negb is_read
              then Rejected ["Unknown command: " +:+ verb +:+ ". Valid: "
                               +:+ join ", " (VALID_DECISION_COMMANDS ++ VALID_READ_COMMANDS)]
              else
                let params := fold_left parse_body_line body (parse_header parts) in
                let errors :=
                  if is_decision && negb (truthy_str (get (p_system_id params)))
                  then ["Missing SYSTEM <id> in command header"]%string else [] in
                Parsed (length errors =? 0)%nat
                       (mkCommand (if is_decision then decision else read) verb params)
                       errors
        end
  end.

(** The params hold no [None] under ["artifacts"] and ["signoff"]: each
    key is missing or holds a list. *)
Definition lists_set (p : Params) : Prop :=
  p_artifacts p <> IsNone /\ p_signoff p <> IsNone.

(** The input of [parse]: a text that [json.loads] decodes to an object
    goes to [_parse_json]; any other text (not starting with a brace, or
    not decodable) goes to [_parse_text]. *)
Inductive EclInput :=
| Structured (obj : JsonObject)
| Text (input_str : string).

(** The texts of the input that the parser puts in upper case are ASCII:
    the whole of a text instruction; the command and the artifact ids of
    a structured one. *)
Definition ascii_input (input : EclInput) : bool :=
  match input with
  | Text input_str => PyStr.isascii input_str
  | Structured obj =>
      match get (j_command obj) with
      | Some command => PyStr.isascii command
      | None => true
      end
      && match get (j_artifacts obj) with
         | Some artifacts => forallb PyStr.isascii artifacts
         | None => true
         end
  end.

Definition parse (input : EclInput) : result ParseResult :=
  match input with
  | Structured obj => _parse_json obj
  | Text input_str => Ok (_parse_text (PyStr.strip input_str))
  end.

(** ** [Database] *)

Record Executor := mkExecutor {
  x_role : string;
  x_actor_id : string;
  approval_method : string
}.

Record Decision := mkDecision {
  eve_decision_id : string;
  project_id : string;
  hash_version : string;
  decision_type : string;
  status : string;
  created_at : string;
  executed_by : list Executor;
  scope_system_id : option string;
  scope_use_case : option string;
  source_artifacts : option (list string);
  risk_links : option (list string);
  rule_set_version : string;
  context_hash : string;
  supersedes : option string;
  superseded_by : option string    (* [None]: the key is not set *)
}.

Record VaultEntry := mkVaultEntry {
  v_eve_decision_id : string;
  v_evidence_type : string;
  payload_hash : string;
  sealed_at : string;
  vault_proof : string
}.

Record Artifact := mkArtifact {
  artifact_id : string;
  a_status : string;
  a_content : option string;
  a_created_at : string;
  frozen_at : option string;
  a_eve_decision_id : option string
}.

(** [Database.state]: the counters are keyed by [str(year)]. *)
Record State := mkState {
  edi_sequence : gmap string Z;
  decisions : list Decision;
  vault : list VaultEntry;
  artifacts : list Artifact
}.

(** The state [_load] returns when there is no database file. *)
Definition empty_state : State := mkState ∅ [] [] [].

(** Operations read and write the state and may raise; what was written
    before a [raise] stays written ([_save] has already run). *)
Definition M (A : Type) : Type := State -> result A * State.

#[global] Instance M_ret : MRet M := fun A (a : A) s => (Ok a, s).

#[global] Instance M_bind : MBind M := fun A B (f : A -> M B) (m : M A) s =>
  match m s with
  | (Ok a, s') => f a s'
  | (Raise e, s') => (Raise e, s')
  end.

Definition lift {A} (r : result A) : M A := fun s => (r, s).
Definition modify (f : State -> State) : M unit := fun s => (Ok tt, f s).
Definition reading {A} (f : State -> A) : M A := fun s => (Ok (f s), s).

Definition year_key (year : N) : string := PyStr.str (Z.of_N year).

Definition format_edi (year : N) (seq : Z) : string :=
  "EVE-" +:+ year_key year +:+ "-" +:+ PyStr.format_06d seq.

Definition current_sequence (year : N) (s : State) : Z :=
  default 0 (edi_sequence s !! year_key year).

(** [generate_next_edi]; [year] is [datetime.now().year]. *)
Definition generate_next_edi (year : N) : M string := fun s =>
  let current := current_sequence year s in
  let next_seq := current + 1 in
  (Ok (format_edi year next_seq),
   mkState (<[year_key year := next_seq]> (edi_sequence s))
           (decisions s) (vault s) (artifacts s)).

Definition insert_decision (d : Decision) : M unit :=
  modify (fun s => mkState (edi_sequence s) (decisions s ++ [d]) (vault s) (artifacts s)).

Definition has_id (id : option string) (d : Decision) : bool :=
  match id with
  | Some i => String.eqb (eve_decision_id d) i
  | None => false
  end.

Definition get_decision (id : option string) (s : State) : option Decision :=
  find (has_id id) (decisions s).

(** The first element that satisfies [p] is replaced by its image. *)
Fixpoint update_first {A} (p : A -> bool) (f : A -> A) (l : list A) : list A :=
  match l with
  | [] => []
  | x :: r => if p x then f x :: r else x :: update_first p f r
  end.

Definition mark_superseded (new_edi : string) (d : Decision) : Decision :=
  mkDecision (eve_decision_id d) (project_id d) (hash_version d) (decision_type d)
             "SUPERSEDED" (created_at d) (executed_by d) (scope_system_id d)
             (scope_use_case d) (source_artifacts d) (risk_links d)
             (rule_set_version d) (context_hash d) (supersedes d) (Some new_edi).

(** [Database.supersede] *)
Definition supersede (old_edi new_edi : string) : M unit :=
  modify (fun s =>
    mkState (edi_sequence s)
            (update_first (has_id (Some old_edi)) (mark_superseded new_edi) (decisions s))
            (vault s) (artifacts s)).

Definition opt_str (o : option string) : json :=
  match o with
  | Some s => JStr s
  | None => JNull
  end.

Definition opt_strs (o : option (list string)) : json :=
  match o with
  | Some l => JList (map JStr l)
  | None => JNull
  end.

Definition executor_json (x : Executor) : json :=
  JDict [("role", JStr (x_role x)); ("actor_id", JStr (x_actor_id x));
         ("approval_method", JStr (approval_method x))].

(** A decision as the [dict] that is stored and sealed. *)
Definition decision_json (d : Decision) : json :=
  JDict ([("eve_decision_id", JStr (eve_decision_id d));
          ("project_id", JStr (project_id d));
          ("hash_version", JStr (hash_version d));
          ("decision_type", JStr (decision_type d));
          ("status", JStr (status d));
          ("created_at", JStr (created_at d));
          ("executed_by", JList (map executor_json (executed_by d)));
          ("scope", JDict [("system_id", opt_str (scope_system_id d));
                           ("use_case", opt_str (scope_use_case d))]);
          ("source_artifacts", opt_strs (source_artifacts d));
          ("risk_links", opt_strs (risk_links d));
          ("rule_set_version", JStr (rule_set_version d));
          ("context_hash", JStr (context_hash d));
          ("supersedes", opt_str (supersedes d))]
         ++ match superseded_by d with
            | Some b => [("superseded_by", JStr b)]
            | None => []
            end).

Fixpoint all_digits (n : nat) (s : string) : option string :=
  match n, s with
  | O, _ => Some s
  | S k, String c r => if PyStr.is_digit c then all_digits k r else None
  | S _, EmptyString => None
  end.

(** [re.match(r"^EVE-\d{4}-\d{6}$", id)] *)
Definition EDI_REGEX_match (id : string) : bool :=
  PyStr.startswith id "EVE-"
  && match all_digits 4 (PyStr.drop 4 id) with
     | Some (String c r) =>
         Ascii.eqb c "-"
         && match all_digits 6 r with
            | Some rest => at_dollar rest
            | None => false
            end
     | _ => false
     end.

Definition take_str (n : nat) (s : string) : string :=
  String.substring 0 n s.

(** [seal_to_vault]; [now] is the reading of the clock. *)
Definition seal_to_vault (now : string) (id : string) (evidence_type : string)
  (payload : json) : M VaultEntry := fun s =>
  if negb (PyStr.truthy id) || negb (EDI_REGEX_match id) then (Raise ValueError, s)
  else
    let payload_hash := sha256_hex (dumps true payload) in
    let proof :=
      take_str 32 (sha256_hex (payload_hash +:+ ":" +:+ now +:+ ":EVE-VAULT-v1")) in
    let entry := mkVaultEntry id evidence_type payload_hash now proof in
    (Ok entry,
     mkState (edi_sequence s) (decisions s) (vault s ++ [entry]) (artifacts s)).

Definition get_vault_entry (id : option string) (s : State) : option VaultEntry :=
  match id with
  | Some i => find (fun v => String.eqb (v_eve_decision_id v) i) (vault s)
  | None => None
  end.

Definition mark_linked (id : string) (a : Artifact) : Artifact :=
  mkArtifact (artifact_id a) "Executed" (a_content a) (a_created_at a)
             (frozen_at a) (Some id).

Definition link_artifact_to_decision (art id : string) : M unit :=
  modify (fun s =>
    mkState (edi_sequence s) (decisions s) (vault s)
            (update_first (fun a => String.eqb (artifact_id a) art)
                          (mark_linked id) (artifacts s))).

(** [sorted(results, key=created_at, reverse=True)]: stable. *)
Fixpoint insert_desc (d : Decision) (l : list Decision) : list Decision :=
  match l with
  | [] => [d]
  | x :: r =>
      if String.ltb (created_at d) (created_at x) then x :: insert_desc d r
      else d :: l
  end.

Definition sorted_desc (l : list Decision) : list Decision :=
  foldr insert_desc [] l.

Definition keep_if (wanted : option string) (field : Decision -> option string)
  (l : list Decision) : list Decision :=
  if truthy_str wanted
  then List.filter (fun d => if decide (field d = wanted) then true else false) l
  else l.

Definition list_decisions (filters : option Filters) (s : State) : list Decision :=
  let results := decisions s in
  let results :=
    match filters with
    | None => results
    | Some f =>
        keep_if (f_project_id f) (fun d => Some (project_id d))
          (keep_if (f_system_id f) scope_system_id
             (keep_if (f_status f) (fun d => Some (status d))
                (keep_if (f_decision_type f) (fun d => Some (decision_type d)) results)))
    end in
  sorted_desc results.

(** ** [DecisionEngine] *)

Definition risk_json (r : RiskRequirement) : json :=
  match r with
  | RiskNo => JBool false
  | RiskYes => JBool true
  | RiskConditional => JStr "conditional"
  end.

Definition rules_json (r : Rules) : json :=
  JDict [("required_artifacts",
          JList (map (fun pn : string * nat =>
                        JList [JStr (fst pn); JInt (Z.of_nat (snd pn))])
                     (required_artifacts r)));
         ("required_roles", JList (map JStr (required_roles r)));
         ("requires_risk_links", risk_json (requires_risk_links r))].

(** [json.dumps(VALIDATION_RULES, sort_keys=True, default=str)] *)
Definition VALIDATION_RULES_json : json :=
  JDict (map (fun c => (command_value c, rules_json (VALIDATION_RULES c))) all_commands).

Definition rules_hash : string :=
  Eval vm_compute in take_str 8 (sha256_hex (dumps true VALIDATION_RULES_json)).

Definition signoff_json (s : Signoff) : json :=
  JDict [("role", JStr (role s)); ("actor_id", JStr (actor_id s))].

(** The dictionary whose dump is hashed into ["context_hash"]. *)
Definition context_json (project_id : string) (params : Params) : json :=
  JDict [("project_id", JStr project_id);
         ("system_id", opt_str (get (p_system_id params)));
         ("use_case", opt_str (get (p_use_case params)));
         ("artifacts", opt_strs (get (p_artifacts params)));
         ("risk_links", opt_strs (get (p_risk_links params)));
         ("signoff",
          match get (p_signoff params) with
          | Some l => JList (map signoff_json l)
          | None => JNull
          end)].

Definition context_data (project_id : string) (params : Params) : string :=
  dumps true (context_json project_id params).

(** [_create_decision_object]; [now] is the reading of the clock. *)
Definition _create_decision_object (now : string) (id : string) (command : Command)
  : result Decision :=
  let params := params command in
  match normalize_project_id (get (p_project_id params)) with
  | Raise e => Raise e
  | Ok (project_id, hash_version) =>
      match command_of_value (verb command) with
      | None => Raise ValueError
      | Some cmd_enum =>
          match get_or (p_signoff params) [] with
          | None => Raise TypeError
          | Some signoffs =>
              Ok (mkDecision id project_id hash_version
                    (DecisionType_value (COMMAND_TO_DECISION_TYPE cmd_enum))
                    "EXECUTED" now
                    (map (fun s => mkExecutor (role s) (actor_id s) "explicit_signoff")
                         signoffs)
                    (get_or (p_system_id params) EmptyString)
                    (get_or (p_use_case params) EmptyString)
                    (get_or (p_artifacts params) [])
                    (get (p_risk_links params))
                    ("eve-ruleset-v1.0-" +:+ rules_hash)
                    (sha256_hex (context_data project_id params))
                    (get (p_supersedes params))
                    None)
          end
      end
  end.

(** The three readings of the clock a write takes: the year for the
    identifier, the creation time and the sealing time. *)
Record Clock := mkClock {
  year : N;
  created_now : string;
  sealed_now : string
}.

Record ReplayData := mkReplay {
  r_decision_type : string;
  r_frozen_artifacts : list (string * string);
  r_accountability : list (string * string * string);
  r_status : string;
  r_vault_sealed : bool;
  r_sealed_at : option string
}.

Record VerifyData := mkVerify {
  decision_exists : bool;
  vault_exists : bool;
  checked_status : string;
  overall_valid : bool
}.

Record Summary := mkSummary {
  q_eve_decision_id : string;
  q_decision_type : string;
  q_status : string;
  q_created_at : string;
  q_system_id : option string
}.

(** The dictionaries the engine returns.  [Failure]'s warnings are [None]
    where the key is not set; [Success]'s where it holds [None]. *)
Inductive Response :=
| Failure (errors : list string) (warnings : option (list string))
| Success (id vault_proof sealed_at : string) (warnings : option (list string))
| Replayed (id : option string) (data : ReplayData)
| Verified (id : option string) (data : VerifyData)
| Queried (count : nat) (found : list Summary).

Definition is_success (r : Response) : bool :=
  match r with
  | Failure _ _ => false
  | _ => true
  end.

Definition present {A} (o : option A) : bool :=
  match o with
  | Some _ => true
  | None => false
  end.

Definition shown (id : option string) : string :=
  match id with
  | Some i => i
  | None => "None"
  end.

Definition _replay (id : option string) : M Response := fun s =>
  match get_decision id s with
  | None => (Ok (Failure ["Decision not found: " +:+ shown id] None), s)
  | Some d =>
      match source_artifacts d with
      | None => (Raise TypeError, s)
      | Some arts =>
          let entry := get_vault_entry id s in
          (Ok (Replayed id
                 (mkReplay (decision_type d)
                    (map (fun a => (a, "snapshot-" +:+ a)) arts)
                    (map (fun e => (x_role e, x_actor_id e, created_at d)) (executed_by d))
                    (status d)
                    (present entry)
                    (sealed_at <$> entry))), s)
      end
  end.

Definition _verify (id : option string) : M Response := fun s =>
  let d := get_decision id s in
  let entry := get_vault_entry id s in
  (Ok (Verified id
         (mkVerify (present d) (present entry)
                   (match d with Some d => status d | None => "NOT_FOUND" end)
                   ((present d) && (present entry)))), s).

Definition _query (filters : option Filters) : M Response := fun s =>
  let found := list_decisions filters s in
  (Ok (Queried (length found)
         (map (fun d => mkSummary (eve_decision_id d) (decision_type d) (status d)
                                  (created_at d) (scope_system_id d)) found)), s).

Definition _execute_read (command : Command) : M Response :=
  let verb := verb command in
  let params := params command in
  if String.eqb verb "REPLAY" then _replay (get (p_eve_decision_id params))
  else if String.eqb verb "VERIFY" then _verify (get (p_eve_decision_id params))
  else if String.eqb verb "QUERY"
       then _query (get_or (p_filters params) (mkFilters None None None None))
  else mret (Failure ["Unknown read command: " +:+ verb] None).

(** [warnings if warnings else None] *)
Definition some_warnings (warnings : list string) : option (list string) :=
  match warnings with
  | [] => None
  | _ => Some warnings
  end.

(** The loop of [_execute_decision] over the artifacts. *)
Fixpoint link_all (arts : list string) (id : string) : M unit :=
  match arts with
  | [] => mret tt
  | a :: rest => link_artifact_to_decision a id ≫= fun _ => link_all rest id
  end.

Definition _execute_supersede (clock : Clock) (command : Command)
  (warnings : list string) : M Response :=
  let params := params command in
  match p_supersedes params with
  | Missing => lift (Raise KeyError)
  | IsNone => mret (Failure ["Decision not found: " +:+ shown None] None)
  | Val target =>
      original ← reading (get_decision (Some target));
      match original with
      | None => mret (Failure ["Decision not found: " +:+ target] None)
      | Some original =>
          if negb (String.eqb (status original) "EXECUTED")
          then mret (Failure ["Cannot supersede " +:+ status original +:+ " decision"] None)
          else
            id ← generate_next_edi (year clock);
            decision_obj ← lift (_create_decision_object (created_now clock) id command);
            _ ← insert_decision decision_obj;
            _ ← supersede target id;
            entry ← seal_to_vault (sealed_now clock) id "DECISION"
                      (decision_json decision_obj);
            mret (Success id (vault_proof entry) (sealed_at entry)
                          (Some (("Superseded: " +:+ target) :: warnings)))
      end
  end.

Definition _execute_decision (clock : Clock) (command : Command)
  (warnings : list string) : M Response :=
  let params := params command in
  if truthy_str (get (p_supersedes params))
  then _execute_supersede clock command warnings
  else
    id ← generate_next_edi (year clock);
    decision_obj ← lift (_create_decision_object (created_now clock) id command);
    _ ← insert_decision decision_obj;
    entry ← seal_to_vault (sealed_now clock) id "DECISION" (decision_json decision_obj);
    match get_or (p_artifacts params) [] with
    | None => lift (Raise TypeError)
    | Some arts =>
        _ ← link_all arts id;
        mret (Success id (vault_proof entry) (sealed_at entry) (some_warnings warnings))
    end.

Definition with_project_id (project_id : option string) (command : Command) : Command :=
  match project_id with
  | Some p => mkCommand (cmd_type command) (verb command)
                        (set_project_id p (params command))
  | None => command
  end.

(** [DecisionEngine.execute] *)
Definition execute (clock : Clock) (ecl_input : EclInput) (project_id : option string)
  : M Response :=
  parse_result ← lift (parse ecl_input);
  match parse_result with
  | Rejected errors => mret (Failure errors None)
  | Parsed false _ errors => mret (Failure errors None)
  | Parsed true command _ =>
      let command := with_project_id project_id command in
      match cmd_type command with
      | read => _execute_read command
      | decision =>
          validation ← lift (validate command);
          if negb (valid validation)
          then mret (Failure (v_errors validation) (Some (v_warnings validation)))
          else _execute_decision clock command (v_warnings validation)
      end
  end.

(** [DecisionEngine.validate]: the parse result and, after a successful
    parse, the validation. *)
Definition validate_only (ecl_input : EclInput)
  : result (ParseResult * option Validation) :=
  match parse ecl_input with
  | Raise e => Raise e
  | Ok parse_result =>
      match parse_result with
      | Parsed true command _ =>
          match validate command with
          | Raise e => Raise e
          | Ok validation => Ok (parse_result, Some validation)
          end
      | _ => Ok (parse_result, None)
      end
  end.

(** ** Process runs *)

Definition create_artifact (now : string) (art : string) (content : option string)
  : M unit :=
  modify (fun s =>
    if existsb (fun a => String.eqb (artifact_id a) art) (artifacts s) then s
    else mkState (edi_sequence s) (decisions s) (vault s)
                 (artifacts s ++ [mkArtifact art "Draft" content now None None])).

Definition mark_proposed (now : string) (a : Artifact) : Artifact :=
  mkArtifact (artifact_id a) "Proposed" (a_content a) (a_created_at a)
             (Some now) (a_eve_decision_id a).

Definition propose_artifact (now : string) (art : string) : M unit :=
  modify (fun s =>
    mkState (edi_sequence s) (decisions s) (vault s)
            (update_first (fun a => String.eqb (artifact_id a) art
                                    && String.eqb (a_status a) "Draft")
                          (mark_proposed now) (artifacts s))).

(** A call of one of the methods of [Database] that write. *)
Inductive DbCall :=
| CallGenerate (year : N)
| CallInsert (d : Decision)
| CallSupersede (old_edi new_edi : string)
| CallSeal (now id evidence_type : string) (payload : json)
| CallCreateArtifact (now art : string) (content : option string)
| CallPropose (now art : string)
| CallLink (art id : string).

(** The state after a call, and the identifier it issued, if any, with the
    year it was issued for.  A call that raises leaves the process, and the
    state it had reached, alive. *)
Definition db_call (c : DbCall) (s : State) : list (N * string) * State :=
  match c with
  | CallGenerate y =>
      match generate_next_edi y s with
      | (Ok id, s') => ([(y, id)], s')
      | (Raise _, s') => ([], s')
      end
  | CallInsert d => ([], snd (insert_decision d s))
  | CallSupersede o n => ([], snd (supersede o n s))
  | CallSeal now id ty payload => ([], snd (seal_to_vault now id ty payload s))
  | CallCreateArtifact now art content => ([], snd (create_artifact now art content s))
  | CallPropose now art => ([], snd (propose_artifact now art s))
  | CallLink art id => ([], snd (link_artifact_to_decision art id s))
  end.

(** The identifiers a run of calls issues, in order. *)
Fixpoint issued (calls : list DbCall) (s : State) : list (N * string) :=
  match calls with
  | [] => []
  | c :: rest => fst (db_call c s) ++ issued rest (snd (db_call c s))
  end.

Fixpoint run_calls (calls : list DbCall) (s : State) : State :=
  match calls with
  | [] => s
  | c :: rest => run_calls rest (snd (db_call c s))
  end.

(** How many of the first [n] issued identifiers are of year [y]. *)
Definition issued_before (y : N) (n : nat) (l : list (N * string)) : nat :=
  length (List.filter (fun p => N.eqb (fst p) y) (take n l)).

(** The state after [generate_next_edi] for year [y]: only the counter of
    that year has moved, by one. *)
Definition advanced (y : N) (s : State) : State :=
  mkState (<[year_key y := current_sequence y s + 1]> (edi_sequence s))
          (decisions s) (vault s) (artifacts s).

(** A command without its partition id: what two instructions that differ
    only in the partition have in common. *)
Definition without_project_id (c : Command) : Command :=
  mkCommand (cmd_type c) (verb c)
    (mkParams (p_system_id (params c)) (p_use_case (params c))
              (p_artifacts (params c)) (p_risk_links (params c))
              (p_signoff (params c)) Missing (p_eve_decision_id (params c))
              (p_supersedes (params c)) (p_filters (params c))).

(** The artifacts after the loop of [_execute_decision] has linked each
    of [arts] to [id]. *)
Definition link_each (id : string) (arts : list string) (l : list Artifact)
  : list Artifact :=
  fold_left (fun l art =>
               update_first (fun a => String.eqb (artifact_id a) art) (mark_linked id) l)
            arts l.

(** The states the API reaches from an empty database: it executes
    instructions, creates and proposes artifacts, and takes an identifier
    for an approved knowledge item. *)
Inductive engine_reachable : State -> Prop :=
| engine_start : engine_reachable empty_state
| engine_execute clock input project_id s :
    engine_reachable s ->
    engine_reachable (snd (execute clock input project_id s))
| engine_create_artifact now art content s :
    engine_reachable s ->
    engine_reachable (snd (create_artifact now art content s))
| engine_propose_artifact now art s :
    engine_reachable s ->
    engine_reachable (snd (propose_artifact now art s))
| engine_generate year s :
    engine_reachable s ->
    engine_reachable (snd (generate_next_edi year s)).

(** What the engine keeps of the identifiers in the database: those of
    the decisions are distinct and were issued by the counters, which are
    not negative; those of the vault entries are distinct and each is the
    identifier of a decision. *)
Record ids_inv (s : State) : Prop := {
  ids_distinct : NoDup (map eve_decision_id (decisions s));
  ids_sealed_distinct : NoDup (map v_eve_decision_id (vault s));
  ids_sealed_known :
    forall id, id ∈ map v_eve_decision_id (vault s) ->
               id ∈ map eve_decision_id (decisions s);
  ids_issued :
    forall id, id ∈ map eve_decision_id (decisions s) ->
               exists y k, id = format_edi y k /\ 0 < k <= current_sequence y s;
  ids_counters : forall y, 0 <= current_sequence y s
}.

(** The life of an artifact: a draft, then proposed and frozen, then
    linked to a decision. *)
Definition artifact_state_ok (a : Artifact) : Prop :=
  (a_status a = "Draft"%string /\ frozen_at a = None /\ a_eve_decision_id a = None)
  \/ (a_status a = "Proposed"%string /\ frozen_at a <> None
      /\ a_eve_decision_id a = None)
  \/ (a_status a = "Executed"%string /\ a_eve_decision_id a <> None).

(** ** Scenarios *)

(** The instruction names [target] as the decision it supersedes. *)
Definition targets (target : string) (command : Command) : Prop :=
  p_supersedes (params command) = Val target.

(** A classification of system [acme-sys], as a structured command. *)
Definition classify_acme : JsonObject :=
  mkJson (Val "CLASSIFY") (Val "acme-sys") Missing
         (Val ["CDOC-SCOPE-1"; "CDOC-CLASS-1"]) Missing
         (Val [mkSignoff "Compliance Owner" "joakim"])
         Missing Missing Missing Missing.

Definition with_supersedes (target : string) (obj : JsonObject) : JsonObject :=
  mkJson (j_command obj) (j_system_id obj) (j_use_case obj) (j_artifacts obj)
         (j_risk_links obj) (j_signoff obj) (j_project_id obj)
         (j_eve_decision_id obj) (Val target) (j_filters obj).

Definition with_artifacts (arts : entry (list string)) (obj : JsonObject) : JsonObject :=
  mkJson (j_command obj) (j_system_id obj) (j_use_case obj) arts
         (j_risk_links obj) (j_signoff obj) (j_project_id obj)
         (j_eve_decision_id obj) (j_supersedes obj) (j_filters obj).

Definition morning : Clock :=
  mkClock 2026 "2026-01-17T10:00:00+00:00" "2026-01-17T10:00:01+00:00".

Definition noon : Clock :=
  mkClock 2026 "2026-01-17T12:00:00+00:00" "2026-01-17T12:00:01+00:00".

(** The ledger after the classification was executed on an empty database:
    it holds the decision [EVE-2026-000001]. *)
Definition one_decision : State :=
  Eval vm_compute in snd (execute morning (Structured classify_acme) None empty_state).

(** The command [execute] hands on for a structured instruction. *)
Definition command_of (obj : JsonObject) (project_id : option string) : option Command :=
  match _parse_json obj with
  | Ok (Parsed true command _) => Some (with_project_id project_id command)
  | _ => None
  end.

End Trinity.

(** * Properties *)

(** ** Library functions on known values *)

Example sha256_empty :
  sha256_hex EmptyString = "e3b0c44298fc1c149afbf4c8996fb92427ae41e4649b934ca495991b7852b855"%string.
Proof. vm_compute. reflexivity. Qed.

Example sha256_abc :
  sha256_hex "abc" = "ba7816bf8f01cfea414140de5dae2223b00361a396177a9cb410ff61f20015ad"%string.
Proof. vm_compute. reflexivity. Qed.

Example sha256_two_blocks :
  sha256_hex "abcdbcdecdefdefgefghfghighijhijkijkljklmklmnlmnomnopnopq"
  = "248d6a61d20638b8e5c026930c3e6039a33ce45964ff2167f6ecedd419db06c1"%string.
Proof. vm_compute. reflexivity. Qed.

Example sha256_padding_boundary :
  sha256_hex "aaaaaaaaaaaaaaaaaaaaaaaaaaaaaaaaaaaaaaaaaaaaaaaaaaaaaaaa"
  = "b35439a4ac6f0948b6d6f9e3c6af0f5f590ce20f1bde7090ef7970686ec6738a"%string.
Proof. vm_compute. reflexivity. Qed.

Example dumps_sorted_escaped :
  dumps true
    (JDict [("b", JStr (chr "127" +:+ chr "031" +:+ chr dq +:+ chr backslash +:+ chr "010"));
            ("a", JList [JInt 1; JNull; JDict [("z", JStr (chr "233"))]])])
  = "{" +:+ quoted "a" +:+ ": [1, null, {" +:+ quoted "z" +:+ ": " +:+ quoted (esc "u00e9")
    +:+ "}], " +:+ quoted "b" +:+ ": "
    +:+ quoted (esc "u007f" +:+ esc "u001f" +:+ esc (chr dq) +:+ esc (chr backslash) +:+ esc "n")
    +:+ "}".
Proof. vm_compute. reflexivity. Qed.

Example dumps_keeps_utf8 :
  dumps false (JDict [("a", JStr (chr "127" +:+ chr "195" +:+ chr "169"))])
  = "{" +:+ quoted "a" +:+ ": " +:+ quoted (chr "127" +:+ chr "195" +:+ chr "169") +:+ "}".
Proof. vm_compute. reflexivity. Qed.

(** ** The evidence ledger *)

Module VaultProps.
Import XVault.

(** *** [verify_chain] lists the violations of the whole log *)

Lemma check_records_from (pre log : list EvidenceObject) (errors : list string) :
  fold_left (check_record (pre ++ log))
            (imap (fun i e => ((length pre + i)%nat, e)) log) errors
  = errors ++ chain_errors (content_hash <$> last pre) log.
Proof.
  revert pre errors.
  induction log as [|e log IH]; intros pre errors; simpl.
  - by rewrite app_nil_r.
  - rewrite (imap_ext _ (fun i x => ((length (pre ++ [e]) + i)%nat, x))).
    2:{ intros i x _. simpl. rewrite length_app. simpl. f_equal. lia. }
    replace (pre ++ e :: log) with ((pre ++ [e]) ++ log) by (by rewrite <- app_assoc).
    rewrite IH. rewrite last_snoc. simpl.
    rewrite Nat.add_0_r.
    destruct pre as [|p pre'] using rev_ind.
    + simpl. destruct (verify e); simpl; by rewrite ?app_nil_r, <- ?app_assoc.
    + clear IHpre'. rewrite last_snoc. simpl.
      rewrite length_app. simpl.
      replace (length pre' + 1 - 1)%nat with (length pre') by lia.
      replace (0 <? length pre' + 1)%nat with true
        by (symmetry; apply Nat.ltb_lt; lia).
      rewrite <- !app_assoc.
      rewrite (lookup_app_r pre') by lia.
      rewrite Nat.sub_diag. simpl.
      destruct (verify e), (String.eqb (previous_hash e) (content_hash p));
        simpl; by rewrite <- ?app_assoc.
Qed.

Lemma verify_chain_errors (v : XVault) :
  snd (verify_chain v) = chain_errors None (evidence_chain v).
Proof.
  unfold verify_chain. simpl.
  exact (check_records_from [] (evidence_chain v) []).
Qed.

Lemma verify_chain_flag (v : XVault) :
  fst (verify_chain v) = true <-> snd (verify_chain v) = [].
Proof.
  unfold verify_chain. simpl.
  rewrite Nat.eqb_eq. apply length_zero_iff_nil.
Qed.

Lemma chain_errors_app (prev : option string) (l1 l2 : list EvidenceObject) :
  chain_errors prev (l1 ++ l2)
  = chain_errors prev l1
    ++ chain_errors (match last l1 with
                     | Some e => Some (content_hash e)
                     | None => prev
                     end) l2.
Proof.
  revert prev. induction l1 as [|e l1 IH]; intros prev; simpl; [done|].
  rewrite IH, <- !app_assoc.
  destruct l1 as [|e' l1']; [reflexivity|].
  rewrite last_cons_cons.
  destruct (last (e' :: l1')) eqn:E; [done|]. by apply last_None in E.
Qed.

(** *** Stored Merkle paths *)

Lemma split_on_free (sep : ascii) (s : string) :
  PyStr.contains sep s = false -> PyStr.split_on sep s = [s].
Proof.
  induction s as [|c s IH]; simpl; [done|].
  intros [Hc Hs]%orb_false_elim. rewrite Hc, (IH Hs). done.
Qed.

Lemma split_on_app (sep : ascii) (h r : string) :
  PyStr.contains sep h = false ->
  PyStr.split_on sep (h +:+ String sep r) = h :: PyStr.split_on sep r.
Proof.
  induction h as [|c h IH]; simpl.
  - intros _. by rewrite Ascii.eqb_refl.
  - intros [Hc Hs]%orb_false_elim. by rewrite Hc, (IH Hs).
Qed.

Lemma parse_path_items (proof : list (string * string)) :
  Forall (fun hp => colon_free (fst hp) /\ colon_free (snd hp)) proof ->
  parse_path (map path_item proof) = Some proof.
Proof.
  induction 1 as [|[h p] proof [Hh Hp] _ IH]; simpl; [done|].
  unfold path_item at 1. cbn [fst snd] in *.
  change (":" +:+ p) with (String ":" p).
  rewrite (split_on_app ":" h p Hh), (split_on_free ":" p Hp), IH. done.
Qed.

Lemma hex_digit_colon_free (d : Z) :
  0 <= d < 16 -> Ascii.eqb (PyStr.hex_digit d) ":" = false.
Proof.
  intros Hd.
  assert (d = 0 \/ d = 1 \/ d = 2 \/ d = 3 \/ d = 4 \/ d = 5 \/ d = 6 \/ d = 7 \/
          d = 8 \/ d = 9 \/ d = 10 \/ d = 11 \/ d = 12 \/ d = 13 \/ d = 14 \/ d = 15)
    as H by lia.
  repeat destruct H as [->|H]; try subst d; reflexivity.
Qed.

Lemma contains_of_chars (c : ascii) (l : list ascii) :
  PyStr.contains c (PyStr.of_chars l) = existsb (fun d => Ascii.eqb d c) l.
Proof. induction l as [|d l IH]; simpl; [done|]. by rewrite IH. Qed.

Lemma be_bytes_range (n : nat) (x : Z) :
  Forall (fun b => 0 <= b < 256) (SHA256.be_bytes n x).
Proof.
  revert x. induction n as [|n IH]; intros x; simpl; [constructor|].
  apply Forall_app. split; [apply IH|].
  constructor; [|constructor].
  change 255 with (Z.ones 8). rewrite Z.land_ones by lia.
  apply Z.mod_pos_bound. lia.
Qed.

Lemma hex_byte_colon_free (b : Z) :
  0 <= b < 256 -> existsb (fun d => Ascii.eqb d ":") (SHA256.hex_byte b) = false.
Proof.
  intros Hb. unfold SHA256.hex_byte. simpl.
  rewrite !hex_digit_colon_free; [done| |].
  - change 15 with (Z.ones 4). rewrite Z.land_ones by lia.
    apply Z.mod_pos_bound. lia.
  - rewrite Z.shiftr_div_pow2 by lia. change (2 ^ 4) with 16.
    split; [apply Z.div_pos; lia|apply Z.div_lt_upper_bound; lia].
Qed.

Lemma hex_word_colon_free (w : Z) :
  existsb (fun d => Ascii.eqb d ":") (SHA256.hex_word w) = false.
Proof.
  unfold SHA256.hex_word.
  pose proof (be_bytes_range 4 w) as Hr.
  induction Hr as [|b bs Hb _ IHb]; [done|].
  cbn [flat_map]. rewrite existsb_app, IHb, orb_false_r.
  by apply hex_byte_colon_free.
Qed.

Lemma hex_words_colon_free (ws : list Z) :
  existsb (fun d => Ascii.eqb d ":") (flat_map SHA256.hex_word ws) = false.
Proof.
  induction ws as [|w ws IH]; [done|].
  cbn [flat_map]. by rewrite existsb_app, IH, hex_word_colon_free.
Qed.

Lemma sha256_hex_colon_free (s : string) : colon_free (sha256_hex s).
Proof.
  unfold colon_free, sha256_hex, SHA256.hexdigest.
  rewrite contains_of_chars. apply hex_words_colon_free.
Qed.

(** *** The invariant of the ledger *)

Lemma leaves_build_tree (t : MerkleTree) : leaves (_build_tree t) = leaves t.
Proof. unfold _build_tree. destruct (leaves t) eqn:E; simpl; congruence. Qed.

Lemma leaves_add_leaf (t : MerkleTree) (h : string) :
  leaves (add_leaf t h) = leaves t ++ [h].
Proof. unfold add_leaf. by rewrite leaves_build_tree. Qed.

Lemma verify_sealed (now uuid : string) ty c meta v :
  verify (fst (seal now uuid ty c meta v)) = true.
Proof. unfold verify, seal. simpl. apply String.eqb_refl. Qed.

Lemma tree_add_leaf (t : MerkleTree) (h : string) :
  tree (add_leaf t h)
  = build_levels (length (leaves t ++ [h])) (leaves t ++ [h]).
Proof.
  unfold add_leaf, _build_tree. simpl.
  destruct (leaves t ++ [h]) eqn:E; [|done].
  by apply app_eq_nil in E as [_ ?].
Qed.

Lemma seal_inv now uuid ty c meta v :
  sealed_inv v -> sealed_inv (snd (seal now uuid ty c meta v)).
Proof.
  intros [Hclean Hlast Hleaves Hhex Htree]. split; simpl.
  - rewrite chain_errors_app, Hclean. simpl.
    unfold verify. simpl. rewrite String.eqb_refl. simpl.
    rewrite Hlast. destruct (last (evidence_chain v)); [|done].
    by rewrite String.eqb_refl.
  - by rewrite last_snoc.
  - rewrite leaves_add_leaf, Hleaves, map_app. done.
  - rewrite leaves_add_leaf. apply Forall_app. split; [done|].
    constructor; [apply sha256_hex_colon_free|constructor].
  - rewrite tree_add_leaf, leaves_add_leaf.
    destruct (leaves (merkle_tree v) ++ [hash_content c]) eqn:E; [|done].
    by apply app_eq_nil in E as [_ ?].
Qed.

Lemma reachable_inv org key v : reachable org key v -> sealed_inv v.
Proof.
  induction 1 as [|v now uuid ty c meta _ IH|v now uuid version _ IH
                  |v now uuid seal_now seal_uuid start stop _ IH].
  - split; simpl; by try constructor.
  - by apply seal_inv.
  - destruct IH. by split.
  - unfold export_regulator_package. cbn [snd]. by apply seal_inv.
Qed.

Lemma hash_mismatch_with_content c e :
  hash_mismatch (with_content c e) = hash_mismatch e.
Proof. done. Qed.

Lemma chain_errors_mutated (k : nat) (c : json) (e : EvidenceObject)
  (log : list EvidenceObject) :
  log !! k = Some e ->
  hash_content c <> content_hash e ->
  chain_errors None log = [] ->
  chain_errors None (alter (with_content c) k log) = [hash_mismatch e].
Proof.
  intros Hk Hc Hclean.
  destruct (list_elem_of_split_length _ _ _ Hk) as (l1 & l2 & -> & ->).
  rewrite chain_errors_app in Hclean.
  apply app_eq_nil in Hclean as [H1 H2].
  rewrite alter_app_r_alt by lia. rewrite Nat.sub_diag. simpl.
  rewrite chain_errors_app, H1. simpl in *.
  apply app_eq_nil in H2 as [_ H2]. apply app_eq_nil in H2 as [H2 H3].
  rewrite H3, app_nil_r.
  replace (verify (with_content c e)) with false
    by (unfold verify; simpl; by destruct (String.eqb_spec (hash_content c) (content_hash e))).
  destruct (last l1) as [p|]; [|done]. simpl in *.
  by destruct (String.eqb (previous_hash e) (content_hash p)).
Qed.

Lemma chain_errors_verified (prev : option string) (log : list EvidenceObject)
  (e : EvidenceObject) :
  chain_errors prev log = [] -> e ∈ log -> hash_content (content e) = content_hash e.
Proof.
  revert prev. induction log as [|x log IH]; intros prev Hclean He;
    [by apply elem_of_nil in He|].
  cbn [chain_errors] in Hclean.
  apply app_eq_nil in Hclean as [Hv Hclean]. apply app_eq_nil in Hclean as [_ Hrest].
  apply elem_of_cons in He as [->|He]; [|by apply (IH _ Hrest)].
  unfold verify in Hv. by destruct (String.eqb_spec (hash_content (content x)) (content_hash x)).
Qed.

Lemma chain_errors_same_text (k : nat) (c : json) (e : EvidenceObject)
  (log : list EvidenceObject) (prev : option string) :
  log !! k = Some e ->
  hash_content c = hash_content (content e) ->
  chain_errors prev (alter (with_content c) k log) = chain_errors prev log.
Proof.
  revert k prev. induction log as [|x log IH]; intros k prev Hk Hc; [done|].
  destruct k as [|k].
  - injection Hk as ->. cbn [alter list_alter chain_errors with_content content_hash
      previous_hash]. unfold verify. cbn [content content_hash with_content].
    by rewrite Hc.
  - cbn [alter list_alter chain_errors]. by rewrite (IH k _ Hk Hc).
Qed.

Lemma chain_errors_mismatch (prev : option string) (log : list EvidenceObject)
  (e : EvidenceObject) :
  e ∈ log -> hash_content (content e) <> content_hash e ->
  hash_mismatch e ∈ chain_errors prev log.
Proof.
  revert prev. induction log as [|x log IH]; intros prev He Hne;
    [by apply elem_of_nil in He|].
  cbn [chain_errors]. apply elem_of_cons in He as [->|He].
  - unfold verify. destruct (String.eqb_spec (hash_content (content x)) (content_hash x));
      [done|]. apply elem_of_app. left. apply list_elem_of_here.
  - apply elem_of_app. right. apply elem_of_app. right. by apply IH.
Qed.

Lemma chain_errors_broken (prev : option string) (log : list EvidenceObject)
  (i : nat) (a b : EvidenceObject) :
  log !! i = Some a -> log !! S i = Some b ->
  previous_hash b <> content_hash a ->
  chain_broken b ∈ chain_errors prev log.
Proof.
  revert prev i. induction log as [|x log IH]; intros prev i Ha Hb Hne; [done|].
  cbn [chain_errors]. apply elem_of_app. right. apply elem_of_app. right.
  destruct i as [|i].
  - injection Ha as ->. destruct log as [|y log]; [done|]. injection Hb as ->.
    cbn [chain_errors]. apply elem_of_app. right. apply elem_of_app. left.
    destruct (String.eqb_spec (previous_hash b) (content_hash a)); [done|].
    apply list_elem_of_here.
  - by apply (IH _ i).
Qed.

(** C2. Chain integrity.  On every ledger state that [seal] (alone or
    through the other operations) produced and nobody touched,
    [verify_chain] returns [(True, [])].  Once the content of one sealed
    record is overwritten by a content with another canonical JSON text,
    [verify_evidence] on that record returns [False] and [verify_chain]
    returns exactly that record's content-hash mismatch - unless SHA-256
    gives the two texts the same digest; a content with the same canonical
    text is not noticed.  On any log whatever, [verify_chain] goes through
    all of it: it reports every record whose content does not hash to the
    stored hash and every record whose previous hash is not the hash of
    the record before it, and its verdict is [True] exactly when it
    reports nothing. *)
Theorem chain_integrity (org key : string) (v : XVault) :
  reachable org key v ->
  verify_chain v = (true, [])
  /\ (forall (k : nat) (e : EvidenceObject) (c : json),
        evidence_chain v !! k = Some e ->
        dumps false c <> dumps false (content e) ->
        (sha256_hex (dumps false c) = sha256_hex (dumps false (content e)) ->
         dumps false c = dumps false (content e)) ->
        verify_evidence (mutate_content k c v) (with_content c e) = Ok false
        /\ verify_chain (mutate_content k c v)
           = (false, ["Evidence " +:+ evidence_id e +:+ ": content hash mismatch"]))
  /\ (forall (k : nat) (e : EvidenceObject) (c : json),
        evidence_chain v !! k = Some e ->
        dumps false c = dumps false (content e) ->
        verify_chain (mutate_content k c v) = (true, []))
  /\ (forall w : XVault,
        (fst (verify_chain w) = true <-> snd (verify_chain w) = [])
        /\ (forall e, e ∈ evidence_chain w ->
              sha256_hex (dumps false (content e)) <> content_hash e ->
              ("Evidence " +:+ evidence_id e +:+ ": content hash mismatch")
                ∈ snd (verify_chain w))
        /\ (forall i a b,
              evidence_chain w !! i = Some a -> evidence_chain w !! S i = Some b ->
              previous_hash b <> content_hash a ->
              ("Evidence " +:+ evidence_id b +:+ ": chain broken")
                ∈ snd (verify_chain w))).
Proof.
  intros Hreach. pose proof (reachable_inv _ _ _ Hreach) as [Hclean _ _ _ _].
  assert (verify_chain v = (true, [])) as Hok.
  { pose proof (verify_chain_errors v) as He. rewrite Hclean in He.
    pose proof (proj2 (verify_chain_flag v) He) as Hf.
    destruct (verify_chain v) as [b errs]. cbn [fst snd] in *. by subst. }
  split; [exact Hok|]. split; [|split].
  - intros k e c Hk Htext Hsha.
    assert (hash_content c <> content_hash e) as Hc.
    { rewrite <- (chain_errors_verified None _ e Hclean)
        by (by apply list_elem_of_lookup_2 in Hk).
      unfold hash_content. intros H. by apply Htext, Hsha. }
    split.
    + unfold verify_evidence, verify. cbn [with_content content content_hash].
      destruct (String.eqb_spec (hash_content c) (content_hash e)); done.
    + pose proof (verify_chain_errors (mutate_content k c v)) as He.
      cbn [mutate_content evidence_chain] in He.
      rewrite (chain_errors_mutated k c e _ Hk Hc Hclean) in He.
      unfold verify_chain in *. cbn [fst snd] in *. by rewrite He.
  - intros k e c Hk Htext.
    pose proof (verify_chain_errors (mutate_content k c v)) as He.
    cbn [mutate_content evidence_chain] in He.
    rewrite (chain_errors_same_text k c e _ None Hk) in He
      by (unfold hash_content; by rewrite Htext).
    rewrite Hclean in He.
    pose proof (proj2 (verify_chain_flag (mutate_content k c v)) He) as Hf.
    destruct (verify_chain (mutate_content k c v)) as [b errs]. cbn [fst snd] in *.
    by subst.
  - intros w. split; [apply verify_chain_flag|]. rewrite verify_chain_errors. split.
    + intros e He Hne. by apply (chain_errors_mismatch None).
    + intros i a b Ha Hb Hne. by apply (chain_errors_broken None _ i a b).
Qed.
(** *** What [verify_evidence] checks *)

Lemma next_level_hex (level : list string) :
  Forall colon_free (next_level level).
Proof.
  induction level as [level IH] using (induction_ltof1 _ (@length _)).
  unfold ltof in IH.
  destruct level as [|x [|y rest]]; simpl.
  - constructor.
  - constructor; [apply sha256_hex_colon_free|constructor].
  - constructor; [apply sha256_hex_colon_free|].
    apply IH. simpl. lia.
Qed.

Lemma build_levels_hex (fuel : nat) (level : list string) :
  Forall colon_free level ->
  Forall (Forall colon_free) (build_levels fuel level).
Proof.
  revert level. induction fuel as [|fuel IH]; intros level Hl; simpl.
  - by constructor.
  - destruct (1 <? length level)%nat; [|by constructor].
    constructor; [done|]. apply IH, next_level_hex.
Qed.

Lemma proof_walk_hex (levels : list (list string)) (index : nat) :
  Forall (Forall colon_free) levels ->
  Forall (fun hp => colon_free (fst hp) /\ colon_free (snd hp))
         (proof_walk levels index).
Proof.
  intros H. revert index.
  induction H as [|level levels Hl _ IH]; intros index; simpl; [constructor|].
  destruct (Nat.even index).
  - destruct (level !! (index + 1)%nat) as [sib|] eqn:E; [|apply IH].
    constructor; [|apply IH]. split; [|done].
    eapply Forall_lookup_1; eauto.
  - destruct (level !! (index - 1)%nat) as [sib|] eqn:E; [|apply IH].
    constructor; [|apply IH]. split; [|done].
    eapply Forall_lookup_1; eauto.
Qed.

Lemma Forall_removelast {A} (P : A -> Prop) (l : list A) :
  Forall P l -> Forall P (removelast l).
Proof.
  induction 1 as [|x l Hx Hl IH]; simpl; [constructor|].
  destruct l; [constructor|]. by constructor.
Qed.

Lemma get_proof_hex (t : MerkleTree) (i : nat) :
  Forall (Forall colon_free) (tree t) ->
  Forall (fun hp => colon_free (fst hp) /\ colon_free (snd hp)) (get_proof t i).
Proof.
  intros H. unfold get_proof.
  destruct (length (leaves t) <=? i)%nat; [constructor|].
  by apply proof_walk_hex, Forall_removelast.
Qed.

Lemma sealed_tree_hex (v : XVault) :
  sealed_inv v -> Forall (Forall colon_free) (tree (merkle_tree v)).
Proof.
  intros [_ _ _ Hhex Htree]. rewrite Htree.
  destruct (leaves (merkle_tree v)) eqn:E; [constructor|].
  rewrite <- E in *. by apply build_levels_hex.
Qed.

(** The path [seal] stores reads back as the proof it was written from. *)
Lemma sealed_path_parses now uuid ty c meta (v : XVault) :
  sealed_inv v ->
  let '(e, v1) := seal now uuid ty c meta v in
  parse_path (merkle_path e)
  = Some (get_proof (merkle_tree v1) (length (evidence_chain v))).
Proof.
  intros Hinv. pose proof (seal_inv now uuid ty c meta v Hinv) as Hinv1.
  simpl. rewrite leaves_add_leaf, length_app. simpl.
  replace (length (leaves (merkle_tree v)) + 1 - 1)%nat
    with (length (evidence_chain v)).
  2:{ destruct Hinv as [_ _ -> _ _]. rewrite length_map. lia. }
  apply parse_path_items, get_proof_hex.
  exact (sealed_tree_hex _ Hinv1).
Qed.

Lemma first_proof_empty (h : string) : get_proof (add_leaf empty_tree h) 0 = [].
Proof. reflexivity. Qed.

(** *** Merkle proofs *)

Example five_leaves_index_2 : proof_round_trip five_tree 2 = Some true.
Proof. vm_compute. reflexivity. Qed.

(** The same proof against a claimed leaf hash with one bit flipped. *)
Example five_leaves_index_2_flipped :
  (leaf ← five_leaves !! 2%nat;
   r ← root five_tree;
   match leaf with
   | String c rest =>
       Some (verify_proof (String (ascii_of_N (N.lxor (N_of_ascii c) 1)) rest)
                          (get_proof five_tree 2) r)
   | EmptyString => None
   end) = Some false.
Proof. vm_compute. reflexivity. Qed.

(** C3. The proof [get_proof] returns for the last of five leaves does not
    verify: where a level has odd length [_build_tree] hashes the last
    node with itself, and [get_proof] leaves that step out of the proof.
    The same holds for the last of three leaves, whatever they are, unless
    two different texts have the same SHA-256. *)
Theorem merkle_proof_of_last_leaf_rejected :
  proof_round_trip five_tree 4 = Some false
  /\ forall a b c : string,
       proof_round_trip (new_tree [a; b; c]) 2
       = Some (String.eqb (sha256_hex (_hash_pair a b +:+ c))
                          (sha256_hex (_hash_pair a b +:+ _hash_pair c c))).
Proof.
  split; [vm_compute; reflexivity|].
  intros a b c. reflexivity.
Qed.

Lemma chain_integrity_witness :
  let forged :=
    JDict [("query", JStr "What does the AI Act say?");
           ("response", JStr "According to article 14...");
           ("sources", JList [JStr "eu/ai_act/article_15"])] in
  verify_chain demo_vault = (true, [])
  /\ verify_evidence (mutate_content 0 forged demo_vault)
                     (with_content forged (fst demo_first)) = Ok false
  /\ verify_chain (mutate_content 0 forged demo_vault)
     = (false,
        ["Evidence 7d9f5a52-0000-4000-8000-000000000001: content hash mismatch"%string]).
Proof.
  intros forged.
  destruct (chain_integrity "org_acme" "default_key" demo_vault) as (H1 & H2 & _).
  { apply reach_seal, reach_seal, reach_new. }
  split; [exact H1|].
  refine (H2 0%nat (fst demo_first) forged _ _ _).
  - reflexivity.
  - intros H. vm_compute in H. discriminate H.
  - intros H. vm_compute in H. discriminate H.
Defined.

(** *** The Merkle tree, level by level *)

Lemma next_level_length (level : list string) :
  length (next_level level) = ((length level + 1) / 2)%nat.
Proof.
  induction level as [level IH] using (induction_ltof1 _ (@length string)).
  unfold ltof in IH. destruct level as [|x [|y rest]]; [done|done|].
  cbn [next_level length]. rewrite IH by (cbn [length]; lia).
  replace (S (S (length rest)) + 1)%nat with (length rest + 1 + 1 * 2)%nat by lia.
  rewrite Nat.div_add by done. lia.
Qed.

Lemma build_levels_nonempty (fuel : nat) (level : list string) :
  build_levels fuel level <> [].
Proof. destruct fuel; cbn [build_levels]; [done|]. by destruct (_ <? _)%nat. Qed.

Lemma build_levels_head (fuel : nat) (level : list string) :
  head (build_levels fuel level) = Some level.
Proof. destruct fuel; cbn [build_levels]; [done|]. by destruct (_ <? _)%nat. Qed.

Lemma last_cons_nonempty {A} (x : A) (l : list A) :
  l <> [] -> last (x :: l) = last l.
Proof. by destruct l. Qed.

Lemma build_levels_last (fuel : nat) (level : list string) :
  level <> [] -> (length level <= fuel)%nat ->
  exists top, last (build_levels fuel level) = Some [top].
Proof.
  revert level. induction fuel as [|fuel IH]; intros level Hne Hlen.
  - destruct level; [done|]. cbn [length] in Hlen. lia.
  - cbn [build_levels]. destruct (Nat.ltb_spec 1 (length level)) as [Hlt|Hle].
    + rewrite last_cons_nonempty by apply build_levels_nonempty.
      apply IH.
      * intros Hnil. apply (f_equal length) in Hnil.
        rewrite next_level_length in Hnil. cbn [length] in Hnil.
        assert (1 <= (length level + 1) / 2)%nat
          by (apply Nat.div_le_lower_bound; lia). lia.
      * rewrite next_level_length.
        assert ((length level + 1) / 2 < length level)%nat
          by (apply Nat.Div0.div_lt_upper_bound; lia). lia.
    + destruct level as [|x [|y rest]]; [done| |cbn [length] in Hle; lia].
      by exists x.
Qed.

Lemma build_levels_step (fuel : nat) (level : list string) (i : nat)
  (lower upper : list string) :
  build_levels fuel level !! i = Some lower ->
  build_levels fuel level !! S i = Some upper ->
  upper = next_level lower.
Proof.
  revert level i. induction fuel as [|fuel IH]; intros level i; [by destruct i|].
  cbn [build_levels]. destruct (_ <? _)%nat; [|by destruct i].
  destruct i as [|i].
  - intros [= <-] Hu.
    pose proof (build_levels_head fuel (next_level level)) as Hh.
    destruct (build_levels fuel (next_level level)); [done|].
    cbn in Hh, Hu. congruence.
  - apply IH.
Qed.

(** X1. Over leaves that are not empty the tree starts with the leaves, every
    level is the pairwise hash of the one below it, and the last level is
    one node: the root.  Without leaves there is no tree and no root. *)
Theorem tree_ends_in_its_root (ls : list string) :
  ls <> [] ->
  head (tree (new_tree ls)) = Some ls
  /\ (forall i lower upper,
        tree (new_tree ls) !! i = Some lower ->
        tree (new_tree ls) !! S i = Some upper ->
        upper = next_level lower
        /\ length upper = ((length lower + 1) / 2)%nat)
  /\ exists top, last (tree (new_tree ls)) = Some [top]
                 /\ root (new_tree ls) = Some top.
Proof.
  intros Hne. unfold new_tree, _build_tree, root. cbn [leaves tree].
  destruct ls as [|l ls]; [done|]. cbn [tree].
  split; [apply build_levels_head|]. split.
  - intros i lower upper Hl Hu.
    rewrite (build_levels_step _ _ _ _ _ Hl Hu). split; [done|].
    apply next_level_length.
  - destruct (build_levels_last (length (l :: ls)) (l :: ls)) as [top Ht]; [done|done|].
    exists top. by rewrite Ht.
Qed.

Lemma tree_ends_in_its_root_witness :
  exists top, root (new_tree ["a"; "b"; "c"]%string) = Some top.
Proof.
  destruct (tree_ends_in_its_root ["a"; "b"; "c"]%string) as (_ & _ & top & _ & H).
  - discriminate.
  - by exists top.
Defined.

Lemma next_level_lookup (level : list string) (j : nat) (a b : string) :
  level !! (2 * j)%nat = Some a -> level !! (2 * j + 1)%nat = Some b ->
  next_level level !! j = Some (_hash_pair a b).
Proof.
  revert level. induction j as [|j IH]; intros level.
  - destruct level as [|x [|y rest]]; try done.
    cbn. by intros [= ->] [= ->].
  - replace (2 * S j)%nat with (S (S (2 * j))) by lia.
    replace (S (S (2 * j)) + 1)%nat with (S (S (2 * j + 1))) by lia.
    destruct level as [|x [|y rest]]; try done.
    cbn [lookup list_lookup next_level]. apply IH.
Qed.

Lemma removelast_cons_nonempty {A} (x : A) (l : list A) :
  l <> [] -> removelast (x :: l) = x :: removelast l.
Proof. by destruct l. Qed.

Lemma full_tree_replay (k fuel : nat) (level : list string) (i : nat) (x : string) :
  length level = (2 ^ k)%nat -> (k <= fuel)%nat -> level !! i = Some x ->
  exists top,
    last (build_levels fuel level) = Some [top]
    /\ fold_left proof_step (proof_walk (removelast (build_levels fuel level)) i) x = top
    /\ length (proof_walk (removelast (build_levels fuel level)) i) = k.
Proof.
  revert fuel level i x. induction k as [|k IH]; intros fuel level i x Hlen Hfuel Hx.
  - destruct level as [|y [|z rest]]; [done| |done].
    destruct i; [|done]. injection Hx as ->.
    exists x. by destruct fuel.
  - destruct fuel as [|fuel]; [lia|].
    assert (0 < 2 ^ k)%nat as Hpos by (apply Nat.neq_0_lt_0, Nat.pow_nonzero; lia).
    rewrite Nat.pow_succ_r' in Hlen.
    cbn [build_levels]. destruct (Nat.ltb_spec 1 (length level)); [|lia].
    rewrite removelast_cons_nonempty by apply build_levels_nonempty.
    rewrite last_cons_nonempty by apply build_levels_nonempty.
    assert (length (next_level level) = (2 ^ k)%nat) as Hnext.
    { rewrite next_level_length, Hlen.
      replace (2 * 2 ^ k + 1)%nat with (1 + 2 ^ k * 2)%nat by lia.
      rewrite Nat.div_add by done. done. }
    pose proof (lookup_lt_Some _ _ _ Hx) as Hi.
    cbn [proof_walk].
    destruct (Nat.even i) eqn:Hev.
    + apply Nat.even_spec in Hev as [j ->].
      destruct (lookup_lt_is_Some_2 level (2 * j + 1)) as [b Hb]; [lia|].
      rewrite Hb. cbn [fold_left length].
      replace (2 * j / 2)%nat with j
        by (rewrite Nat.mul_comm, Nat.div_mul; done).
      destruct (IH fuel (next_level level) j (_hash_pair x b)) as (top & Hl & Hf & Hn);
        [done|lia|by apply next_level_lookup|].
      exists top. split; [done|]. split; [|by rewrite Hn].
      exact Hf.
    + assert (Nat.odd i = true) as Hodd by (by rewrite <- Nat.negb_even, Hev).
      apply Nat.odd_spec in Hodd as [j ->].
      replace (2 * j + 1 - 1)%nat with (2 * j)%nat by lia.
      destruct (lookup_lt_is_Some_2 level (2 * j)) as [a Ha]; [lia|].
      rewrite Ha. cbn [fold_left length].
      replace ((2 * j + 1) / 2)%nat with j.
      2:{ rewrite Nat.add_comm, Nat.mul_comm, Nat.div_add by done. done. }
      destruct (IH fuel (next_level level) j (_hash_pair a x)) as (top & Hl & Hf & Hn);
        [done|lia|by apply next_level_lookup|].
      exists top. split; [done|]. split; [|by rewrite Hn].
      exact Hf.
Qed.

(** X2. In a tree over [2 ^ k] leaves every leaf has a sibling at every level:
    the proof of each leaf has [k] items and replays to the root. *)
Theorem full_tree_proofs_verify (ls : list string) (k i : nat) :
  length ls = (2 ^ k)%nat -> (i < length ls)%nat ->
  proof_round_trip (new_tree ls) i = Some true
  /\ length (get_proof (new_tree ls) i) = k.
Proof.
  intros Hlen Hi.
  destruct (lookup_lt_is_Some_2 ls i Hi) as [x Hx].
  assert (k <= length ls)%nat as Hfuel.
  { rewrite Hlen. apply Nat.lt_le_incl, Nat.pow_gt_lin_r. lia. }
  destruct (full_tree_replay k (length ls) ls i x Hlen Hfuel Hx) as (top & Hl & Hf & Hn).
  unfold proof_round_trip, get_proof, root, new_tree, _build_tree.
  cbn [leaves tree]. destruct ls as [|l ls]; [done|]. cbn [leaves tree].
  rewrite Hx, Hl. cbn [mbind option_bind head].
  destruct (Nat.leb_spec (length (l :: ls)) i); [lia|].
  unfold verify_proof. rewrite Hf, Hn. by rewrite String.eqb_refl.
Qed.

Lemma full_tree_proofs_verify_witness :
  proof_round_trip (new_tree ["a"; "b"; "c"; "d"]%string) 3 = Some true.
Proof.
  apply (full_tree_proofs_verify ["a"; "b"; "c"; "d"]%string 2 3); [reflexivity|].
  cbn [length]. lia.
Defined.

(** *** What [verify_chain] sees of a log *)

Lemma verify_chain_of_errors (v : XVault) :
  verify_chain v
  = ((length (chain_errors None (evidence_chain v)) =? 0)%nat,
     chain_errors None (evidence_chain v)).
Proof.
  rewrite <- verify_chain_errors. reflexivity.
Qed.

Lemma chain_errors_without_prior (prev : option string) (log : list EvidenceObject) :
  chain_errors prev log = [] -> chain_errors None log = [].
Proof.
  destruct log as [|e rest]; [done|]. cbn [chain_errors].
  intros H. apply app_eq_nil in H as [-> H]. apply app_eq_nil in H as [_ ->]. done.
Qed.

Lemma chain_errors_segment (log : list EvidenceObject) (n m : nat) :
  chain_errors None log = [] -> chain_errors None (take m (drop n log)) = [].
Proof.
  intros H. rewrite <- (take_drop n log), chain_errors_app in H.
  apply app_eq_nil in H as [_ H]. apply chain_errors_without_prior in H.
  rewrite <- (take_drop m (drop n log)), chain_errors_app in H.
  by apply app_eq_nil in H as [H _].
Qed.

(** X5. [verify_chain] compares neighbours only: when records are removed
    from the front or from the end of the log of a ledger, it still
    reports a valid chain. *)
Theorem verify_chain_accepts_truncation (org key : string) (v : XVault) (n m : nat) :
  reachable org key v ->
  verify_chain (with_chain (take m (drop n (evidence_chain v))) v) = (true, []).
Proof.
  intros Hreach. pose proof (reachable_inv _ _ _ Hreach) as [Hclean _ _ _ _].
  rewrite verify_chain_of_errors. cbn [with_chain evidence_chain].
  by rewrite (chain_errors_segment _ n m Hclean).
Qed.

Lemma verify_chain_accepts_truncation_witness :
  verify_chain (with_chain (take 1 (drop 1 (evidence_chain demo_vault))) demo_vault)
  = (true, []).
Proof.
  apply (verify_chain_accepts_truncation "org_acme" "default_key" demo_vault 1 1).
  apply reach_seal, reach_seal, reach_new.
Defined.

(** X6. A record removed from inside the log is noticed at its successor,
    unless the removed record and the one before it have the same content
    hash (the same content sealed twice in a row). *)
Theorem verify_chain_on_removed_record (org key : string) (v : XVault)
  (pre post : list EvidenceObject) (a b c : EvidenceObject) :
  reachable org key v ->
  evidence_chain v = pre ++ a :: b :: c :: post ->
  verify_chain (with_chain (pre ++ a :: c :: post) v)
  = if String.eqb (content_hash b) (content_hash a) then (true, [])
    else (false, [chain_broken c]).
Proof.
  intros Hreach Hlog. pose proof (reachable_inv _ _ _ Hreach) as [Hclean _ _ _ _].
  rewrite verify_chain_of_errors. cbn [with_chain evidence_chain].
  rewrite Hlog in Hclean.
  replace (pre ++ a :: b :: c :: post) with ((pre ++ [a; b]) ++ c :: post) in Hclean
    by (by rewrite <- app_assoc).
  rewrite chain_errors_app, last_app in Hclean. cbn [last] in Hclean.
  apply app_eq_nil in Hclean as [Hpre Hc].
  rewrite chain_errors_app in Hpre. apply app_eq_nil in Hpre as [Hpre Hab].
  replace (pre ++ a :: c :: post) with ((pre ++ [a]) ++ c :: post)
    by (by rewrite <- app_assoc).
  rewrite (chain_errors_app _ (pre ++ [a])), last_app. cbn [last].
  rewrite (chain_errors_app _ pre [a]), Hpre.
  assert (chain_errors (match last pre with
                        | Some e => Some (content_hash e)
                        | None => None
                        end) [a] = []) as Ha.
  { cbn [chain_errors] in Hab |- *.
    apply app_eq_nil in Hab as [Hv Hab]. apply app_eq_nil in Hab as [Hp _].
    by rewrite Hv, Hp. }
  rewrite Ha. cbn [app].
  cbn [chain_errors] in Hc |- *.
  apply app_eq_nil in Hc as [Hv Hc]. apply app_eq_nil in Hc as [Hp Hpost].
  rewrite Hv, Hpost. cbn [app].
  destruct (String.eqb_spec (previous_hash c) (content_hash b)) as [->|]; [|done].
  by destruct (String.eqb (content_hash b) (content_hash a)).
Qed.

Lemma verify_chain_on_removed_record_witness :
  verify_chain (with_chain [fst demo_first; fst demo_third] (snd demo_third))
  = (false, [chain_broken (fst demo_third)]).
Proof.
  assert (String.eqb (content_hash (fst demo_second)) (content_hash (fst demo_first))
          = false) as Hdiff by (vm_compute; reflexivity).
  pose proof (verify_chain_on_removed_record "org_acme" "default_key" (snd demo_third)
                [] [] (fst demo_first) (fst demo_second) (fst demo_third)
                (reach_seal _ _ _ _ _ _ _ _
                   (reach_seal _ _ _ _ _ _ _ _
                      (reach_seal _ _ _ _ _ _ _ _ (reach_new _ _))))
                eq_refl) as H.
  rewrite Hdiff in H. exact H.
Defined.

Lemma chain_errors_same_fields (prev : option string) (log log' : list EvidenceObject) :
  Forall2 same_chain_fields log log' ->
  chain_errors prev log = chain_errors prev log'.
Proof.
  intros H. revert prev. induction H as [|e e' log log' (Hid & Hc & Hh & Hp) _ IH];
    intros prev; [done|].
  cbn [chain_errors]. unfold verify, hash_mismatch, chain_broken.
  by rewrite Hid, Hc, Hh, Hp, IH.
Qed.

(** X7. [verify_chain] reads the id, the content, the content hash and the
    previous hash of a record: a log whose records were rewritten in any
    other field - signature, time stamp, type, Merkle path, metadata - gets
    the same verdict. *)
Theorem verify_chain_ignores_signatures (v : XVault) (log' : list EvidenceObject) :
  Forall2 same_chain_fields (evidence_chain v) log' ->
  verify_chain (with_chain log' v) = verify_chain v.
Proof.
  intros H. rewrite !verify_chain_of_errors. cbn [with_chain evidence_chain].
  by rewrite (chain_errors_same_fields None _ _ H).
Qed.

Lemma verify_chain_ignores_signatures_witness :
  verify_chain (with_chain (map (with_signature "forged") (evidence_chain demo_vault))
                           demo_vault)
  = verify_chain demo_vault.
Proof.
  apply verify_chain_ignores_signatures.
  apply Forall2_fmap_r, Forall_Forall2_diag, Forall_forall.
  intros e _. by repeat split.
Defined.

(** *** What the ledger keeps of its records and snapshots *)

(** X8. In a ledger written by its own operations every record carries the
    hash of its content; the first one has ["genesis"] as previous hash
    and every later one the content hash of the record before it; and its
    stored Merkle path can be read back, so [verify_evidence] returns an
    answer for it. *)
Theorem sealed_records_are_linked (org key : string) (v : XVault) :
  reachable org key v ->
  forall i e, evidence_chain v !! i = Some e ->
    content_hash e = hash_content (content e)
    /\ previous_hash e
       = match i with
         | O => "genesis"%string
         | S j => default "genesis"%string (content_hash <$> evidence_chain v !! j)
         end
    /\ forall w, exists b, verify_evidence w e = Ok b.
Proof.
  intros Hreach.
  assert (forall now uuid ty c meta u,
             reachable org key u ->
             (forall i e, evidence_chain u !! i = Some e ->
                content_hash e = hash_content (content e)
                /\ previous_hash e
                   = match i with
                     | O => "genesis"%string
                     | S j => default "genesis"%string
                                (content_hash <$> evidence_chain u !! j)
                     end
                /\ forall w, exists b, verify_evidence w e = Ok b) ->
             forall i e, evidence_chain (snd (seal now uuid ty c meta u)) !! i = Some e ->
                content_hash e = hash_content (content e)
                /\ previous_hash e
                   = match i with
                     | O => "genesis"%string
                     | S j => default "genesis"%string
                                (content_hash <$> evidence_chain (snd (seal now uuid ty c meta u)) !! j)
                     end
                /\ forall w, exists b, verify_evidence w e = Ok b) as Hseal.
  { intros now uuid ty c meta u Hu IH i e.
    pose proof (reachable_inv _ _ _ Hu) as Hinv.
    pose proof (sealed_path_parses now uuid ty c meta u Hinv) as Hpath.
    pose proof (inv_last _ Hinv) as Hlast.
    destruct (seal now uuid ty c meta u) as [e' u'] eqn:Hs.
    unfold seal in Hs. injection Hs as <- <-. cbn [snd evidence_chain].
    intros Hi. apply lookup_app_Some in Hi as [Hi|[Hlen Hi]].
    - destruct (IH i e Hi) as (H1 & H2 & H3). split; [done|]. split; [|done].
      rewrite H2. destruct i as [|j]; [done|].
      rewrite lookup_app_l; [done|]. apply lookup_lt_Some in Hi. lia.
    - apply list_lookup_singleton_Some in Hi as [Hz <-].
      cbn [content_hash content previous_hash]. split; [done|]. split.
      + rewrite Hlast, last_lookup.
        assert (i = length (evidence_chain u)) as -> by lia.
        destruct (evidence_chain u) as [|x l] eqn:Hl; [done|].
        cbn [length pred]. rewrite lookup_app_l by (cbn [length]; lia).
        by destruct ((x :: l) !! length l).
      + intros w. unfold verify_evidence. cbn [merkle_path content_hash].
        destruct (negb _); [eauto|].
        cbn [merkle_path] in Hpath. rewrite Hpath.
        destruct (map path_item _); [eauto|].
        destruct (root (merkle_tree w)); [|eauto].
        destruct (PyStr.truthy _); eauto. }
  induction Hreach as [|v now uuid ty c meta Hv IH|v now uuid version Hv IH
                       |v now uuid seal_now seal_uuid start stop Hv IH].
  - intros i e Hi. by destruct i.
  - by apply Hseal.
  - exact IH.
  - unfold export_regulator_package. cbn [snd]. by apply Hseal.
Qed.

Lemma sealed_records_are_linked_witness :
  previous_hash (fst demo_third) = content_hash (fst demo_second).
Proof.
  destruct (sealed_records_are_linked "org_acme" "default_key" (snd demo_third)
              (reach_seal _ _ _ _ _ _ _ _
                 (reach_seal _ _ _ _ _ _ _ _
                    (reach_seal _ _ _ _ _ _ _ _ (reach_new _ _))))
              2%nat (fst demo_third) eq_refl) as (_ & H & _).
  exact H.
Defined.

(** X9. Snapshots form a chain of their own: each names the snapshot taken
    before it, counts the records sealed when it was taken - never more
    than the ledger holds, never fewer than an earlier snapshot - and
    lists one hash per record counted. *)
Theorem snapshots_are_linked (org key : string) (v : XVault) :
  reachable org key v ->
  forall i s, snapshots v !! i = Some s ->
    previous_snapshot s
    = match i with
      | O => None
      | S j => snapshot_id <$> snapshots v !! j
      end
    /\ (object_count s <= length (evidence_chain v))%nat
    /\ length (object_hashes s) = object_count s
    /\ forall j s', (i <= j)%nat -> snapshots v !! j = Some s' ->
                    (object_count s <= object_count s')%nat.
Proof.
  intros Hreach.
  induction Hreach as [|v now uuid ty c meta Hv IH|v now uuid version Hv IH
                       |v now uuid seal_now seal_uuid start stop Hv IH].
  - intros i s Hi. by destruct i.
  - intros i s Hi. cbn [seal snd snapshots evidence_chain] in *.
    destruct (IH i s Hi) as (H1 & H2 & H3 & H4). repeat split; try done.
    rewrite length_app. lia.
  - intros i s Hi. cbn [create_snapshot snd snapshots evidence_chain] in *.
    apply lookup_app_Some in Hi as [Hi|[Hlen Hi]].
    + destruct (IH i s Hi) as (H1 & H2 & H3 & H4). split; [|split; [done|split; [done|]]].
      * rewrite H1. destruct i as [|j]; [done|].
        rewrite lookup_app_l; [done|]. apply lookup_lt_Some in Hi. lia.
      * intros j s' Hij Hj. apply lookup_app_Some in Hj as [Hj|[_ Hj]].
        -- by apply (H4 j).
        -- apply list_lookup_singleton_Some in Hj as [_ <-]. done.
    + apply list_lookup_singleton_Some in Hi as [Hz <-].
      cbn [previous_snapshot object_count object_hashes].
      assert (i = length (snapshots v)) as -> by lia.
      split; [|split; [done|split; [by rewrite length_map|]]].
      * rewrite last_lookup. destruct (snapshots v) as [|x l]; [done|].
        cbn [length pred]. by rewrite lookup_app_l by (cbn [length]; lia).
      * intros j s' Hij Hj. apply lookup_app_Some in Hj as [Hj|[_ Hj]].
        -- apply lookup_lt_Some in Hj. lia.
        -- by apply list_lookup_singleton_Some in Hj as [_ <-].
  - intros i s Hi. unfold export_regulator_package in *.
    cbn [seal snd snapshots evidence_chain] in *.
    destruct (IH i s Hi) as (H1 & H2 & H3 & H4). repeat split; try done.
    rewrite length_app. lia.
Qed.

Lemma snapshots_are_linked_witness :
  let one := create_snapshot "2026-01-17T11:00:00+00:00" "snap-1" "v1.0" demo_vault in
  let two := create_snapshot "2026-01-17T12:00:00+00:00" "snap-2" "v1.1" (snd one) in
  previous_snapshot (fst two) = Some "snap-1"%string.
Proof.
  intros one two.
  destruct (snapshots_are_linked "org_acme" "default_key" (snd two)
              (reach_snapshot _ _ _ _ _ _
                 (reach_snapshot _ _ _ _ _ _
                    (reach_seal _ _ _ _ _ _ _ _
                       (reach_seal _ _ _ _ _ _ _ _ (reach_new _ _)))))
              1%nat (fst two) eq_refl) as (H & _).
  exact H.
Defined.

(** *** Sealing, then verifying *)

Lemma compress_length (h block : list Z) :
  length h = 8%nat -> length (SHA256.compress h block) = 8%nat.
Proof.
  intros Hh. unfold SHA256.compress. rewrite length_map, length_combine, Hh.
  reflexivity.
Qed.

Lemma digest_length (msg : list Z) : length (SHA256.digest msg) = 8%nat.
Proof.
  unfold SHA256.digest.
  generalize (SHA256.chunks (length (SHA256.pad msg)) 64 (SHA256.pad msg)).
  assert (length SHA256.H0 = 8%nat) as H by reflexivity.
  revert H. generalize SHA256.H0. intros h Hh blocks. revert h Hh.
  induction blocks as [|b blocks IH]; intros h Hh; [done|].
  cbn [fold_left]. apply IH. by apply compress_length.
Qed.

Lemma sha256_hex_truthy (s : string) : PyStr.truthy (sha256_hex s) = true.
Proof.
  unfold sha256_hex, SHA256.hexdigest.
  pose proof (digest_length (PyStr.encode s)) as H.
  destruct (SHA256.digest (PyStr.encode s)) as [|w ws]; [done|].
  cbn [flat_map]. unfold SHA256.hex_word at 1.
  change (SHA256.be_bytes 4 w)
    with (SHA256.be_bytes 3 (Z.shiftr w 8) ++ [Z.land w 255]).
  destruct (SHA256.be_bytes 3 (Z.shiftr w 8)) as [|b bs]; reflexivity.
Qed.

(** X3. After the [2 ^ k]-th record is sealed, that record passes
    [verify_evidence]: its stored path replays to the root of the tree,
    which is full. *)
Theorem record_verifies_in_full_tree (org key : string) (v : XVault)
  (now uuid : string) (ty : EvidenceType) (c : json) (meta : option json) (k : nat) :
  reachable org key v ->
  S (length (evidence_chain v)) = (2 ^ k)%nat ->
  verify_evidence (snd (seal now uuid ty c meta v)) (fst (seal now uuid ty c meta v))
  = Ok true.
Proof.
  intros Hreach Hk. pose proof (reachable_inv _ _ _ Hreach) as Hinv.
  pose proof (sealed_path_parses now uuid ty c meta v Hinv) as Hpath.
  pose proof (verify_sealed now uuid ty c meta v) as Hv.
  pose proof (seal_inv now uuid ty c meta v Hinv) as Hinv'.
  pose proof (inv_leaves _ Hinv') as Hleaves.
  pose proof (inv_tree _ Hinv') as Htree.
  assert (content_hash (fst (seal now uuid ty c meta v)) = hash_content c) as Hh by done.
  assert (evidence_chain (snd (seal now uuid ty c meta v))
          = evidence_chain v ++ [fst (seal now uuid ty c meta v)]) as Hchain by done.
  destruct (seal now uuid ty c meta v) as [e v'] eqn:Hs. cbn [fst snd] in *.
  unfold verify_evidence. rewrite Hv. cbn [negb].
  destruct (merkle_path e) as [|item path] eqn:Hp; [done|].
  destruct (root (merkle_tree v')) as [r|] eqn:Hr; [|done].
  destruct (PyStr.truthy r); [|done].
  rewrite Hpath.
  set (ls := leaves (merkle_tree v')) in *.
  assert (length ls = (2 ^ k)%nat) as Hlen.
  { rewrite Hleaves, length_map, Hchain, length_app. cbn [length]. lia. }
  assert (ls !! length (evidence_chain v) = Some (content_hash e)) as Hleaf.
  { rewrite Hleaves, Hchain, list_lookup_fmap, lookup_app_r by lia.
    by rewrite Nat.sub_diag. }
  assert (k <= length ls)%nat as Hfuel.
  { rewrite Hlen. apply Nat.lt_le_incl, Nat.pow_gt_lin_r. lia. }
  destruct (full_tree_replay k (length ls) ls _ _ Hlen Hfuel Hleaf) as (top & Hl & Hf & _).
  unfold get_proof. fold ls.
  destruct (Nat.leb_spec (length ls) (length (evidence_chain v))); [lia|].
  unfold root in Hr. rewrite Htree in Hr |- *. fold ls in Hr |- *.
  destruct ls as [|l0 ls0]; [done|].
  rewrite Hl in Hr. cbn [head] in Hr. injection Hr as <-.
  unfold verify_proof. rewrite Hf. by rewrite String.eqb_refl.
Qed.

Lemma record_verifies_in_full_tree_witness :
  verify_evidence demo_vault (fst demo_second) = Ok true.
Proof.
  apply (record_verifies_in_full_tree "org_acme" "default_key" (snd demo_first)
           "2026-01-17T10:00:01+00:00" "7d9f5a52-0000-4000-8000-000000000002"
           AUTHORIZATION_DECISION
           (JDict [("request_id", JStr "req_123"); ("decision", JStr "approved");
                   ("approver", JStr "user_456")])
           None 1).
  - apply reach_seal, reach_new.
  - reflexivity.
Defined.

(** X4. The third record of a ledger is the last leaf of a tree of three
    leaves: its proof leaves out the level at which it is hashed with
    itself, and the replay ends in a hash that is compared with the root
    built the other way.  In the example ledger the untouched third
    record does not pass [verify_evidence]. *)
Theorem third_record_fails_verification (org key : string) (v : XVault)
  (a b : EvidenceObject) (now uuid : string) (ty : EvidenceType) (c : json)
  (meta : option json) :
  reachable org key v ->
  evidence_chain v = [a; b] ->
  verify_evidence (snd (seal now uuid ty c meta v)) (fst (seal now uuid ty c meta v))
  = Ok (String.eqb
          (sha256_hex (_hash_pair (content_hash a) (content_hash b) +:+ hash_content c))
          (sha256_hex (_hash_pair (content_hash a) (content_hash b)
                       +:+ _hash_pair (hash_content c) (hash_content c)))).
Proof.
  intros Hreach Hab. pose proof (reachable_inv _ _ _ Hreach) as Hinv.
  pose proof (sealed_path_parses now uuid ty c meta v Hinv) as Hpath.
  pose proof (verify_sealed now uuid ty c meta v) as Hv.
  pose proof (seal_inv now uuid ty c meta v Hinv) as Hinv'.
  pose proof (inv_leaves _ Hinv') as Hleaves.
  pose proof (inv_tree _ Hinv') as Htree.
  assert (content_hash (fst (seal now uuid ty c meta v)) = hash_content c) as Hh by done.
  assert (evidence_chain (snd (seal now uuid ty c meta v))
          = evidence_chain v ++ [fst (seal now uuid ty c meta v)]) as Hchain by done.
  assert (merkle_path (fst (seal now uuid ty c meta v))
          = map path_item (get_proof (merkle_tree (snd (seal now uuid ty c meta v)))
                             (length (leaves (merkle_tree
                                (snd (seal now uuid ty c meta v)))) - 1))) as Hmp by done.
  destruct (seal now uuid ty c meta v) as [e v'] eqn:Hs. cbn [fst snd] in *.
  rewrite Hchain, Hab in Hleaves. cbn [app map] in Hleaves. rewrite Hh in Hleaves.
  rewrite Hleaves in Htree. cbn [length build_levels Nat.ltb Nat.leb next_level] in Htree.
  assert (get_proof (merkle_tree v') 2
          = [(_hash_pair (content_hash a) (content_hash b), "left"%string)]) as Hproof.
  { unfold get_proof. rewrite Hleaves, Htree. reflexivity. }
  unfold verify_evidence. rewrite Hv. cbn [negb].
  rewrite Hmp, Hleaves. cbn [length Nat.sub]. rewrite Hproof. cbn [map].
  unfold root. rewrite Htree. cbn [last head].
  change (_hash_pair (_hash_pair (content_hash a) (content_hash b))
                     (_hash_pair (hash_content c) (hash_content c)))
    with (sha256_hex (_hash_pair (content_hash a) (content_hash b)
                      +:+ _hash_pair (hash_content c) (hash_content c))).
  rewrite sha256_hex_truthy.
  rewrite Hmp, Hleaves in Hpath. cbn [length Nat.sub] in Hpath.
  rewrite Hproof in Hpath. cbn [map] in Hpath. rewrite Hab in Hpath.
  cbn [length] in Hpath. rewrite Hpath, Hproof.
  unfold verify_proof. cbn [fold_left proof_step]. rewrite Hh.
  reflexivity.
Qed.

Lemma third_record_fails_verification_witness :
  verify_evidence (snd demo_third) (fst demo_third) = Ok false.
Proof.
  etransitivity.
  - exact (third_record_fails_verification "org_acme" "default_key" demo_vault
             (fst demo_first) (fst demo_second)
             "2026-01-17T10:00:02+00:00" "7d9f5a52-0000-4000-8000-000000000003"
             SYSTEM_EVENT (JDict [("event", JStr "rotation")]) None
             (reach_seal _ _ _ _ _ _ _ _ (reach_seal _ _ _ _ _ _ _ _ (reach_new _ _)))
             eq_refl).
  - vm_compute. reflexivity.
Defined.

(** *** Exports *)

(** X24. A regulator package holds the records whose time stamp lies in
    the period, in the order of the log, and the Merkle root the ledger
    had before the export; the export itself is sealed behind them as one
    more record, of type EXPORT_EVENT, that counts the records of the
    package, so the ledger's log and root move on while the package stays
    as it was made. *)
Theorem export_is_logged (now uuid seal_now seal_uuid start stop : string) (v : XVault) :
  let package := fst (export_regulator_package now uuid seal_now seal_uuid start stop v) in
  let v' := snd (export_regulator_package now uuid seal_now seal_uuid start stop v) in
  (forall e, e ∈ evidence_objects package
             <-> e ∈ evidence_chain v
                 /\ String.leb start (timestamp e) = true
                 /\ String.leb (timestamp e) stop = true)
  /\ evidence_objects package `sublist_of` evidence_chain v
  /\ pkg_merkle_root package = root_or_empty (merkle_tree v)
  /\ snapshots v' = snapshots v
  /\ exists event,
       evidence_chain v' = evidence_chain v ++ [event]
       /\ evidence_type event = EXPORT_EVENT
       /\ content event
          = JDict [("package_id", JStr uuid); ("period_start", JStr start);
                   ("period_end", JStr stop);
                   ("evidence_count",
                    JInt (Z.of_nat (length (evidence_objects package))))]
       /\ previous_hash event = last_hash v
       /\ verify event = true
       /\ last_hash v' = content_hash event.
Proof.
  intros package v'. subst package v'. unfold export_regulator_package.
  cbn [fst snd evidence_objects pkg_merkle_root].
  split; [|split; [apply sublist_filter|split; [done|split; [done|]]]].
  - intros e. rewrite list_elem_of_filter. unfold in_period.
    rewrite andb_true_iff. tauto.
  - eexists. split; [reflexivity|]. cbn [evidence_type content previous_hash].
    repeat split. apply (verify_sealed seal_now seal_uuid EXPORT_EVENT _ None v).
Qed.

Lemma split_on_nonempty (sep : ascii) (s : string) : PyStr.split_on sep s <> [].
Proof.
  induction s as [|c r IH]; [done|]. cbn [PyStr.split_on].
  destruct (Ascii.eqb c sep); [done|]. by destruct (PyStr.split_on sep r).
Qed.

Lemma split_on_one (sep : ascii) (s p : string) :
  PyStr.split_on sep s = [p] -> s = p /\ PyStr.contains sep p = false.
Proof.
  revert p. induction s as [|c r IH]; intros p.
  - by intros [= <-].
  - cbn [PyStr.split_on]. destruct (Ascii.eqb c sep) eqn:E.
    + intros [= _ H]. by apply split_on_nonempty in H.
    + destruct (PyStr.split_on sep r) as [|w ws] eqn:Hr;
        [by apply split_on_nonempty in Hr|].
      intros [= <- ->]. destruct (IH w eq_refl) as [-> Hw].
      split; [done|]. cbn [PyStr.contains]. by rewrite E, Hw.
Qed.

Lemma split_on_two (sep : ascii) (s h p : string) :
  PyStr.split_on sep s = [h; p] ->
  s = h +:+ String sep p
  /\ PyStr.contains sep h = false /\ PyStr.contains sep p = false.
Proof.
  revert h. induction s as [|c r IH]; intros h; [done|].
  cbn [PyStr.split_on]. destruct (Ascii.eqb_spec c sep) as [->|Hne].
  - intros [= <- H]. apply split_on_one in H as [-> Hp]. done.
  - destruct (PyStr.split_on sep r) as [|w ws] eqn:Hr;
      [by apply split_on_nonempty in Hr|].
    intros [= <- ->]. destruct (IH w eq_refl) as (-> & Hw & Hp).
    split; [done|]. split; [|done]. cbn [PyStr.contains].
    rewrite Hw. by destruct (Ascii.eqb_spec c sep).
Qed.

(** The stored path reads back as [proof] exactly when its items are the
    pairs of [proof] written with a colon between two texts without
    colon. *)
Lemma parse_path_spec (path : list string) (proof : list (string * string)) :
  parse_path path = Some proof
  <-> path = map (fun hp => fst hp +:+ ":" +:+ snd hp) proof
      /\ Forall (fun hp => colon_free (fst hp) /\ colon_free (snd hp)) proof.
Proof.
  split.
  - revert proof. induction path as [|item path IH]; intros proof.
    + by intros [= <-].
    + cbn [parse_path].
      destruct (PyStr.split_on ":" item) as [|h [|p [|? ?]]] eqn:Hs; try done.
      destruct (parse_path path) as [rest|]; [|done].
      intros [= <-]. destruct (IH rest eq_refl) as [-> Hrest].
      apply split_on_two in Hs as (-> & Hh & Hp).
      split; [done|]. by constructor.
  - intros [-> H]. by apply parse_path_items.
Qed.

Lemma fold_left_same {A B} (f g : A -> B -> A) (l : list B) (a : A) :
  (forall x y, f x y = g x y) -> fold_left f l a = fold_left g l a.
Proof.
  intros H. revert a. induction l as [|y l IH]; intros a; [done|].
  cbn [fold_left]. by rewrite H, IH.
Qed.

Lemma truthy_nonempty (s : string) : PyStr.truthy s = true <-> s <> EmptyString.
Proof. by destruct s. Qed.

(** The ledger after a second record was sealed behind [a]. *)
Lemma second_seal (org key : string) (v : XVault) (a : EvidenceObject)
  (now uuid : string) (ty : EvidenceType) (c : json) (meta : option json) :
  reachable org key v -> evidence_chain v = [a] ->
  leaves (merkle_tree (snd (seal now uuid ty c meta v)))
  = [content_hash a; hash_content c]
  /\ tree (merkle_tree (snd (seal now uuid ty c meta v)))
     = [[content_hash a; hash_content c];
        [sha256_hex (content_hash a +:+ hash_content c)]]
  /\ merkle_path (fst (seal now uuid ty c meta v))
     = [content_hash a +:+ ":left"].
Proof.
  intros Hreach Ha. pose proof (reachable_inv _ _ _ Hreach) as Hinv.
  pose proof (seal_inv now uuid ty c meta v Hinv) as Hinv'.
  pose proof (inv_leaves _ Hinv') as Hleaves.
  pose proof (inv_tree _ Hinv') as Htree.
  assert (evidence_chain (snd (seal now uuid ty c meta v))
          = evidence_chain v ++ [fst (seal now uuid ty c meta v)]) as Hchain by done.
  assert (content_hash (fst (seal now uuid ty c meta v)) = hash_content c) as Hh by done.
  assert (merkle_path (fst (seal now uuid ty c meta v))
          = map path_item (get_proof (merkle_tree (snd (seal now uuid ty c meta v)))
                             (length (leaves (merkle_tree
                                (snd (seal now uuid ty c meta v)))) - 1))) as Hmp by done.
  destruct (seal now uuid ty c meta v) as [e v'] eqn:Hs. cbn [fst snd] in *.
  rewrite Hchain, Ha in Hleaves. cbn [app map] in Hleaves. rewrite Hh in Hleaves.
  rewrite Hleaves in Htree. cbn [length build_levels Nat.ltb Nat.leb next_level] in Htree.
  split; [done|]. split; [done|].
  rewrite Hmp. unfold get_proof. rewrite Hleaves, Htree. reflexivity.
Qed.

(** C10. [verify_evidence] returns [True] exactly when the canonical JSON
    text of the record's content has the stored [content_hash] as its
    SHA-256 and, if the stored [merkle_path] is not empty and the tree of
    the ledger has a non-empty root, the items of the path are pairs
    [hash:position] that, hashed one after the other onto the stored hash
    (the sibling on the right when the position is ["right"], on the left
    otherwise), end in that root: the root of the moment of the call.
    The path a record carries is the proof of the moment it was sealed.
    The first record sealed into an empty ledger carries an empty path, so
    that every ledger accepts it on the content hash alone; the second
    carries the hash of the first, on the left, and is accepted by the
    ledger of that moment; once a third record is sealed the root has
    moved and the second record's path is compared with the new root. *)
Theorem verify_evidence_checks :
  (forall (v : XVault) (e : EvidenceObject),
      verify_evidence v e = Ok true
      <-> sha256_hex (dumps false (content e)) = content_hash e
          /\ (merkle_path e <> [] ->
              forall r, root (merkle_tree v) = Some r -> r <> EmptyString ->
                exists proof,
                  merkle_path e = map (fun hp => fst hp +:+ ":" +:+ snd hp) proof
                  /\ Forall (fun hp => PyStr.contains ":" (fst hp) = false
                                       /\ PyStr.contains ":" (snd hp) = false) proof
                  /\ fold_left
                       (fun current hp =>
                          if String.eqb (snd hp) "right"
                          then sha256_hex (current +:+ fst hp)
                          else sha256_hex (fst hp +:+ current))
                       proof (content_hash e) = r))
  /\ (forall org key (v : XVault) now uuid ty c meta,
        reachable org key v ->
        parse_path (merkle_path (fst (seal now uuid ty c meta v)))
        = Some (get_proof (merkle_tree (snd (seal now uuid ty c meta v)))
                          (length (evidence_chain v))))
  /\ (forall org key now uuid ty c meta,
        merkle_path (fst (seal now uuid ty c meta (new_vault org key))) = []
        /\ forall w : XVault,
             verify_evidence w (fst (seal now uuid ty c meta (new_vault org key)))
             = Ok true)
  /\ (forall org key (v : XVault) a now uuid ty c meta,
        reachable org key v -> evidence_chain v = [a] ->
        let e := fst (seal now uuid ty c meta v) in
        let v' := snd (seal now uuid ty c meta v) in
        merkle_path e = [content_hash a +:+ ":left"]
        /\ root (merkle_tree v')
           = Some (sha256_hex (content_hash a +:+ sha256_hex (dumps false c)))
        /\ verify_evidence v' e = Ok true
        /\ forall now3 uuid3 ty3 c3 meta3,
             verify_evidence (snd (seal now3 uuid3 ty3 c3 meta3 v')) e
             = Ok (String.eqb
                     (sha256_hex (content_hash a +:+ sha256_hex (dumps false c)))
                     (sha256_hex
                        (sha256_hex (content_hash a +:+ sha256_hex (dumps false c))
                         +:+ sha256_hex (sha256_hex (dumps false c3)
                                         +:+ sha256_hex (dumps false c3)))))).
Proof.
  split; [|split; [|split]].
  - intros v e. unfold verify_evidence, verify, hash_content.
    destruct (String.eqb_spec (sha256_hex (dumps false (content e))) (content_hash e))
      as [Hh|Hh]; cbn [negb]; [|by split; [|intros []]].
    destruct (merkle_path e) as [|item path] eqn:Hp.
    { split; [|done]. intros _. split; [done|]. by intros []. }
    destruct (root (merkle_tree v)) as [r|] eqn:Hr.
    2:{ split; [|done]. intros _. split; [done|]. by intros _ r' [=]. }
    destruct (PyStr.truthy r) eqn:Ht.
    2:{ split; [|done]. intros _. split; [done|].
        intros _ r' [= <-] Ht'. apply truthy_nonempty in Ht'. congruence. }
    apply truthy_nonempty in Ht.
    destruct (parse_path (item :: path)) as [proof|] eqn:Hparse.
    + apply parse_path_spec in Hparse as [Hitems Hfree]. split.
      * intros [= Hv]. split; [done|]. intros _ r' [= <-] _.
        exists proof. split; [done|]. split; [done|].
        unfold verify_proof in Hv. apply String.eqb_eq in Hv. rewrite <- Hv.
        apply fold_left_same. by intros current [h p].
      * intros [_ H]. destruct (H ltac:(done) r eq_refl Ht) as (proof' & Hi & Hf & Hrep).
        rewrite Hitems in Hi.
        assert (parse_path (map (fun hp => fst hp +:+ ":" +:+ snd hp) proof) = Some proof)
          as H1 by (by apply parse_path_spec).
        assert (parse_path (map (fun hp => fst hp +:+ ":" +:+ snd hp) proof) = Some proof')
          as H2 by (rewrite Hi; by apply parse_path_spec).
        rewrite H1 in H2. injection H2 as <-.
        f_equal. unfold verify_proof. apply String.eqb_eq. rewrite <- Hrep.
        apply fold_left_same. by intros current [h p].
    + split; [done|]. intros [_ H].
      destruct (H ltac:(done) r eq_refl Ht) as (proof' & Hi & Hf & _).
      assert (parse_path (item :: path) = Some proof') as H2
        by (rewrite Hi; by apply parse_path_spec).
      congruence.
  - intros org key v now uuid ty c meta Hreach.
    pose proof (sealed_path_parses now uuid ty c meta v (reachable_inv _ _ _ Hreach)) as H.
    by destruct (seal now uuid ty c meta v).
  - intros org key now uuid ty c meta. split; [reflexivity|].
    intros w. unfold verify_evidence.
    rewrite verify_sealed. reflexivity.
  - intros org key v a now uuid ty c meta Hreach Ha e v'.
    destruct (second_seal org key v a now uuid ty c meta Hreach Ha) as (Hl & Ht & Hp).
    fold e in Hp. fold v' in Hl, Ht.
    pose proof (reachable_inv _ _ _ Hreach) as Hinv.
    assert (colon_free (content_hash a)) as Hfree.
    { pose proof (inv_hex _ Hinv) as Hhex. rewrite (inv_leaves _ Hinv), Ha in Hhex.
      by inversion Hhex. }
    assert (parse_path (merkle_path e) = Some [(content_hash a, "left"%string)]) as Hparse.
    { rewrite Hp. apply (parse_path_items [(content_hash a, "left"%string)]).
      constructor; [|done]. split; [done|reflexivity]. }
    assert (verify e = true) as Hv by apply verify_sealed.
    assert (content_hash e = hash_content c) as Hh by done.
    split; [done|]. split; [by unfold root; rewrite Ht|]. split.
    + unfold verify_evidence. rewrite Hv. cbn [negb]. rewrite Hp at 1.
      unfold root. rewrite Ht. cbn [last head]. rewrite sha256_hex_truthy, Hparse.
      unfold verify_proof. cbn [fold_left proof_step]. rewrite Hh.
      change (String.eqb "left" "right") with false. cbn iota.
      by rewrite String.eqb_refl.
    + intros now3 uuid3 ty3 c3 meta3.
      assert (reachable org key v') as Hreach' by (by apply reach_seal).
      pose proof (reachable_inv _ _ _ Hreach') as Hinv'.
      pose proof (seal_inv now3 uuid3 ty3 c3 meta3 v' Hinv') as Hinv3.
      pose proof (inv_leaves _ Hinv3) as Hleaves3.
      pose proof (inv_tree _ Hinv3) as Htree3.
      assert (leaves (merkle_tree (snd (seal now3 uuid3 ty3 c3 meta3 v')))
              = leaves (merkle_tree v') ++ [hash_content c3]) as Hl3
        by apply leaves_add_leaf.
      rewrite Hl in Hl3. cbn [app] in Hl3. rewrite Hl3 in Htree3.
      cbn [length build_levels Nat.ltb Nat.leb next_level] in Htree3.
      unfold verify_evidence. rewrite Hv. cbn [negb]. rewrite Hp at 1.
      unfold root. rewrite Htree3. cbn [last head].
      unfold _hash_pair at 1. rewrite sha256_hex_truthy, Hparse.
      unfold verify_proof. cbn [fold_left proof_step]. rewrite Hh.
      change (String.eqb "left" "right") with false. cbn iota.
      reflexivity.
Qed.

Lemma verify_evidence_checks_witness :
  verify_evidence demo_vault (fst demo_second) = Ok true
  /\ verify_evidence (snd demo_third) (fst demo_second) = Ok false.
Proof.
  destruct verify_evidence_checks as (_ & _ & _ & H).
  destruct (H "org_acme" "default_key" (snd demo_first) (fst demo_first)
              "2026-01-17T10:00:01+00:00" "7d9f5a52-0000-4000-8000-000000000002"
              AUTHORIZATION_DECISION
              (JDict [("request_id", JStr "req_123"); ("decision", JStr "approved");
                      ("approver", JStr "user_456")])
              None (reach_seal _ _ _ _ _ _ _ _ (reach_new _ _)) eq_refl)
    as (_ & _ & Hok & Hstale).
  split; [exact Hok|].
  etransitivity.
  - exact (Hstale "2026-01-17T10:00:02+00:00" "7d9f5a52-0000-4000-8000-000000000003"
                  SYSTEM_EVENT (JDict [("event", JStr "rotation")]) None).
  - vm_compute. reflexivity.
Defined.

End VaultProps.

Module JsonProps.
Import Trinity.

(** ** JSON string literals *)

Lemma append_assoc_str (a b c : string) : (a +:+ b) +:+ c = a +:+ (b +:+ c).
Proof.
  induction a as [|x a IH]; [done|].
  change (String x ((a +:+ b) +:+ c) = String x (a +:+ (b +:+ c))). by rewrite IH.
Qed.

Lemma append_inv_head (a x y : string) : a +:+ x = a +:+ y -> x = y.
Proof.
  induction a as [|c a IH]; [done|].
  change (String c (a +:+ x) = String c (a +:+ y) -> x = y). intros [= H]. auto.
Qed.

Lemma unescape_escape_char (ensure_ascii : bool) (c : ascii) (r : string) :
  unescape_char (escape_char ensure_ascii c +:+ r) = Some (c, r).
Proof.
  destruct c as [[] [] [] [] [] [] [] []], ensure_ascii; reflexivity.
Qed.

(** A string literal determines the text it quotes, up to its closing
    quote. *)
Lemma escape_terminated_inj (ensure_ascii : bool) (a b x y : string) :
  escape ensure_ascii a +:+ String dq x = escape ensure_ascii b +:+ String dq y ->
  a = b /\ x = y.
Proof.
  revert b. induction a as [|c a IH]; intros [|d b]; cbn [escape].
  - by intros [= ->].
  - rewrite append_assoc_str. intros H. apply (f_equal unescape_char) in H.
    by rewrite unescape_escape_char in H.
  - rewrite append_assoc_str. intros H. apply (f_equal unescape_char) in H.
    by rewrite unescape_escape_char in H.
  - rewrite !append_assoc_str. intros H.
    pose proof (f_equal unescape_char H) as Hu.
    rewrite !unescape_escape_char in Hu. injection Hu as -> Hr.
    by destruct (IH _ Hr) as [-> ->].
Qed.

Lemma quote_inj (ensure_ascii : bool) (a b : string) :
  quote ensure_ascii a = quote ensure_ascii b -> a = b.
Proof.
  unfold quote. intros [= H]. by apply escape_terminated_inj in H as [-> _].
Qed.
End JsonProps.

(** ** The decision engine *)

Module TrinityProps.
Import Trinity JsonProps.

(** *** Project id normalization *)

Lemma alnum_is_id_char c : is_lower_alnum c = true -> is_id_char c = true.
Proof. unfold is_id_char. by intros ->. Qed.

Lemma at_dollar_chars (r : string) :
  at_dollar r = true <-> PyStr.chars r = [] \/ PyStr.chars r = ["010"%char].
Proof.
  destruct r as [|c [|d r]]; simpl.
  - split; [by left|done].
  - split.
    + intros ->%Ascii.eqb_eq. by right.
    + intros [[=]|[= ->]]. done.
  - split; [done|]. by intros [[=]|[=]].
Qed.

Lemma match_id_tail_chars (n : nat) (s : string) :
  match_id_tail n s = true
  <-> exists mid c,
        (PyStr.chars s = mid ++ [c] \/ PyStr.chars s = mid ++ [c; "010"%char])
        /\ (length mid <= n)%nat
        /\ forallb is_id_char mid = true
        /\ is_lower_alnum c = true.
Proof.
  revert n. induction s as [|c r IH]; intros n.
  - simpl. split; [done|].
    intros (mid & c & [H|H] & _); by destruct mid.
  - simpl. rewrite orb_true_iff, andb_true_iff, at_dollar_chars. split.
    + intros [[Hc Hr]|H].
      * exists [], c. simpl. split; [|split; [lia|done]].
        destruct Hr as [->| ->]; [by left|by right].
      * destruct n as [|k]; [done|].
        apply andb_true_iff in H as [Hc (mid & c' & Hs & Hlen & Hmid & Hc')%IH].
        exists (c :: mid), c'. simpl. rewrite Hc, Hmid.
        split; [|split; [lia|done]].
        destruct Hs as [->| ->]; [by left|by right].
    + intros (mid & c' & Hs & Hlen & Hmid & Hc').
      destruct mid as [|m mid].
      * left. simpl in Hs.
        destruct Hs as [[= -> Hr]|[= -> Hr]]; rewrite Hr; split; auto.
      * right. simpl in Hlen, Hmid, Hs.
        apply andb_true_iff in Hmid as [Hm Hmid].
        destruct n as [|k]; [lia|].
        assert (c = m) as -> by (by destruct Hs as [[= -> _]|[= -> _]]).
        rewrite Hm. simpl. apply IH. exists mid, c'.
        split; [|split; [lia|done]].
        destruct Hs as [[= H]|[= H]]; [by left|by right].
Qed.

Lemma chars_app (a b : string) : PyStr.chars (a +:+ b) = PyStr.chars a ++ PyStr.chars b.
Proof. induction a as [|c a IH]; simpl; [done|]. by rewrite <- IH. Qed.

Lemma chars_inj (a b : string) : PyStr.chars a = PyStr.chars b -> a = b.
Proof.
  intros H. rewrite <- (string_of_list_ascii_of_string a),
              <- (string_of_list_ascii_of_string b).
  unfold PyStr.chars in H. by rewrite H.
Qed.

Lemma spec_partition_id_chars (s : string) :
  spec_partition_id s = true
  <-> exists c mid c',
        PyStr.chars s = c :: mid ++ [c']
        /\ (length mid <= 62)%nat
        /\ forallb is_id_char mid = true
        /\ is_lower_alnum c = true /\ is_lower_alnum c' = true.
Proof.
  unfold spec_partition_id. rewrite !andb_true_iff, !Nat.leb_le. split.
  - intros ((((Hlo & Hhi) & Hall) & Hhead) & Hlast).
    destruct (PyStr.chars s) as [|c rest]; [done|].
    destruct rest as [|x rest'] using rev_ind; [simpl in Hlo; lia|]. clear IHrest'.
    exists c, rest', x. rewrite last_cons, last_snoc in Hlast.
    simpl in *. rewrite length_app in Hhi. simpl in Hhi.
    apply andb_true_iff in Hall as [_ Hall].
    rewrite forallb_app in Hall. apply andb_true_iff in Hall as [Hall _].
    repeat split; try done. lia.
  - intros (c & mid & c' & -> & Hlen & Hall & Hc & Hc').
    rewrite last_cons, last_snoc. simpl. rewrite length_app. simpl.
    rewrite forallb_app. simpl.
    rewrite Hall, (alnum_is_id_char _ Hc), (alnum_is_id_char _ Hc'), Hc, Hc'.
    repeat split; try done; lia.
Qed.

(** The pattern accepts the grammar, and a text of the grammar followed by
    one newline. *)
Lemma PROJECT_ID_REGEX_match_spec (s : string) :
  PROJECT_ID_REGEX_match s = true
  <-> spec_partition_id s = true
      \/ exists t, s = t +:+ newline /\ spec_partition_id t = true.
Proof.
  split.
  - destruct s as [|c r]; [done|]. simpl.
    intros [Hc (mid & c' & Hs & Hlen & Hmid & Hc')%match_id_tail_chars]%andb_true_iff.
    destruct Hs as [Hs|Hs].
    + left. apply spec_partition_id_chars. exists c, mid, c'. simpl. by rewrite Hs.
    + right. exists (PyStr.of_chars (c :: mid ++ [c'])). split.
      * apply chars_inj. rewrite chars_app. unfold PyStr.chars at 2, PyStr.of_chars.
        rewrite list_ascii_of_string_of_list_ascii. simpl. rewrite Hs.
        by rewrite <- app_assoc.
      * apply spec_partition_id_chars. exists c, mid, c'.
        unfold PyStr.chars, PyStr.of_chars.
        by rewrite list_ascii_of_string_of_list_ascii.
  - intros [H|(t & -> & H)];
      apply spec_partition_id_chars in H as (c & mid & c' & Hs & Hlen & Hmid & Hc & Hc').
    + destruct s as [|c0 r]; [done|]. simpl in Hs. injection Hs as -> Hr.
      simpl. rewrite Hc. apply match_id_tail_chars. exists mid, c'. auto.
    + destruct t as [|c0 r]; [done|]. simpl in Hs. injection Hs as -> Hr.
      simpl. rewrite Hc. apply match_id_tail_chars. exists mid, c'.
      split; [right|auto]. rewrite chars_app, Hr. simpl. by rewrite <- app_assoc.
Qed.

Lemma spec_rejects_trailing_newline (t : string) :
  spec_partition_id (t +:+ newline) = false.
Proof.
  apply not_true_is_false. intros (c & mid & c' & Hs & _ & _ & _ & Hc')%spec_partition_id_chars.
  rewrite chars_app in Hs. simpl in Hs.
  destruct (PyStr.chars t) as [|c0 r]; [by destruct mid|].
  simpl in Hs. injection Hs as _ Hs.
  apply app_inj_tail in Hs as [_ <-]. done.
Qed.

(** C6. Scope normalization.  An absent or empty partition id gives the
    fallback partition ["legacy"] with the legacy scheme ["v1"]; a text of
    the grammar, ["legacy"] itself included, is returned as it is with the
    current scheme ["v2"]; any other non-empty text raises [ValueError],
    except a text of the grammar followed by one newline, which the
    pattern's [$] lets through: [normalize_project_id("ab\n")] returns that
    text, also when it is 65 characters long. *)
Theorem normalize_project_id_cases :
  normalize_project_id None = Ok ("legacy", "v1")%string
  /\ normalize_project_id (Some EmptyString) = Ok ("legacy", "v1")%string
  /\ normalize_project_id (Some "legacy"%string) = Ok ("legacy", "v2")%string
  /\ (forall s, spec_partition_id s = true ->
                normalize_project_id (Some s) = Ok (s, "v2"%string))
  /\ (forall s, s <> EmptyString -> spec_partition_id s = false ->
                (forall t, spec_partition_id t = true -> s <> t +:+ newline) ->
                normalize_project_id (Some s) = Raise ValueError)
  /\ (forall t, spec_partition_id t = true ->
                spec_partition_id (t +:+ newline) = false
                /\ normalize_project_id (Some (t +:+ newline))
                   = Ok (t +:+ newline, "v2"%string))
  /\ normalize_project_id (Some ("ab" +:+ newline)) = Ok ("ab" +:+ newline, "v2"%string)
  /\ String.length (PyStr.zeros 64 +:+ newline) = 65%nat
  /\ normalize_project_id (Some (PyStr.zeros 64 +:+ newline))
     = Ok (PyStr.zeros 64 +:+ newline, "v2"%string).
Proof.
  assert (forall s, PROJECT_ID_REGEX_match s = true ->
                    normalize_project_id (Some s) = Ok (s, "v2"%string)) as Hok.
  { intros s H. unfold normalize_project_id. rewrite H.
    destruct s; [done|reflexivity]. }
  repeat split; try reflexivity.
  - intros s H. apply Hok, PROJECT_ID_REGEX_match_spec. by left.
  - intros s Hne Hspec Hnl. unfold normalize_project_id.
    destruct s as [|c r]; [done|]. simpl PyStr.truthy. cbn [negb].
    destruct (PROJECT_ID_REGEX_match (String c r)) eqn:E; [|done].
    apply PROJECT_ID_REGEX_match_spec in E as [E|(t & E & Ht)]; [congruence|].
    by destruct (Hnl t Ht).
  - apply spec_rejects_trailing_newline.
  - intros. apply Hok, PROJECT_ID_REGEX_match_spec. right. eauto.
Qed.
(** *** Decision identifiers *)

Lemma uint_string_dash_free (d : Decimal.uint) :
  PyStr.contains "-" (NilEmpty.string_of_uint d) = false.
Proof. induction d; simpl; auto. Qed.

Lemma year_key_dash_free (y : N) : PyStr.contains "-" (year_key y) = false.
Proof.
  unfold year_key, PyStr.str. destruct y as [|p]; [reflexivity|].
  simpl. apply uint_string_dash_free.
Qed.

Lemma sep_split_inj (sep : ascii) (a b x y : string) :
  PyStr.contains sep a = false -> PyStr.contains sep b = false ->
  a +:+ String sep x = b +:+ String sep y -> a = b /\ x = y.
Proof.
  revert b. induction a as [|c a IH]; intros [|d b]; simpl.
  - by intros _ _ [= ->].
  - intros _ [Hd _]%orb_false_elim [= <- _]. by rewrite Ascii.eqb_refl in Hd.
  - intros [Hc _]%orb_false_elim _ [= -> _]. by rewrite Ascii.eqb_refl in Hc.
  - intros [_ Ha]%orb_false_elim [_ Hb]%orb_false_elim [= -> H].
    destruct (IH b Ha Hb H) as [-> ->]. done.
Qed.

Lemma year_key_inj (y y' : N) : year_key y = year_key y' -> y = y'.
Proof.
  unfold year_key, PyStr.str. intros H.
  assert (Z.to_int (Z.of_N y) = Z.to_int (Z.of_N y')) as E.
  { apply (f_equal NilEmpty.int_of_string) in H.
    rewrite !NilEmpty.isi in H. congruence. }
  apply DecimalZ.to_int_inj in E. lia.
Qed.

Lemma uint_of_zeros (k : nat) (s : string) :
  NilEmpty.uint_of_string (PyStr.zeros k +:+ s)
  = option_map (Nat.iter k Decimal.D0) (NilEmpty.uint_of_string s).
Proof.
  induction k as [|k IH].
  - change (PyStr.zeros 0 +:+ s) with s.
    destruct (NilEmpty.uint_of_string s); reflexivity.
  - change (PyStr.zeros (S k) +:+ s) with (String "0" (PyStr.zeros k +:+ s)).
    cbn [NilEmpty.uint_of_string]. rewrite IH.
    destruct (NilEmpty.uint_of_string s); reflexivity.
Qed.

Lemma of_uint_zeros (k : nat) (d : Decimal.uint) :
  Pos.of_uint (Nat.iter k Decimal.D0 d) = Pos.of_uint d.
Proof. induction k as [|k IH]; simpl; auto. Qed.

Lemma zfill_head (w : nat) (p : positive) :
  exists c r, PyStr.zfill w (NilEmpty.string_of_uint (Pos.to_uint p)) = String c r
              /\ Ascii.eqb c "-" = false.
Proof.
  unfold PyStr.zfill.
  destruct (w - String.length (NilEmpty.string_of_uint (Pos.to_uint p)))%nat as [|k].
  - simpl. pose proof (DecimalPos.Unsigned.to_uint_nonnil p) as Hn.
    destruct (Pos.to_uint p); try done; simpl; eauto.
  - simpl. eauto.
Qed.

Lemma parse_zfill (w : nat) (p : positive) :
  NilEmpty.uint_of_string (PyStr.zfill w (NilEmpty.string_of_uint (Pos.to_uint p)))
  = Some (Nat.iter (w - String.length (NilEmpty.string_of_uint (Pos.to_uint p)))
                   Decimal.D0 (Pos.to_uint p)).
Proof. unfold PyStr.zfill. by rewrite uint_of_zeros, NilEmpty.usu. Qed.

Lemma int_of_string_unsigned (s : string) (c : ascii) (r : string) :
  s = String c r -> Ascii.eqb c "-" = false ->
  NilEmpty.int_of_string s = option_map Decimal.Pos (NilEmpty.uint_of_string s).
Proof. intros -> H. unfold NilEmpty.int_of_string. by rewrite H. Qed.

Lemma parse_format_06d (z : Z) : PyStr.parse_int (PyStr.format_06d z) = Some z.
Proof.
  unfold PyStr.parse_int, PyStr.format_06d, PyStr.str.
  destruct z as [|p|p].
  - reflexivity.
  - change (Z.pos p <? 0) with false. cbn iota.
    change (Z.to_int (Z.pos p)) with (Decimal.Pos (Pos.to_uint p)).
    cbn [NilEmpty.string_of_int].
    destruct (zfill_head 6 p) as (c & r & E & Hc).
    rewrite (int_of_string_unsigned _ c r E Hc), parse_zfill. simpl.
    unfold Z.of_uint. rewrite of_uint_zeros, DecimalPos.Unsigned.of_to. done.
  - change (Z.neg p <? 0) with true. cbn iota.
    change (Z.to_int (- Z.neg p)) with (Decimal.Pos (Pos.to_uint p)).
    cbn [NilEmpty.string_of_int].
    unfold NilEmpty.int_of_string. rewrite Ascii.eqb_refl, parse_zfill. simpl.
    unfold Z.of_uint. rewrite of_uint_zeros, DecimalPos.Unsigned.of_to. done.
Qed.

Lemma format_06d_inj (a b : Z) : PyStr.format_06d a = PyStr.format_06d b -> a = b.
Proof.
  intros H. apply (f_equal PyStr.parse_int) in H. rewrite !parse_format_06d in H. congruence.
Qed.

(** Different (year, number) pairs give different identifiers. *)
Lemma format_edi_inj (y y' : N) (a b : Z) :
  format_edi y a = format_edi y' b -> y = y' /\ a = b.
Proof.
  unfold format_edi. intros H. simpl in H. injection H as H.
  change ("-" +:+ ?x) with (String "-" x) in H.
  apply sep_split_inj in H as [Hy Hf]; try apply year_key_dash_free.
  split; [by apply year_key_inj|by apply format_06d_inj].
Qed.

(** *** The sequence allocator *)

Lemma generate_next_edi_spec (y : N) (s : State) :
  generate_next_edi y s
  = (Ok (format_edi y (current_sequence y s + 1)),
     mkState (<[year_key y := current_sequence y s + 1]> (edi_sequence s))
             (decisions s) (vault s) (artifacts s)).
Proof. reflexivity. Qed.

Lemma current_sequence_generate (y y' : N) (s : State) :
  current_sequence y' (snd (generate_next_edi y s))
  = if N.eqb y y' then current_sequence y' s + 1 else current_sequence y' s.
Proof.
  unfold current_sequence. simpl.
  destruct (N.eqb_spec y y') as [->|Hne].
  - by rewrite lookup_insert_eq.
  - rewrite lookup_insert_ne; [done|]. intros H. by apply year_key_inj in H.
Qed.

(** Only [generate_next_edi] writes the counters. *)
Lemma db_call_counters (c : DbCall) (s : State) (y : N) :
  current_sequence y (snd (db_call c s))
  = match c with
    | CallGenerate y0 => if N.eqb y0 y then current_sequence y s + 1
                         else current_sequence y s
    | _ => current_sequence y s
    end.
Proof.
  destruct c; try reflexivity.
  - simpl. apply current_sequence_generate.
  - unfold db_call, seal_to_vault.
    by destruct (negb (PyStr.truthy id) || negb (EDI_REGEX_match id)).
  - unfold db_call, create_artifact, modify. simpl.
    by destruct (existsb _ _).
Qed.

(** The [n]-th identifier issued for a year carries the counter the run
    started from plus [n]. *)
Lemma issued_numbers (calls : list DbCall) (s : State) (i : nat) (y : N) (id : string) :
  issued calls s !! i = Some (y, id) ->
  id = format_edi y (current_sequence y s
                     + Z.of_nat (issued_before y (S i) (issued calls s))).
Proof.
  revert s i. induction calls as [|c calls IH]; intros s i; simpl; [done|].
  pose proof (db_call_counters c s y) as Hc.
  destruct c as [y0| | | | | |]; simpl in *;
    try (intros H; apply IH in H; rewrite Hc in H; exact H).
  destruct i as [|i]; simpl.
  - intros [= <- <-]. unfold issued_before. simpl.
    rewrite N.eqb_refl. reflexivity.
  - intros H. apply IH in H. rewrite Hc in H. rewrite H at 1. f_equal.
    unfold issued_before. cbn [take List.filter fst].
    destruct (N.eqb y0 y); cbn [length]; lia.
Qed.

Lemma issued_before_mono (y : N) (l : list (N * string)) (i j : nat) (p q : N * string) :
  (i < j)%nat -> l !! j = Some q -> fst q = y ->
  (issued_before y (S i) l < issued_before y (S j) l)%nat.
Proof.
  intros Hij Hj Hq. unfold issued_before.
  rewrite <- (take_drop (S i) (take (S j) l)).
  rewrite take_take, Nat.min_l by lia.
  rewrite List.filter_app, length_app.
  assert (drop (S i) (take (S j) l) !! (j - S i)%nat = Some q) as Hd.
  { rewrite lookup_drop, lookup_take_lt by lia.
    by replace (S i + (j - S i))%nat with j by lia. }
  apply list_elem_of_lookup_2 in Hd. apply list_elem_of_In in Hd.
  assert (In q (List.filter (fun p => N.eqb (fst p) y) (drop (S i) (take (S j) l)))) as Hin.
  { apply filter_In. split; [done|]. by apply N.eqb_eq. }
  destruct (List.filter _ (drop (S i) (take (S j) l))); [done|]. simpl. lia.
Qed.

Lemma issued_app (pre post : list DbCall) (s : State) :
  issued (pre ++ post) s = issued pre s ++ issued post (run_calls pre s).
Proof.
  revert s. induction pre as [|c pre IH]; intros s; [done|].
  cbn [app issued run_calls]. by rewrite IH, app_assoc.
Qed.

Lemma issued_repeat (n : nat) (y : N) (s : State) :
  issued (repeat (CallGenerate y) n) s
  = map (fun k => (y, format_edi y (current_sequence y s + Z.of_nat k))) (seq 1 n).
Proof.
  revert s. induction n as [|n IH]; intros s; [done|].
  cbn [repeat issued db_call seq map]. rewrite generate_next_edi_spec. cbn [fst snd app].
  f_equal. rewrite IH, <- (seq_shift n 1), map_map. apply map_ext. intros k.
  pose proof (current_sequence_generate y y s) as Hc.
  rewrite generate_next_edi_spec, N.eqb_refl in Hc. cbn [snd] in Hc. rewrite Hc.
  do 2 f_equal. lia.
Qed.

(** C8. Sequence monotonicity.  Every allocation returns an identifier:
    the one made of the year and of the year's counter plus one, which
    becomes the counter.  In any run of calls of the database, from any
    state, every allocation of the run issues its identifier; two
    identifiers issued for the same year carry numbers that grow strictly
    with the order of issue; no identifier is issued twice; successive
    allocations in one year carry successive numbers; and the first
    identifier of a year that has no counter yet carries the number 1,
    whatever the counters of the other years are. *)
Theorem sequence_numbers_increase (calls : list DbCall) (s : State) :
  (forall y s0,
      generate_next_edi y s0
      = (Ok (format_edi y (current_sequence y s0 + 1)), advanced y s0)
      /\ current_sequence y (advanced y s0) = current_sequence y s0 + 1)
  /\ (forall pre y post,
        calls = pre ++ CallGenerate y :: post ->
        issued calls s !! length (issued pre s)
        = Some (y, format_edi y (current_sequence y (run_calls pre s) + 1)))
  /\ (forall n y,
        issued (repeat (CallGenerate y) n) s
        = map (fun k => (y, format_edi y (current_sequence y s + Z.of_nat k)))
              (seq 1 n))
  /\ (forall i j y id_i id_j,
        (i < j)%nat ->
        issued calls s !! i = Some (y, id_i) ->
        issued calls s !! j = Some (y, id_j) ->
        exists a b, id_i = format_edi y a /\ id_j = format_edi y b
                    /\ current_sequence y s < a < b)
  /\ NoDup (map snd (issued calls s))
  /\ (forall i y id,
        edi_sequence s !! year_key y = None ->
        issued calls s !! i = Some (y, id) ->
        issued_before y i (issued calls s) = 0%nat ->
        id = format_edi y 1).
Proof.
  assert (forall i j y id_i id_j,
      (i < j)%nat ->
      issued calls s !! i = Some (y, id_i) ->
      issued calls s !! j = Some (y, id_j) ->
      exists a b, id_i = format_edi y a /\ id_j = format_edi y b
                  /\ current_sequence y s < a < b) as Hinc.
  { intros i j y id_i id_j Hij Hi Hj.
    eexists _, _. split; [exact (issued_numbers _ _ _ _ _ Hi)|].
    split; [exact (issued_numbers _ _ _ _ _ Hj)|].
    pose proof (issued_before_mono y _ i j (y, id_i) (y, id_j) Hij Hj eq_refl).
    assert (0 < issued_before y (S i) (issued calls s))%nat; [|lia].
    unfold issued_before. rewrite (take_S_r _ _ _ Hi), List.filter_app, length_app.
    simpl. rewrite N.eqb_refl. simpl. lia. }
  split; [|split; [|split; [|split; [exact Hinc|split]]]].
  - intros y s0. split; [apply generate_next_edi_spec|].
    pose proof (current_sequence_generate y y s0) as Hc.
    by rewrite N.eqb_refl in Hc.
  - intros pre y post ->. rewrite issued_app.
    rewrite lookup_app_r by lia. rewrite Nat.sub_diag.
    cbn [issued db_call]. by rewrite generate_next_edi_spec.
  - intros n y. apply issued_repeat.
  - apply NoDup_alt. intros i j id Hi Hj.
    rewrite list_lookup_fmap in Hi, Hj.
    destruct (issued calls s !! i) as [[yi id_i]|] eqn:Ei; [|done].
    destruct (issued calls s !! j) as [[yj id_j]|] eqn:Ej; [|done].
    simpl in Hi, Hj. injection Hi as ->. injection Hj as ->.
    destruct (Nat.lt_trichotomy i j) as [Hlt|[->|Hlt]]; [|done|].
    + pose proof (issued_numbers _ _ _ _ _ Ei) as Hi.
      pose proof (issued_numbers _ _ _ _ _ Ej) as Hj.
      rewrite Hi in Hj. apply format_edi_inj in Hj as [<- Hn].
      pose proof (issued_before_mono yi _ i j (yi, id) (yi, id) Hlt Ej eq_refl). lia.
    + pose proof (issued_numbers _ _ _ _ _ Ei) as Hi.
      pose proof (issued_numbers _ _ _ _ _ Ej) as Hj.
      rewrite Hj in Hi. apply format_edi_inj in Hi as [<- Hn].
      pose proof (issued_before_mono yj _ j i (yj, id) (yj, id) Hlt Ei eq_refl). lia.
  - intros i y id Hnone Hi Hfirst.
    rewrite (issued_numbers _ _ _ _ _ Hi). f_equal.
    unfold current_sequence. rewrite Hnone. simpl.
    unfold issued_before in *. rewrite (take_S_r _ _ _ Hi), List.filter_app, length_app.
    rewrite Hfirst. simpl. rewrite N.eqb_refl. done.
Qed.

Lemma sequence_numbers_increase_witness :
  let calls := [CallGenerate 2026; CallGenerate 2026; CallGenerate 2027] in
  issued calls one_decision
  = [(2026%N, "EVE-2026-000002"); (2026%N, "EVE-2026-000003");
     (2027%N, "EVE-2027-000001")]%string
  /\ exists a b, "EVE-2026-000002"%string = format_edi 2026 a
                 /\ "EVE-2026-000003"%string = format_edi 2026 b
                 /\ current_sequence 2026 one_decision < a < b.
Proof.
  intros calls.
  destruct (sequence_numbers_increase calls one_decision)
    as (_ & Hissue & _ & Hinc & _ & Hfirst).
  assert (issued calls one_decision
          = [(2026%N, "EVE-2026-000002"); (2026%N, "EVE-2026-000003");
             (2027%N, "EVE-2027-000001")]%string) as Hall
    by (vm_compute; reflexivity).
  split; [exact Hall|].
  apply (Hinc 0%nat 1%nat 2026%N); [lia| |]; by rewrite Hall.
Defined.

Example sequence_numbers_example :
  issued [CallGenerate 2026; CallInsert
            (mkDecision "EVE-2026-000001" "legacy" "v1" "CLASSIFICATION" "EXECUTED"
               "2026-01-17T10:00:00+00:00" [] None None None None "r" "h" None None);
          CallGenerate 2026; CallGenerate 2027] empty_state
  = [(2026%N, "EVE-2026-000001"); (2026%N, "EVE-2026-000002");
     (2027%N, "EVE-2027-000001")]%string.
Proof. vm_compute. reflexivity. Qed.

(** *** Superseding *)

Lemma find_update_first {A} (p : A -> bool) (f : A -> A) (l : list A) :
  (forall x, p (f x) = p x) ->
  find p (update_first p f l) = f <$> find p l.
Proof.
  intros Hp. induction l as [|x l IH]; simpl; [done|].
  destruct (p x) eqn:E; simpl.
  - by rewrite Hp, E.
  - by rewrite E.
Qed.

Lemma find_app_Some {A} (p : A -> bool) (l l' : list A) (x : A) :
  find p l = Some x -> find p (l ++ l') = Some x.
Proof.
  induction l as [|y l IH]; simpl; [done|]. by destruct (p y).
Qed.

Lemma update_first_split {A} (p : A -> bool) (f : A -> A) (l : list A) (x : A) :
  find p l = Some x ->
  exists pre post,
    l = pre ++ x :: post /\ update_first p f l = pre ++ f x :: post
    /\ forallb (fun y => negb (p y)) pre = true.
Proof.
  induction l as [|y l IH]; simpl; [done|].
  destruct (p y) eqn:E.
  - intros [= ->]. by exists [], l.
  - intros (pre & post & -> & -> & Hpre)%IH.
    exists (y :: pre), post. simpl. by rewrite E.
Qed.

Lemma update_first_app {A} (p : A -> bool) (f : A -> A) (l l' : list A) (x : A) :
  find p l = Some x -> update_first p f (l ++ l') = update_first p f l ++ l'.
Proof.
  induction l as [|y l IH]; simpl; [done|].
  destruct (p y); [done|]. intros H. by rewrite IH.
Qed.

Lemma supersede_refused (clock : Clock) (command : Command) (warnings : list string)
  (target : string) (s : State) :
  targets target command ->
  (get_decision (Some target) s = None ->
   _execute_supersede clock command warnings s
   = (Ok (Failure ["Decision not found: " +:+ target] None), s))
  /\ (forall d, get_decision (Some target) s = Some d ->
                status d <> "EXECUTED"%string ->
                _execute_supersede clock command warnings s
                = (Ok (Failure ["Cannot supersede " +:+ status d +:+ " decision"] None), s)).
Proof.
  intros Ht. unfold targets in Ht. unfold _execute_supersede. rewrite Ht.
  split.
  - intros Hn. unfold mbind, M_bind, reading. rewrite Hn. done.
  - intros d Hd Hs. unfold mbind, M_bind, reading. rewrite Hd.
    destruct (String.eqb_spec (status d) "EXECUTED"); done.
Qed.

Lemma supersede_performed (clock : Clock) (command : Command) (warnings : list string)
  (target : string) (s s' : State) (id proof sealed : string) (w : option (list string)) :
  targets target command ->
  _execute_supersede clock command warnings s = (Ok (Success id proof sealed w), s') ->
  exists a b pre post,
    decisions s = pre ++ a :: post
    /\ get_decision (Some target) s = Some a
    /\ status a = "EXECUTED"%string
    /\ decisions s' = pre ++ mark_superseded id a :: post ++ [b]
    /\ eve_decision_id b = id
    /\ supersedes b = Some target
    /\ status b = "EXECUTED"%string
    /\ superseded_by b = None
    /\ get_decision (Some target) s' = Some (mark_superseded id a).
Proof.
  intros Ht. unfold targets in Ht. unfold _execute_supersede. rewrite Ht.
  unfold mbind, M_bind, reading.
  destruct (get_decision (Some target) s) as [a|] eqn:Ha; [|done].
  destruct (String.eqb_spec (status a) "EXECUTED") as [Hs|]; [|done].
  cbn [negb]. rewrite generate_next_edi_spec.
  set (new_id := format_edi (year clock) (current_sequence (year clock) s + 1)).
  unfold lift.
  destruct (_create_decision_object (created_now clock) new_id command) as [b|e] eqn:Hb;
    [|done].
  unfold insert_decision, supersede, modify. cbn [decisions edi_sequence vault artifacts].
  unfold seal_to_vault. cbn [decisions edi_sequence vault artifacts].
  destruct (negb (PyStr.truthy new_id) || negb (EDI_REGEX_match new_id)); [done|].
  unfold mret, M_ret. intros [= <- _ _ _ <-]. cbn [decisions].
  unfold get_decision in *.
  destruct (update_first_split _ (mark_superseded new_id) _ _ Ha) as (pre & post & Hl & Hu & _).
  rewrite (update_first_app _ _ _ _ _ Ha), Hu.
  exists a, b, pre, post.
  assert (eve_decision_id b = new_id /\ supersedes b = Some target
          /\ status b = "EXECUTED"%string /\ superseded_by b = None) as (Hid & Hsup & Hst & Hby).
  { unfold _create_decision_object in Hb.
    destruct (normalize_project_id _) as [[pid hv]|]; [|done].
    destruct (command_of_value _); [|done].
    destruct (get_or (p_signoff _) _); [|done].
    injection Hb as <-. simpl. by rewrite Ht. }
  repeat split; try done.
  - by rewrite <- app_assoc.
  - cbn [decisions]. rewrite <- Hu. apply find_app_Some.
    rewrite find_update_first by done. by rewrite Ha.
Qed.



(** *** [execute] *)

(** [execute] after a successful parse. *)
Lemma execute_parsed (clock : Clock) (input : EclInput) (pid : option string)
  (c : Command) (errs : list string) (s : State) :
  parse input = Ok (Parsed true c errs) ->
  execute clock input pid s
  = match cmd_type (with_project_id pid c) with
    | read => _execute_read (with_project_id pid c) s
    | decision =>
        match validate (with_project_id pid c) with
        | Raise e => (Raise e, s)
        | Ok v =>
            if valid v
            then _execute_decision clock (with_project_id pid c) (v_warnings v) s
            else (Ok (Failure (v_errors v) (Some (v_warnings v))), s)
        end
    end.
Proof.
  intros Hp. unfold execute, mbind, M_bind, lift. rewrite Hp.
  destruct (cmd_type (with_project_id pid c)); [|done].
  destruct (validate (with_project_id pid c)) as [v|e]; [|done].
  by destruct (valid v).
Qed.

Lemma execute_unparsed (clock : Clock) (input : EclInput) (pid : option string)
  (s : State) :
  (forall errs, parse input = Ok (Rejected errs) ->
                execute clock input pid s = (Ok (Failure errs None), s))
  /\ (forall c errs, parse input = Ok (Parsed false c errs) ->
                     execute clock input pid s = (Ok (Failure errs None), s))
  /\ (forall e, parse input = Raise e -> execute clock input pid s = (Raise e, s)).
Proof.
  unfold execute, mbind, M_bind, lift.
  repeat split; intros; by rewrite H.
Qed.

(** C7 as the code has it.  [execute] runs the rule validation on every
    parsed decision instruction before it looks at the supersede target:
    an instruction that fails it is rejected with all its errors and
    nothing changes, whether or not it names a target; one that passes it
    and names a non-empty target is handed to the supersede path. *)
Theorem execute_validates_before_superseding (clock : Clock) (input : EclInput)
  (pid : option string) (c : Command) (errs : list string) (s : State) :
  parse input = Ok (Parsed true c errs) ->
  cmd_type (with_project_id pid c) = decision ->
  (forall v, validate (with_project_id pid c) = Ok v -> valid v = false ->
             execute clock input pid s
             = (Ok (Failure (v_errors v) (Some (v_warnings v))), s))
  /\ (forall v, validate (with_project_id pid c) = Ok v -> valid v = true ->
                truthy_str (get (p_supersedes (params (with_project_id pid c)))) = true ->
                execute clock input pid s
                = _execute_supersede clock (with_project_id pid c) (v_warnings v) s).
Proof.
  intros Hp Hd. rewrite (execute_parsed _ _ _ _ _ _ Hp), Hd.
  split; intros v Hv Hvalid.
  - by rewrite Hv, Hvalid.
  - intros Ht. rewrite Hv, Hvalid. unfold _execute_decision. by rewrite Ht.
Qed.

Lemma execute_validates_before_superseding_witness :
  let supersede_acme :=
    mkCommand decision "CLASSIFY"
      (mkParams (Val "acme-sys") IsNone (Val ["CDOC-SCOPE-1"; "CDOC-CLASS-1"]) IsNone
                (Val [mkSignoff "Compliance Owner" "joakim"]) IsNone IsNone
                (Val "EVE-2026-000001") IsNone) in
  execute noon (Structured (with_supersedes "EVE-2026-000001" classify_acme)) None
          one_decision
  = _execute_supersede noon supersede_acme
      ["CLASSIFY should include use_case for traceability"%string] one_decision.
Proof.
  intros supersede_acme.
  exact (proj2 (execute_validates_before_superseding noon
                  (Structured (with_supersedes "EVE-2026-000001" classify_acme))
                  None supersede_acme [] one_decision eq_refl eq_refl)
               (mkValidation true []
                  ["CLASSIFY should include use_case for traceability"%string])
               eq_refl eq_refl eq_refl).
Defined.

(** An instruction that names an EXECUTED decision as its supersede target
    and lists no artifacts: the supersede path would perform it, but
    [execute] rejects it in the rule validation and nothing is
    superseded. *)
Lemma supersede_needs_valid_instruction :
  let input :=
    Structured (with_artifacts (Val []) (with_supersedes "EVE-2026-000001" classify_acme)) in
  (exists a, get_decision (Some "EVE-2026-000001"%string) one_decision = Some a
             /\ status a = "EXECUTED"%string)
  /\ (exists c, parse input = Ok (Parsed true c [])
                /\ targets "EVE-2026-000001" c
                /\ exists id proof sealed w s',
                     _execute_supersede noon c [] one_decision
                     = (Ok (Success id proof sealed w), s'))
  /\ execute noon input None one_decision
     = (Ok (Failure
              ["CLASSIFY requires 1 artifact(s) with prefix 'CDOC-SCOPE'. Found: 0";
               "CLASSIFY requires 1 artifact(s) with prefix 'CDOC-CLASS'. Found: 0"]%string
              (Some ["CLASSIFY should include use_case for traceability"%string])),
        one_decision).
Proof.
  split; [|split].
  - eexists. split; reflexivity.
  - eexists. split; [reflexivity|]. split; [reflexivity|].
    do 5 eexists. vm_compute. reflexivity.
  - vm_compute. reflexivity.
Qed.

(** *** What a write changes *)

Lemma link_all_spec (arts : list string) (id : string) (s : State) :
  exists linked,
    link_all arts id s
    = (Ok tt, mkState (edi_sequence s) (decisions s) (vault s) linked)
    /\ length linked = length (artifacts s).
Proof.
  revert s. induction arts as [|a arts IH]; intros s.
  - exists (artifacts s). by destruct s.
  - cbn [link_all]. unfold mbind, M_bind, link_artifact_to_decision, modify.
    destruct (IH (mkState (edi_sequence s) (decisions s) (vault s)
                    (update_first (fun x => String.eqb (artifact_id x) a)
                                  (mark_linked id) (artifacts s))))
      as (linked & -> & Hlen).
    exists linked. split; [done|]. rewrite Hlen. cbn [artifacts].
    clear. induction (artifacts s) as [|x l IHl]; [done|]. cbn [update_first].
    destruct (String.eqb (artifact_id x) a); cbn [length]; by rewrite ?IHl.
Qed.

(** The plain decision path, step by step. *)
Lemma _execute_decision_plain (clock : Clock) (c : Command) (w : list string) (s : State) :
  truthy_str (get (p_supersedes (params c))) = false ->
  let id := format_edi (year clock) (current_sequence (year clock) s + 1) in
  match _create_decision_object (created_now clock) id c with
  | Raise e => _execute_decision clock c w s = (Raise e, advanced (year clock) s)
  | Ok d =>
      match seal_to_vault (sealed_now clock) id "DECISION" (decision_json d)
              (mkState (edi_sequence (advanced (year clock) s)) (decisions s ++ [d])
                       (vault s) (artifacts s)) with
      | (Raise e, s1) =>
          _execute_decision clock c w s
          = (Raise e, mkState (edi_sequence (advanced (year clock) s))
                              (decisions s ++ [d]) (vault s) (artifacts s))
      | (Ok entry, s1) =>
          match get_or (p_artifacts (params c)) [] with
          | None => _execute_decision clock c w s = (Raise TypeError, s1)
          | Some arts =>
              exists linked,
                _execute_decision clock c w s
                = (Ok (Success id (vault_proof entry) (sealed_at entry) (some_warnings w)),
                   mkState (edi_sequence (advanced (year clock) s))
                           (decisions s ++ [d]) (vault s ++ [entry]) linked)
                /\ length linked = length (artifacts s)
          end
      end
  end.
Proof.
  intros Ht id. unfold _execute_decision. rewrite Ht.
  unfold mbind, M_bind. rewrite generate_next_edi_spec. fold id.
  unfold lift. destruct (_create_decision_object (created_now clock) id c) as [d|e]; [|done].
  unfold insert_decision, modify. cbn [edi_sequence decisions vault artifacts advanced].
  unfold seal_to_vault.
  destruct (negb (PyStr.truthy id) || negb (EDI_REGEX_match id)); [done|].
  cbn [edi_sequence decisions vault artifacts].
  destruct (get_or (p_artifacts (params c)) []) as [arts|]; [|done].
  match goal with |- context [link_all arts id ?st] =>
    destruct (link_all_spec arts id st) as (linked & -> & Hlen) end.
  exists linked. split; [done|]. exact Hlen.
Qed.

(** C4, where the code departs from it.  On the plain path as on the
    supersede path the identifier is allocated before the partition id is
    normalized: an instruction that passed validation and carries a
    partition id the normalizer refuses raises [ValueError] after the
    counter of the year has moved; no decision and no vault entry is
    added. *)
Theorem invalid_project_id_advances_counter :
  (forall clock c w s e,
      truthy_str (get (p_supersedes (params c))) = false ->
      normalize_project_id (get (p_project_id (params c))) = Raise e ->
      _execute_decision clock c w s = (Raise e, advanced (year clock) s))
  /\ (forall clock c w s e target a,
        targets target c ->
        get_decision (Some target) s = Some a -> status a = "EXECUTED"%string ->
        normalize_project_id (get (p_project_id (params c))) = Raise e ->
        _execute_supersede clock c w s = (Raise e, advanced (year clock) s))
  /\ execute morning (Structured classify_acme) (Some "UPPER"%string) empty_state
     = (Raise ValueError, advanced 2026 empty_state)
  /\ current_sequence 2026 empty_state = 0
  /\ current_sequence 2026 (advanced 2026 empty_state) = 1.
Proof.
  repeat split.
  - intros clock c w s e Ht Hn.
    pose proof (_execute_decision_plain clock c w s Ht) as H. cbv zeta in H.
    unfold _create_decision_object in H. rewrite Hn in H. exact H.
  - intros clock c w s e target a Ht Ha Hs Hn.
    unfold targets in Ht. unfold _execute_supersede. rewrite Ht.
    unfold mbind, M_bind, reading. rewrite Ha, Hs.
    change (negb (String.eqb "EXECUTED" "EXECUTED")) with false. cbn beta iota.
    rewrite generate_next_edi_spec. unfold lift, _create_decision_object.
    by rewrite Hn.
Qed.

(** X12. An instruction that is rejected - by the parser, by the rule
    validation, or because its supersede target is missing or not
    EXECUTED - leaves the database as it was. *)
Lemma rejected_instruction_changes_nothing (clock : Clock) (input : EclInput)
  (pid : option string) (s s' : State) (errs : list string) (w : option (list string)) :
  execute clock input pid s = (Ok (Failure errs w), s') -> s' = s.
Proof.
  unfold execute, mbind, M_bind, lift.
  destruct (parse input) as [[errs0|b c errs0]|e];
    [by intros [= _ _ <-]| |done].
  destruct b; [|by intros [= _ _ <-]].
  destruct (cmd_type (with_project_id pid c)).
  - destruct (validate (with_project_id pid c)) as [v|]; [|done].
    destruct (valid v); cbn [negb]; [|by intros [= _ _ <-]].
    intros H.
    destruct (truthy_str (get (p_supersedes (params (with_project_id pid c))))) eqn:Ht.
    + unfold _execute_decision in H. rewrite Ht in H.
      unfold _execute_supersede, mbind, M_bind, reading, lift in H.
      destruct (p_supersedes (params (with_project_id pid c))) as [| |target];
        [done|by injection H|].
      destruct (get_decision (Some target) s) as [a|]; [|by injection H].
      destruct (negb (String.eqb (status a) "EXECUTED")); [by injection H|].
      rewrite generate_next_edi_spec in H.
      destruct (_create_decision_object _ _ _); [|done].
      unfold insert_decision, supersede, modify, seal_to_vault in H.
      destruct (negb _ || negb _) in H; done.
    + pose proof (_execute_decision_plain clock _ (v_warnings v) s Ht) as Hp.
      cbv zeta in Hp.
      destruct (_create_decision_object _ _ _); [|congruence].
      destruct (seal_to_vault _ _ _ _ _) as [[entry|] s1]; [|congruence].
      destruct (get_or _ _); [|congruence].
      destruct Hp as (linked & Hp & _). congruence.
  - unfold _execute_read, _replay, _verify, _query, mret, M_ret.
    repeat match goal with
           | |- context [if ?b then _ else _] => destruct b
           | |- context [match ?x with _ => _ end] => destruct x
           end; by try intros [= _ _ <-].
Qed.

(** *** Partition isolation *)

Lemma context_data_shape (p : string) (ps : Params) :
  context_data p ps
  = "{" +:+
    ((quote true "artifacts" +:+ ": " +:+ dumps true (opt_strs (get (p_artifacts ps)))) +:+
     ", " +:+
     (quote true "project_id" +:+ ": " +:+ quote true p) +:+
     ", " +:+
     (quote true "risk_links" +:+ ": " +:+ dumps true (opt_strs (get (p_risk_links ps)))) +:+
     ", " +:+
     (quote true "signoff" +:+ ": " +:+
      dumps true match get (p_signoff ps) with
                 | Some l => JList (map signoff_json l)
                 | None => JNull
                 end) +:+
     ", " +:+
     (quote true "system_id" +:+ ": " +:+ dumps true (opt_str (get (p_system_id ps)))) +:+
     ", " +:+ quote true "use_case" +:+ ": " +:+ dumps true (opt_str (get (p_use_case ps)))) +:+
    "}".
Proof. reflexivity. Qed.

(** The hashed text determines the partition id. *)
Lemma context_data_inj (p q : string) (ps : Params) :
  context_data p ps = context_data q ps -> p = q.
Proof.
  rewrite !context_data_shape.
  intros H. apply append_inv_head in H.
  rewrite !append_assoc_str in H. do 6 apply append_inv_head in H.
  unfold quote at 1 7 in H.
  change (String dq ?x +:+ ?r) with (String dq (x +:+ r)) in H.
  injection H as H. rewrite !append_assoc_str in H.
  change (String dq EmptyString +:+ ?x) with (String dq x) in H.
  by apply escape_terminated_inj in H as [-> _].
Qed.

Lemma context_data_payload (n : string) (c : Command) :
  context_data n (params (without_project_id c)) = context_data n (params c).
Proof. reflexivity. Qed.

Lemma created_decision (now id : string) (c : Command) (d : Decision) :
  _create_decision_object now id c = Ok d ->
  exists n hv,
    normalize_project_id (get (p_project_id (params c))) = Ok (n, hv)
    /\ eve_decision_id d = id /\ project_id d = n /\ hash_version d = hv
    /\ status d = "EXECUTED"%string
    /\ context_hash d = sha256_hex (context_data n (params c)).
Proof.
  unfold _create_decision_object.
  destruct (normalize_project_id _) as [[n hv]|]; [|done].
  destruct (command_of_value _); [|done].
  destruct (get_or (p_signoff _) _); [|done].
  intros [= <-]. by exists n, hv.
Qed.

(** What a successful [execute] went through. *)
Lemma execute_success (clock : Clock) (input : EclInput) (pid : option string)
  (c : Command) (errs : list string) (s s' : State)
  (id pr sl : string) (w : option (list string)) :
  parse input = Ok (Parsed true c errs) ->
  execute clock input pid s = (Ok (Success id pr sl w), s') ->
  exists v, validate (with_project_id pid c) = Ok v
            /\ _execute_decision clock (with_project_id pid c) (v_warnings v) s
               = (Ok (Success id pr sl w), s').
Proof.
  intros Hp. rewrite (execute_parsed _ _ _ _ _ _ Hp).
  destruct (cmd_type (with_project_id pid c)).
  - destruct (validate (with_project_id pid c)) as [v|]; [|done].
    destruct (valid v); [|done]. eauto.
  - unfold _execute_read, _replay, _verify, _query, mret, M_ret.
    repeat match goal with
           | |- context [if ?b then _ else _] => destruct b
           | |- context [match ?x with _ => _ end] => destruct x
           end; done.
Qed.

Lemma plain_success (clock : Clock) (c : Command) (w : list string) (s s' : State)
  (id pr sl : string) (w' : option (list string)) :
  truthy_str (get (p_supersedes (params c))) = false ->
  _execute_decision clock c w s = (Ok (Success id pr sl w'), s') ->
  exists d,
    id = format_edi (year clock) (current_sequence (year clock) s + 1)
    /\ _create_decision_object (created_now clock) id c = Ok d
    /\ decisions s' = decisions s ++ [d]
    /\ edi_sequence s' = edi_sequence (advanced (year clock) s)
    /\ length (vault s') = S (length (vault s))
    /\ length (artifacts s') = length (artifacts s).
Proof.
  intros Ht H. pose proof (_execute_decision_plain clock c w s Ht) as Hp.
  cbv zeta in Hp.
  destruct (_create_decision_object _ _ c) as [d|] eqn:Hd; [|congruence].
  unfold seal_to_vault in Hp.
  destruct (negb _ || negb _); [congruence|].
  destruct (get_or _ _); [|congruence].
  destruct Hp as (linked & Hp & Hlen). rewrite Hp in H.
  injection H as <- _ _ _ <-. exists d. cbn [decisions edi_sequence vault artifacts].
  rewrite length_app. cbn [length]. repeat split; try done. lia.
Qed.

(** C1 as the code has it.  Partition isolation.  Two instructions that
    parse, that are the same but for their partition ids, and whose ids
    the normalizer maps to two different partitions (an absent or empty
    id is mapped to ["legacy"], as the explicit id ["legacy"] is), are
    executed one after the other, both with success.  Then the ledger has
    gained exactly two decisions, filed under the two partitions, with
    different decision ids, and with different content hashes - unless
    SHA-256 maps the two hashed texts, which differ, to one value. *)
Theorem partition_isolation
  (clock1 clock2 : Clock) (input1 input2 : EclInput) (pid1 pid2 : option string)
  (c1 c2 : Command) (e1 e2 : list string) (n1 n2 h1 h2 : string)
  (s0 s1 s2 : State) (id1 id2 pr1 pr2 sl1 sl2 : string) (w1 w2 : option (list string)) :
  parse input1 = Ok (Parsed true c1 e1) ->
  parse input2 = Ok (Parsed true c2 e2) ->
  without_project_id (with_project_id pid1 c1)
  = without_project_id (with_project_id pid2 c2) ->
  normalize_project_id (get (p_project_id (params (with_project_id pid1 c1))))
  = Ok (n1, h1) ->
  normalize_project_id (get (p_project_id (params (with_project_id pid2 c2))))
  = Ok (n2, h2) ->
  n1 <> n2 ->
  (sha256_hex (context_data n1 (params (with_project_id pid1 c1)))
   = sha256_hex (context_data n2 (params (with_project_id pid1 c1))) ->
   context_data n1 (params (with_project_id pid1 c1))
   = context_data n2 (params (with_project_id pid1 c1))) ->
  execute clock1 input1 pid1 s0 = (Ok (Success id1 pr1 sl1 w1), s1) ->
  execute clock2 input2 pid2 s1 = (Ok (Success id2 pr2 sl2 w2), s2) ->
  exists d1 d2,
    decisions s2 = decisions s0 ++ [d1; d2]
    /\ eve_decision_id d1 = id1 /\ eve_decision_id d2 = id2
    /\ project_id d1 = n1 /\ project_id d2 = n2
    /\ id1 <> id2
    /\ context_hash d1 <> context_hash d2.
Proof.
  intros Hp1 Hp2 Hsame Hn1 Hn2 Hne Hsha Hx1 Hx2.
  destruct (execute_success _ _ _ _ _ _ _ _ _ _ _ Hp1 Hx1) as (v1 & _ & Hd1).
  destruct (execute_success _ _ _ _ _ _ _ _ _ _ _ Hp2 Hx2) as (v2 & _ & Hd2).
  set (c1' := with_project_id pid1 c1) in *.
  set (c2' := with_project_id pid2 c2) in *.
  assert (p_supersedes (params c2') = p_supersedes (params c1')) as Hsup.
  { apply (f_equal (fun c => p_supersedes (params c))) in Hsame. done. }
  destruct (truthy_str (get (p_supersedes (params c1')))) eqn:Ht.
  - (* a supersede cannot be performed twice on the same target *)
    exfalso. unfold _execute_decision in Hd1, Hd2. rewrite Hsup in Hd2.
    rewrite Ht in Hd1, Hd2.
    destruct (p_supersedes (params c1')) as [| |target] eqn:Htarget; [done|done|].
    destruct (supersede_performed clock1 c1' (v_warnings v1) target s0 s1 _ _ _ _
                Htarget Hd1)
      as (a & b & pre & post & _ & _ & _ & _ & _ & _ & _ & _ & Hget).
    assert (targets target c2') as Htarget2 by (unfold targets; by rewrite Hsup).
    destruct (supersede_refused clock2 c2' (v_warnings v2) target s1 Htarget2) as [_ H].
    rewrite (H _ Hget) in Hd2; done.
  - assert (truthy_str (get (p_supersedes (params c2'))) = false) as Ht2
        by (by rewrite Hsup).
    destruct (plain_success _ _ _ _ _ _ _ _ _ Ht Hd1)
      as (d1 & Hid1 & Hc1 & Hdec1 & Hseq1 & _).
    destruct (plain_success _ _ _ _ _ _ _ _ _ Ht2 Hd2)
      as (d2 & Hid2 & Hc2 & Hdec2 & _).
    destruct (created_decision _ _ _ _ Hc1) as (m1 & k1 & Hm1 & Hi1 & Hpr1 & _ & _ & Hh1).
    destruct (created_decision _ _ _ _ Hc2) as (m2 & k2 & Hm2 & Hi2 & Hpr2 & _ & _ & Hh2).
    rewrite Hn1 in Hm1. injection Hm1 as <- <-.
    rewrite Hn2 in Hm2. injection Hm2 as <- <-.
    exists d1, d2. repeat split; try done.
    + rewrite Hdec2, Hdec1, <- app_assoc. done.
    + rewrite Hid1, Hid2. intros [Hy Hs]%format_edi_inj.
      unfold current_sequence in Hs. rewrite Hseq1, <- Hy in Hs.
      cbn [advanced edi_sequence] in Hs. rewrite lookup_insert_eq in Hs.
      cbn [default] in Hs. unfold current_sequence, id in Hs. lia.
    + rewrite Hh1, Hh2.
      rewrite <- (context_data_payload n2 c2'). fold c1' c2' in Hsame.
      rewrite <- Hsame, context_data_payload.
      intros E. apply Hne. apply (context_data_inj _ _ (params c1')). auto.
Qed.

Lemma partition_isolation_witness :
  let s1 := snd (execute morning (Structured classify_acme) (Some "alpha"%string) empty_state) in
  let s2 := snd (execute noon (Structured classify_acme) (Some "beta"%string) s1) in
  exists d1 d2,
    decisions s2 = [d1; d2]
    /\ project_id d1 = "alpha"%string /\ project_id d2 = "beta"%string
    /\ eve_decision_id d1 <> eve_decision_id d2
    /\ context_hash d1 <> context_hash d2.
Proof.
  intros s1 s2.
  assert (exists c, parse (Structured classify_acme) = Ok (Parsed true c []))
    as [c Hc] by (vm_compute; eauto).
  assert (exists id pr sl w,
            execute morning (Structured classify_acme) (Some "alpha"%string) empty_state
            = (Ok (Success id pr sl w), s1))
    as (id1 & pr1 & sl1 & w1 & H1).
  { subst s1. vm_compute. eauto 10. }
  assert (exists id pr sl w,
            execute noon (Structured classify_acme) (Some "beta"%string) s1
            = (Ok (Success id pr sl w), s2))
    as (id2 & pr2 & sl2 & w2 & H2).
  { subst s2 s1. vm_compute. eauto 10. }
  assert (c = match parse (Structured classify_acme) with
              | Ok (Parsed _ c _) => c
              | _ => mkCommand read EmptyString no_params
              end) as Hcv.
  { by rewrite Hc. }
  vm_compute in Hcv.
  destruct (partition_isolation morning noon
              (Structured classify_acme) (Structured classify_acme)
              (Some "alpha"%string) (Some "beta"%string) c c [] []
              "alpha" "beta" "v2" "v2" empty_state s1 s2
              id1 id2 pr1 pr2 sl1 sl2 w1 w2 Hc Hc)
    as (d1 & d2 & Hd & Hi1 & Hi2 & Hp1 & Hp2 & Hne & Hh);
    try assumption.
  - reflexivity.
  - rewrite Hcv. reflexivity.
  - rewrite Hcv. reflexivity.
  - discriminate.
  - rewrite Hcv. intros E. vm_compute in E. discriminate E.
  - exists d1, d2. repeat split.
    + exact Hd.
    + exact Hp1.
    + exact Hp2.
    + rewrite Hi1, Hi2. exact Hne.
    + exact Hh.
Defined.

(** *** The validator *)

Lemma decision_verb_known (v : string) :
  mem v VALID_DECISION_COMMANDS = true ->
  exists e, command_of_value v = Some e /\ command_value e = v.
Proof.
  unfold mem. rewrite existsb_exists. intros (x & Hin & Heq).
  apply String.eqb_eq in Heq. subst x.
  unfold VALID_DECISION_COMMANDS, all_commands in Hin. cbn [map command_value] in Hin.
  repeat (destruct Hin as [<-|Hin]; [eexists; split; reflexivity|]).
  destruct Hin.
Qed.

Lemma check_artifacts_list (verb : string) (arts : list string)
  (required : list (string * nat)) (errors : list string) :
  check_artifacts verb (Some arts) required errors
  = Ok (errors ++ map (fun r => artifact_error verb (fst r) (snd r)
                                  (length (matching_artifacts (fst r) arts)))
                      (unmet_artifacts arts required)).
Proof.
  revert errors. induction required as [|[prefix min_count] rest IH]; intros errors.
  - cbn. by rewrite app_nil_r.
  - cbn [check_artifacts unmet_artifacts List.filter fst snd]. rewrite IH.
    fold (unmet_artifacts arts rest).
    destruct (_ <? _)%nat; [|done].
    cbn [map fst snd]. by rewrite <- app_assoc.
Qed.

Lemma check_artifacts_none (verb : string) (required : list (string * nat))
  (errors : list string) :
  required <> [] -> check_artifacts verb None required errors = Raise TypeError.
Proof. by destruct required as [|[??] ?]. Qed.

Lemma check_roles_list (verb : string) (provided required errors : list string) :
  check_roles verb provided required errors
  = errors ++ map (role_error verb) (missing_roles provided required).
Proof.
  revert errors. induction required as [|r rest IH]; intros errors.
  - cbn. by rewrite app_nil_r.
  - cbn [check_roles missing_roles List.filter]. rewrite IH.
    fold (missing_roles provided rest). unfold mem.
    destruct (existsb _ _); cbn [negb]; [done|].
    cbn [map]. by rewrite <- app_assoc.
Qed.

Lemma rules_ask_for_artifacts (e : ECLDecisionCommand) :
  required_artifacts (VALIDATION_RULES e) <> [].
Proof. by destruct e. Qed.

(** [validate] returns a result whenever the lists it iterates are lists. *)
Lemma validate_total (c : Command) (arts : list string) (sg : list Signoff) :
  get_or (p_artifacts (params c)) [] = Some arts ->
  get_or (p_signoff (params c)) [] = Some sg ->
  exists v, validate c = Ok v.
Proof.
  intros Ha Hs. unfold validate.
  destruct (cmd_type c); [|eauto].
  destruct (command_of_value (verb c)); [|eauto].
  rewrite Ha, check_artifacts_list, Hs.
  destruct (match requires_risk_links _ with RiskNo => _ | _ => _ end). eauto.
Qed.

Lemma validate_raises (c : Command) (e : ECLDecisionCommand) :
  cmd_type c = decision -> command_of_value (verb c) = Some e ->
  get_or (p_artifacts (params c)) [] = None
  \/ get_or (p_signoff (params c)) [] = None ->
  validate c = Raise TypeError.
Proof.
  intros Ht He H. unfold validate. rewrite Ht, He.
  destruct (get_or (p_artifacts (params c)) []) as [arts|].
  - destruct H as [H|H]; [done|]. by rewrite check_artifacts_list, H.
  - by rewrite check_artifacts_none by apply rules_ask_for_artifacts.
Qed.

Lemma _parse_json_command (obj : JsonObject) (ok : bool) (c : Command)
  (errs : list string) :
  _parse_json obj = Ok (Parsed ok c errs) ->
  params c = mkParams (stored (j_system_id obj)) (stored (j_use_case obj))
                      (stored (j_artifacts obj)) (stored (j_risk_links obj))
                      (stored (j_signoff obj)) (stored (j_project_id obj))
                      (stored (j_eve_decision_id obj)) (stored (j_supersedes obj))
                      (stored (j_filters obj))
  /\ (cmd_type c = decision -> mem (verb c) VALID_DECISION_COMMANDS = true)
  /\ (cmd_type c = read -> mem (verb c) VALID_READ_COMMANDS = true)
  /\ (ok = true -> cmd_type c = decision ->
      truthy_str (get (p_system_id (params c))) = true).
Proof.
  unfold _parse_json. destruct (get_or (j_command obj) EmptyString) as [raw|]; [|done].
  cbv zeta.
  destruct (negb (PyStr.truthy (PyStr.upper raw))); [done|]. cbn [orb].
  destruct (mem (PyStr.upper raw) VALID_DECISION_COMMANDS) eqn:Hd; cbn [negb andb].
  - intros [= <- <- <-]. cbn [params cmd_type verb p_system_id].
    repeat split; try done.
    destruct (truthy_str _); done.
  - destruct (mem (PyStr.upper raw) VALID_READ_COMMANDS) eqn:Hr; [|done].
    cbn [negb]. intros [= <- <- <-]. cbn [params cmd_type verb]. done.
Qed.

Lemma get_or_stored {A} (e : entry A) (d : A) : get_or (stored e) d = get e.
Proof. by destruct e. Qed.

Lemma parse_header_lists (parts : list string) : lists_set (parse_header parts).
Proof.
  unfold parse_header.
  destruct parts as [|? [|keyword [|value ?]]]; try done.
  destruct (String.eqb _ _); [done|]. by destruct (String.eqb _ _).
Qed.

Lemma parse_body_line_lists (p : Params) (line : string) :
  lists_set p -> lists_set (parse_body_line p line).
Proof.
  intros [??]. unfold parse_body_line.
  repeat (destruct (PyStr.startswith _ _); [done|]). done.
Qed.

Lemma parse_body_lists (body : list string) (p : Params) :
  lists_set p -> lists_set (fold_left parse_body_line body p).
Proof.
  revert p. induction body as [|l body IH]; intros p Hp; [done|].
  apply IH, parse_body_line_lists, Hp.
Qed.

Lemma _parse_text_command (text : string) (ok : bool) (c : Command)
  (errs : list string) :
  _parse_text text = Parsed ok c errs ->
  lists_set (params c)
  /\ (cmd_type c = decision -> mem (verb c) VALID_DECISION_COMMANDS = true)
  /\ (cmd_type c = read -> mem (verb c) VALID_READ_COMMANDS = true)
  /\ (ok = true -> cmd_type c = decision ->
      truthy_str (get (p_system_id (params c))) = true).
Proof.
  unfold _parse_text.
  destruct (List.filter _ _) as [|first_line body]; [done|].
  destruct (negb (PyStr.startswith _ _)); [done|].
  destruct (PyStr.split_ws _) as [|part0 parts] eqn:Hparts; [done|].
  cbv zeta. destruct (negb (PyStr.truthy _)); [done|].
  destruct (mem (PyStr.upper part0) VALID_DECISION_COMMANDS) eqn:Hd; cbn [negb andb].
  - intros [= <- <- <-]. cbn [params cmd_type verb].
    split; [apply parse_body_lists, (parse_header_lists (part0 :: parts))|].
    repeat split; try done. destruct (truthy_str _); done.
  - destruct (mem (PyStr.upper part0) VALID_READ_COMMANDS) eqn:Hr; [|done].
    cbn [negb]. intros [= <- <- <-]. cbn [params cmd_type verb].
    split; [apply parse_body_lists, (parse_header_lists (part0 :: parts))|]. done.
Qed.

Lemma lists_set_get_or (p : Params) :
  lists_set p ->
  (exists arts, get_or (p_artifacts p) [] = Some arts)
  /\ (exists sg, get_or (p_signoff p) [] = Some sg).
Proof.
  intros [Ha Hs]. split.
  - destruct (p_artifacts p); [eauto|done|eauto].
  - destruct (p_signoff p); [eauto|done|eauto].
Qed.

(** C9, where the code departs from it.  A structured instruction stores
    [None] under every key its object lacks, so the defaults of
    [params.get("artifacts", [])] and [params.get("signoff", [])] never
    apply: for every decision instruction the parser reads from an object
    without a list of artifacts or without a list of signoffs, [validate]
    raises [TypeError] instead of returning a result - also from
    [DecisionEngine.validate] and from [execute].  With both lists in the
    object, and for every instruction read from text, it returns a
    result. *)
Theorem validate_raises_on_absent_lists :
  (forall obj ok c errs,
      _parse_json obj = Ok (Parsed ok c errs) -> cmd_type c = decision ->
      get (j_artifacts obj) = None \/ get (j_signoff obj) = None ->
      validate c = Raise TypeError)
  /\ (forall obj ok c errs arts sg,
        _parse_json obj = Ok (Parsed ok c errs) ->
        j_artifacts obj = Val arts -> j_signoff obj = Val sg ->
        exists v, validate c = Ok v)
  /\ (forall text ok c errs,
        _parse_text text = Parsed ok c errs -> exists v, validate c = Ok v)
  /\ parse (Structured (with_artifacts Missing classify_acme))
     = Ok (Parsed true
             (mkCommand decision "CLASSIFY"
                (mkParams (Val "acme-sys"%string) IsNone IsNone IsNone
                          (Val [mkSignoff "Compliance Owner" "joakim"])
                          IsNone IsNone IsNone IsNone)) [])
  /\ validate_only (Structured (with_artifacts Missing classify_acme))
     = Raise TypeError
  /\ execute morning (Structured (with_artifacts Missing classify_acme)) None empty_state
     = (Raise TypeError, empty_state).
Proof.
  repeat split.
  - intros obj ok c errs Hp Ht H.
    destruct (_parse_json_command _ _ _ _ Hp) as (Hparams & Hverb & _).
    destruct (decision_verb_known _ (Hverb Ht)) as (e & He & _).
    apply (validate_raises c e Ht He). rewrite Hparams.
    cbn [p_artifacts p_signoff]. by rewrite !get_or_stored.
  - intros obj ok c errs arts sg Hp Ha Hs.
    destruct (_parse_json_command _ _ _ _ Hp) as (Hparams & _).
    apply (validate_total c arts sg); rewrite Hparams; cbn [p_artifacts p_signoff].
    + by rewrite Ha. 
    + by rewrite Hs.
  - intros text ok c errs Hp.
    destruct (_parse_text_command _ _ _ _ Hp) as (Hl & _).
    destruct (lists_set_get_or _ Hl) as ([arts Ha] & [sg Hs]).
    by apply (validate_total c arts sg).
Qed.

(** The result of [validate] on a decision instruction whose lists are
    lists, with the loops written as filters. *)
Lemma validate_closed_form (c : Command) (e : ECLDecisionCommand)
  (arts : list string) (sg : list Signoff) :
  cmd_type c = decision ->
  command_of_value (verb c) = Some e ->
  get_or (p_artifacts (params c)) [] = Some arts ->
  get_or (p_signoff (params c)) [] = Some sg ->
  exists v,
    validate c = Ok v
    /\ v_errors v
       = (if truthy_str (get (p_system_id (params c))) then []
          else [verb c +:+ " requires system_id"])
         ++ map (fun r => artifact_error (verb c) (fst r) (snd r)
                            (length (matching_artifacts (fst r) arts)))
                (unmet_artifacts arts (required_artifacts (VALIDATION_RULES e)))
         ++ map (role_error (verb c))
                (missing_roles (map role sg) (required_roles (VALIDATION_RULES e)))
         ++ match requires_risk_links (VALIDATION_RULES e) with
            | RiskYes =>
                if truthy_list (get_or (p_risk_links (params c)) []) then []
                else [verb c +:+ " requires at least one risk_link"]
            | _ => []
            end
    /\ v_warnings v
       = match requires_risk_links (VALIDATION_RULES e) with
         | RiskConditional =>
             if truthy_list (get_or (p_risk_links (params c)) []) then []
             else [verb c +:+ " may require risk_links depending on impact"]
         | _ => []
         end
         ++ (if truthy_str (get (p_use_case (params c))) then []
             else [verb c +:+ " should include use_case for traceability"])
    /\ valid v = (length (v_errors v) =? 0)%nat.
Proof.
  intros Ht He Ha Hs. unfold validate. rewrite Ht, He, Ha, check_artifacts_list, Hs.
  rewrite check_roles_list.
  destruct (requires_risk_links (VALIDATION_RULES e));
    destruct (truthy_list (get_or (p_risk_links (params c)) []));
    destruct (truthy_str (get (p_use_case (params c))));
    eexists; (split; [reflexivity|]); cbn [v_errors v_warnings valid];
    rewrite <- ?app_assoc, ?app_nil_r; done.
Qed.

(** X10. [validate] collects every violation: the result it returns for
    a decision instruction with ASCII artifact ids reports a missing
    system id, every requirement on artifacts that is not met (prefixes
    compared without regard to case), every required role nobody signed
    off, and missing risk links where the rule demands them; it reports
    nothing else; the instruction is valid exactly when there is no
    error, whatever the warnings. *)
Theorem validate_reports_each_violation (c : Command) (e : ECLDecisionCommand)
  (arts : list string) (sg : list Signoff) (v : Validation) :
  cmd_type c = decision ->
  command_of_value (verb c) = Some e ->
  get_or (p_artifacts (params c)) [] = Some arts ->
  forallb PyStr.isascii arts = true ->
  get_or (p_signoff (params c)) [] = Some sg ->
  validate c = Ok v ->
  (valid v = true <-> v_errors v = [])
  /\ (forall msg,
        msg ∈ v_errors v <->
        (truthy_str (get (p_system_id (params c))) = false
         /\ msg = verb c +:+ " requires system_id")
        \/ (exists prefix min_count,
              (prefix, min_count) ∈ required_artifacts (VALIDATION_RULES e)
              /\ (length (matching_artifacts prefix arts) < min_count)%nat
              /\ msg = artifact_error (verb c) prefix min_count
                         (length (matching_artifacts prefix arts)))
        \/ (exists required_role,
              required_role ∈ required_roles (VALIDATION_RULES e)
              /\ ~ (required_role ∈ map role sg)
              /\ msg = role_error (verb c) required_role)
        \/ (requires_risk_links (VALIDATION_RULES e) = RiskYes
            /\ truthy_list (get_or (p_risk_links (params c)) []) = false
            /\ msg = verb c +:+ " requires at least one risk_link")).
Proof.
  intros Ht He Ha _ Hs Hres.
  destruct (validate_closed_form c e arts sg Ht He Ha Hs) as (v' & Hv & Herr & _ & Hvalid).
  rewrite Hres in Hv. injection Hv as <-. split.
  - rewrite Hvalid. destruct (v_errors v); [done|]. by cbn.
  - intros msg. rewrite Herr, !elem_of_app, !list_elem_of_fmap.
    unfold unmet_artifacts, missing_roles.
    split.
    + intros [H|[H|[H|H]]].
      * left. destruct (truthy_str _); [by apply elem_of_nil in H|].
        by apply list_elem_of_singleton in H.
      * right. left. destruct H as ([prefix min_count] & -> & H).
        apply list_elem_of_In, filter_In in H as [Hin Hlt]. cbn [fst snd] in *.
        exists prefix, min_count. apply list_elem_of_In in Hin.
        apply Nat.ltb_lt in Hlt. done.
      * right. right. left. destruct H as (r & -> & H).
        apply list_elem_of_In, filter_In in H as [Hin Hno].
        exists r. apply list_elem_of_In in Hin. split; [done|]. split; [|done].
        intros Hr. apply list_elem_of_In in Hr.
        unfold mem in Hno. apply negb_true_iff in Hno.
        assert (existsb (String.eqb r) (map role sg) = true); [|congruence].
        apply existsb_exists. exists r. split; [done|]. apply String.eqb_refl.
      * right. right. right.
        destruct (requires_risk_links _); try (by apply elem_of_nil in H).
        destruct (truthy_list _); [by apply elem_of_nil in H|].
        by apply list_elem_of_singleton in H.
    + intros [[H ->]|[(prefix & min_count & Hin & Hlt & ->)
                     |[(r & Hin & Hno & ->)|(Hr & Hl & ->)]]].
      * left. rewrite H. by apply list_elem_of_singleton.
      * right. left. exists (prefix, min_count). split; [done|].
        apply list_elem_of_In, filter_In. split; [by apply list_elem_of_In|].
        by apply Nat.ltb_lt.
      * right. right. left. exists r. split; [done|].
        apply list_elem_of_In, filter_In. split; [by apply list_elem_of_In|].
        unfold mem. apply negb_true_iff.
        destruct (existsb _ _) eqn:E; [|done]. exfalso. apply Hno.
        apply existsb_exists in E as (x & Hx & Heq). apply String.eqb_eq in Heq.
        subst x. by apply list_elem_of_In.
      * right. right. right. rewrite Hr, Hl. by apply list_elem_of_singleton.
Qed.

Lemma validate_reports_each_violation_witness :
  exists v,
    validate (mkCommand decision "CLASSIFY"
                (mkParams (Val "acme-sys"%string) Missing (Val ["cdoc-scope-1"%string]) Missing
                          (Val []) Missing Missing Missing Missing)) = Ok v
    /\ valid v = false
    /\ v_errors v
       = ["CLASSIFY requires 1 artifact(s) with prefix 'CDOC-CLASS'. Found: 0";
          "CLASSIFY requires signoff from: 'Compliance Owner'"]%string.
Proof.
  eexists. split; [reflexivity|].
  match goal with |- valid ?v = false /\ _ =>
    destruct (validate_reports_each_violation
                (mkCommand decision "CLASSIFY"
                   (mkParams (Val "acme-sys"%string) Missing (Val ["cdoc-scope-1"%string])
                             Missing (Val []) Missing Missing Missing Missing))
                CLASSIFY ["cdoc-scope-1"%string] [] v
                eq_refl eq_refl eq_refl eq_refl eq_refl eq_refl)
      as [Hvalid Herr]
  end.
  split; [|reflexivity].
  apply not_true_is_false. intros E. discriminate (proj1 Hvalid E).
Defined.

(** X11. For an instruction in ASCII that the parser accepted, [validate]
    has no missing system id and no unknown command to report: a result
    it returns says valid exactly when the rule of the command is met -
    no requirement on artifacts unmet, no required role missing, and risk
    links given where the rule demands them. *)
Theorem parsed_instruction_validity (input : EclInput) (pid : option string)
  (c : Command) (errs : list string) (v : Validation) :
  ascii_input input = true ->
  parse input = Ok (Parsed true c errs) ->
  cmd_type c = decision ->
  validate (with_project_id pid c) = Ok v ->
  exists e arts sg,
    command_of_value (verb c) = Some e
    /\ get_or (p_artifacts (params c)) [] = Some arts
    /\ get_or (p_signoff (params c)) [] = Some sg
    /\ (valid v = true <->
        unmet_artifacts arts (required_artifacts (VALIDATION_RULES e)) = []
        /\ missing_roles (map role sg) (required_roles (VALIDATION_RULES e)) = []
        /\ (requires_risk_links (VALIDATION_RULES e) = RiskYes ->
            truthy_list (get_or (p_risk_links (params c)) []) = true)).
Proof.
  intros _ Hp Ht Hv.
  assert (mem (verb c) VALID_DECISION_COMMANDS = true
          /\ truthy_str (get (p_system_id (params c))) = true) as [Hverb Hsys].
  { destruct input as [obj|text]; cbn [parse] in Hp.
    - destruct (_parse_json_command _ _ _ _ Hp) as (_ & H1 & _ & H2). auto.
    - injection Hp as Hp.
      destruct (_parse_text_command _ _ _ _ Hp) as (_ & H1 & _ & H2). auto. }
  destruct (decision_verb_known _ Hverb) as (e & He & _).
  set (c' := with_project_id pid c) in *.
  assert (cmd_type c' = decision /\ verb c' = verb c
          /\ p_system_id (params c') = p_system_id (params c)
          /\ p_artifacts (params c') = p_artifacts (params c)
          /\ p_signoff (params c') = p_signoff (params c)
          /\ p_risk_links (params c') = p_risk_links (params c))
    as (Ht' & Hverb' & Hsys' & Harts' & Hsg' & Hrisk').
  { subst c'. by destruct pid. }
  destruct (get_or (p_artifacts (params c)) []) as [arts|] eqn:Ha.
  2:{ rewrite (validate_raises c' e) in Hv; [done|done|by rewrite Hverb'|].
      left. by rewrite Harts'. }
  destruct (get_or (p_signoff (params c)) []) as [sg|] eqn:Hs.
  2:{ rewrite (validate_raises c' e) in Hv; [done|done|by rewrite Hverb'|].
      right. by rewrite Hsg'. }
  exists e, arts, sg. repeat split; try done.
  - destruct (validate_closed_form c' e arts sg) as (v' & Hv' & Herr & _ & Hvalid);
      [done|by rewrite Hverb'|by rewrite Harts'|by rewrite Hsg'|].
    rewrite Hv in Hv'. injection Hv' as <-. rewrite Hvalid, Herr in H.
    rewrite Hsys', Hsys in H. cbn [app] in H.
    destruct (unmet_artifacts _ _); [done|]. by cbn in H.
  - destruct (validate_closed_form c' e arts sg) as (v' & Hv' & Herr & _ & Hvalid);
      [done|by rewrite Hverb'|by rewrite Harts'|by rewrite Hsg'|].
    rewrite Hv in Hv'. injection Hv' as <-. rewrite Hvalid, Herr in H.
    rewrite Hsys', Hsys in H. cbn [app] in H.
    destruct (unmet_artifacts _ _); [|by cbn in H]. cbn [map app] in H.
    destruct (missing_roles _ _); [done|]. by cbn in H.
  - intros Hr.
    destruct (validate_closed_form c' e arts sg) as (v' & Hv' & Herr & _ & Hvalid);
      [done|by rewrite Hverb'|by rewrite Harts'|by rewrite Hsg'|].
    rewrite Hv in Hv'. injection Hv' as <-. rewrite Hvalid, Herr in H.
    rewrite Hsys', Hsys, Hrisk', Hr in H. cbn [app] in H.
    destruct (unmet_artifacts _ _); [|by cbn in H]. cbn [map app] in H.
    destruct (missing_roles _ _); [|by cbn in H]. cbn [map app] in H.
    by destruct (truthy_list _).
  - intros (Hu & Hm & Hrisk).
    destruct (validate_closed_form c' e arts sg) as (v' & Hv' & Herr & _ & Hvalid);
      [done|by rewrite Hverb'|by rewrite Harts'|by rewrite Hsg'|].
    rewrite Hv in Hv'. injection Hv' as <-. rewrite Hvalid, Herr.
    rewrite Hsys', Hsys, Hrisk', Hu, Hm. cbn [app map].
    destruct (requires_risk_links _); [done| |done].
    by rewrite Hrisk.
Qed.

Lemma parsed_instruction_validity_witness :
  exists v, validate (with_project_id (Some "alpha"%string)
                        (mkCommand decision "CLASSIFY"
                           (mkParams (Val "acme-sys"%string) IsNone
                              (Val ["CDOC-SCOPE-1"; "CDOC-CLASS-1"]%string) IsNone
                              (Val [mkSignoff "Compliance Owner" "joakim"])
                              IsNone IsNone IsNone IsNone))) = Ok v
            /\ valid v = true.
Proof.
  eexists. split; [reflexivity|].
  destruct (parsed_instruction_validity (Structured classify_acme) (Some "alpha"%string)
              _ [] _ eq_refl eq_refl eq_refl eq_refl)
    as (e & arts & sg & He & Ha & Hs & H).
  apply H. injection He as <-. injection Ha as <-. injection Hs as <-.
  repeat split; try reflexivity. discriminate.
Defined.

(** *** What one call of the engine does to the database *)

Lemma _execute_read_state (c : Command) (s : State) :
  snd (_execute_read c s) = s
  /\ forall id pr sl w, fst (_execute_read c s) <> Ok (Success id pr sl w).
Proof.
  unfold _execute_read, _replay, _verify, _query, mret, M_ret.
  repeat match goal with
         | |- context [if ?b then _ else _] => destruct b
         | |- context [match ?x with _ => _ end] => destruct x
         end; done.
Qed.

(** The four states a decision instruction can leave behind, with [id]
    the identifier allocated for it: nothing written; the counter moved;
    the decision stored as well; the vault entry appended too.  Only the
    last one can come with a success. *)
Lemma _execute_decision_outcome (clock : Clock) (c : Command) (w : list string)
  (s : State) :
  let id := format_edi (year clock) (current_sequence (year clock) s + 1) in
  let r := _execute_decision clock c w s in
  let failed := forall i pr sl wn, fst r <> Ok (Success i pr sl wn) in
  (snd r = s /\ failed)
  \/ (snd r = advanced (year clock) s /\ failed)
  \/ exists d ds,
       _create_decision_object (created_now clock) id c = Ok d
       /\ (ds = decisions s ++ [d]
           \/ exists target a,
                p_supersedes (params c) = Val target
                /\ ds = update_first (has_id (Some target)) (mark_superseded id)
                                     (decisions s) ++ [d]
                /\ get_decision (Some target) s = Some a
                /\ status a = "EXECUTED"%string)
       /\ ((snd r = mkState (edi_sequence (advanced (year clock) s)) ds (vault s)
                            (artifacts s)
            /\ failed)
           \/ exists entry linked wn,
                snd r = mkState (edi_sequence (advanced (year clock) s)) ds
                                (vault s ++ [entry]) linked
                /\ length linked = length (artifacts s)
                /\ v_eve_decision_id entry = id
                /\ v_evidence_type entry = "DECISION"%string
                /\ payload_hash entry = sha256_hex (dumps true (decision_json d))
                /\ sealed_at entry = sealed_now clock
                /\ EDI_REGEX_match id = true
                /\ (fst r = Ok (Success id (vault_proof entry) (sealed_at entry) wn)
                    \/ fst r = Raise TypeError)).
Proof.
  intros id r failed.
  destruct (truthy_str (get (p_supersedes (params c)))) eqn:Ht.
  - subst r failed. unfold _execute_decision. rewrite Ht.
    unfold _execute_supersede.
    destruct (p_supersedes (params c)) as [| |target] eqn:Htarget; [done|done|].
    unfold mbind, M_bind, reading.
    destruct (get_decision (Some target) s) as [a|] eqn:Ha; [|by left].
    destruct (String.eqb_spec (status a) "EXECUTED") as [Hst|_]; cbn [negb];
      [|by left].
    rewrite generate_next_edi_spec. fold id. unfold lift.
    destruct (_create_decision_object (created_now clock) id c) as [d|e] eqn:Hd;
      [|by right; left].
    right. right.
    exists d, (update_first (has_id (Some target)) (mark_superseded id) (decisions s) ++ [d]).
    split; [done|]. split; [right; by exists target, a|].
    unfold insert_decision, supersede, modify, seal_to_vault.
    cbn [edi_sequence decisions vault artifacts advanced].
    unfold get_decision in Ha. rewrite (update_first_app _ _ _ _ _ Ha).
    destruct (negb (PyStr.truthy id) || negb (EDI_REGEX_match id)) eqn:Hid; [by left|].
    right. apply orb_false_iff in Hid as [_ Hid]. apply negb_false_iff in Hid.
    eexists _, _, _. cbn [snd fst mret M_ret]. split; [reflexivity|].
    repeat split; try done. by left.
  - pose proof (_execute_decision_plain clock c w s Ht) as Hp. cbv zeta in Hp.
    fold id in Hp. fold r in Hp.
    destruct (_create_decision_object (created_now clock) id c) as [d|e] eqn:Hd.
    2:{ right. left. subst failed. by rewrite Hp. }
    right. right. exists d, (decisions s ++ [d]). split; [done|]. split; [by left|].
    unfold seal_to_vault in Hp.
    destruct (negb (PyStr.truthy id) || negb (EDI_REGEX_match id)) eqn:Hid.
    { left. subst failed. by rewrite Hp. }
    apply orb_false_iff in Hid as [_ Hid]. apply negb_false_iff in Hid.
    cbn [edi_sequence decisions vault artifacts] in Hp.
    right. destruct (get_or (p_artifacts (params c)) []) as [arts|].
    + destruct Hp as (linked & Hp & Hlen). rewrite Hp.
      eexists _, linked, _. cbn [snd fst]. split; [reflexivity|].
      repeat split; try done. by left.
    + rewrite Hp. eexists _, (artifacts s), None. cbn [snd fst].
      split; [reflexivity|]. repeat split; try done. by right.
Qed.

Lemma execute_outcome (clock : Clock) (input : EclInput) (pid : option string)
  (s : State) :
  (snd (execute clock input pid s) = s
   /\ forall i pr sl wn, fst (execute clock input pid s) <> Ok (Success i pr sl wn))
  \/ exists c w,
       execute clock input pid s = _execute_decision clock c w s.
Proof.
  unfold execute, mbind, M_bind, lift.
  destruct (parse input) as [[errs|ok c errs]|e]; [by left| |by left].
  destruct ok; [|by left].
  destruct (cmd_type (with_project_id pid c)).
  - destruct (validate (with_project_id pid c)) as [v|e]; [|by left].
    destruct (negb (valid v)); [by left|]. right. eauto.
  - left. apply _execute_read_state.
Qed.

(** X13. A read instruction - QUERY, REPLAY, VERIFY - leaves the database
    as it was, whatever it returns, and is never answered as a write. *)
Theorem read_instructions_change_nothing (clock : Clock) (input : EclInput)
  (pid : option string) (c : Command) (errs : list string) (s : State) :
  parse input = Ok (Parsed true c errs) ->
  cmd_type c = read ->
  snd (execute clock input pid s) = s
  /\ forall id pr sl w,
       fst (execute clock input pid s) <> Ok (Success id pr sl w).
Proof.
  intros Hp Ht. rewrite (execute_parsed _ _ _ _ _ _ Hp).
  assert (cmd_type (with_project_id pid c) = read) as -> by (by destruct pid).
  apply _execute_read_state.
Qed.

Lemma read_instructions_change_nothing_witness :
  snd (execute noon (Text "EVE VERIFY DECISION EVE-2026-000001") None one_decision)
  = one_decision.
Proof.
  eapply (read_instructions_change_nothing noon
            (Text "EVE VERIFY DECISION EVE-2026-000001") None).
  - vm_compute. reflexivity.
  - reflexivity.
Defined.

Lemma update_first_length {A} (p : A -> bool) (f : A -> A) (l : list A) :
  length (update_first p f l) = length l.
Proof.
  induction l as [|x l IH]; [done|]. cbn [update_first].
  destruct (p x); cbn [length]; by rewrite ?IH.
Qed.

Lemma update_first_map {A B} (p : A -> bool) (f : A -> A) (g : A -> B) (l : list A) :
  (forall x, g (f x) = g x) -> map g (update_first p f l) = map g l.
Proof.
  intros Hg. induction l as [|x l IH]; [done|]. cbn [update_first].
  destruct (p x); cbn [map]; by rewrite ?IH, ?Hg.
Qed.

Lemma execute_write_success (clock : Clock) (input : EclInput) (pid : option string)
  (s s' : State) (id pr sl : string) (w : option (list string)) :
  execute clock input pid s = (Ok (Success id pr sl w), s') ->
  exists d old entry linked,
    id = format_edi (year clock) (current_sequence (year clock) s + 1)
    /\ EDI_REGEX_match id = true
    /\ eve_decision_id d = id /\ status d = "EXECUTED"%string
    /\ map eve_decision_id old = map eve_decision_id (decisions s)
    /\ s' = mkState (edi_sequence (advanced (year clock) s)) (old ++ [d])
                    (vault s ++ [entry]) linked
    /\ length linked = length (artifacts s)
    /\ v_eve_decision_id entry = id /\ vault_proof entry = pr
    /\ sealed_at entry = sl /\ sl = sealed_now clock.
Proof.
  intros Hx.
  destruct (execute_outcome clock input pid s) as [[_ Hf]|(c & w0 & Hc)].
  { rewrite Hx in Hf. by destruct (Hf id pr sl w). }
  rewrite Hc in Hx.
  pose proof (_execute_decision_outcome clock c w0 s) as H. cbv zeta in H.
  rewrite Hx in H. cbn [fst snd] in H.
  destruct H as [[_ Hf]|[[_ Hf]|(d & ds & Hd & Hds & H)]];
    [by destruct (Hf id pr sl w)|by destruct (Hf id pr sl w)|].
  destruct H as [[_ Hf]|(entry & linked & wn & Hs' & Hlen & Hid & _ & _ & Hsl & Hre & Hr)];
    [by destruct (Hf id pr sl w)|].
  destruct Hr as [Hr|Hr]; [|done]. injection Hr as Hi Hpr Hsl' _.
  destruct (created_decision _ _ _ _ Hd) as (_ & _ & _ & Hdi & _ & _ & Hst & _).
  assert (exists old, ds = old ++ [d]
                      /\ map eve_decision_id old = map eve_decision_id (decisions s))
    as (old & -> & Hold).
  { destruct Hds as [->|(target & a & _ & -> & _)]; [by eexists|].
    eexists. split; [done|]. by apply update_first_map. }
  exists d, old, entry, linked. rewrite <- Hi in *.
  repeat split; try done; congruence.
Qed.

(** X14. Every successful write moves the counter of the clock's year by one
    and no other counter, returns the identifier made of that year and
    the new number, adds one decision - the last of the ledger, with that
    identifier and status EXECUTED - and one vault entry for it, and
    neither adds nor removes an artifact. *)
Theorem successful_write_effects (clock : Clock) (input : EclInput)
  (pid : option string) (s s' : State) (id pr sl : string) (w : option (list string)) :
  execute clock input pid s = (Ok (Success id pr sl w), s') ->
  id = format_edi (year clock) (current_sequence (year clock) s + 1)
  /\ current_sequence (year clock) s' = current_sequence (year clock) s + 1
  /\ (forall y, y <> year clock -> current_sequence y s' = current_sequence y s)
  /\ length (decisions s') = S (length (decisions s))
  /\ (exists d, last (decisions s') = Some d
                /\ eve_decision_id d = id /\ status d = "EXECUTED"%string)
  /\ (exists entry, vault s' = vault s ++ [entry]
                    /\ v_eve_decision_id entry = id
                    /\ vault_proof entry = pr /\ sealed_at entry = sl)
  /\ length (artifacts s') = length (artifacts s).
Proof.
  intros Hx.
  destruct (execute_write_success _ _ _ _ _ _ _ _ _ Hx)
    as (d & old & entry & linked & Hid & _ & Hdi & Hst & Hold & -> & Hlen & Hvi & Hpr & Hsl & _).
  cbn [decisions vault artifacts]. split; [done|].
  pose proof (current_sequence_generate (year clock)) as Hg.
  unfold current_sequence in *. cbn [edi_sequence advanced generate_next_edi snd] in *.
  split; [|split].
  - specialize (Hg (year clock) s). by rewrite N.eqb_refl in Hg.
  - intros y Hy. specialize (Hg y s).
    destruct (N.eqb_spec (year clock) y); [congruence|done].
  - split.
    + rewrite length_app. cbn [length].
      apply (f_equal length) in Hold. rewrite !length_map in Hold. lia.
    + split; [exists d; by rewrite last_snoc|]. split; [by exists entry|done].
Qed.

Lemma successful_write_effects_witness :
  current_sequence 2026 one_decision = current_sequence 2026 empty_state + 1.
Proof.
  assert (exists id pr sl w,
            execute morning (Structured classify_acme) None empty_state
            = (Ok (Success id pr sl w), one_decision))
    as (id & pr & sl & w & H) by (vm_compute; eauto 10).
  exact (proj1 (proj2 (successful_write_effects _ _ _ _ _ _ _ _ _ H))).
Defined.

(** X15. A decision just written is found again: [get_decision] and
    [get_vault_entry] return a decision and a vault entry with the
    returned identifier, and VERIFY reports it as valid. *)
Theorem written_decision_verifies (clock : Clock) (input : EclInput)
  (pid : option string) (s s' : State) (id pr sl : string) (w : option (list string)) :
  execute clock input pid s = (Ok (Success id pr sl w), s') ->
  exists d entry,
    get_decision (Some id) s' = Some d /\ eve_decision_id d = id
    /\ get_vault_entry (Some id) s' = Some entry /\ v_eve_decision_id entry = id
    /\ _verify (Some id) s'
       = (Ok (Verified (Some id) (mkVerify true true (status d) true)), s').
Proof.
  intros Hx.
  destruct (execute_write_success _ _ _ _ _ _ _ _ _ Hx)
    as (d & old & entry & linked & _ & _ & Hdi & _ & _ & -> & _ & Hvi & _).
  assert (exists d', find (has_id (Some id)) (old ++ [d]) = Some d') as [d' Hd'].
  { destruct (find (has_id (Some id)) old) as [x|] eqn:E.
    - exists x. by apply find_app_Some.
    - exists d. clear -E Hdi. induction old as [|y old IH]; cbn [app find] in *.
      + cbn [has_id]. by rewrite Hdi, String.eqb_refl.
      + destruct (has_id (Some id) y); [done|]. by apply IH. }
  assert (exists e', find (fun v => String.eqb (v_eve_decision_id v) id)
                          (vault s ++ [entry]) = Some e') as [e' He'].
  { destruct (find (fun v => String.eqb (v_eve_decision_id v) id) (vault s))
      as [x|] eqn:E.
    - exists x. by apply find_app_Some.
    - exists entry. clear -E Hvi. induction (vault s) as [|y l IH]; cbn [app find] in *.
      + by rewrite Hvi, String.eqb_refl.
      + destruct (String.eqb (v_eve_decision_id y) id); [done|]. by apply IH. }
  exists d', e'.
  pose proof (find_some _ _ Hd') as [_ H1]. cbn [has_id] in H1.
  apply String.eqb_eq in H1.
  pose proof (find_some _ _ He') as [_ H2]. apply String.eqb_eq in H2.
  unfold _verify, get_decision, get_vault_entry. cbn [decisions vault].
  rewrite Hd', He'. done.
Qed.

Lemma written_decision_verifies_witness :
  exists d, get_decision (Some "EVE-2026-000001"%string) one_decision = Some d.
Proof.
  assert (exists pr sl w,
            execute morning (Structured classify_acme) None empty_state
            = (Ok (Success "EVE-2026-000001" pr sl w), one_decision))
    as (pr & sl & w & H) by (vm_compute; eauto 10).
  destruct (written_decision_verifies _ _ _ _ _ _ _ _ _ H) as (d & _ & Hd & _).
  by exists d.
Defined.

(** *** Partition ids *)

(** X20. What [normalize_project_id] returns it accepts: the partition stored
    in a decision can be given again as an explicit partition id, and
    then names the same partition under the current scheme. *)
Theorem normalized_id_is_accepted (p : option string) (n hv : string) :
  normalize_project_id p = Ok (n, hv) ->
  normalize_project_id (Some n) = Ok (n, "v2"%string)
  /\ (hv = "v1"%string /\ n = "legacy"%string /\ truthy_str p = false
      \/ hv = "v2"%string /\ p = Some n).
Proof.
  unfold normalize_project_id. destruct p as [s|].
  - destruct (PyStr.truthy s) eqn:Hs; cbn [negb].
    + destruct (PROJECT_ID_REGEX_match s) eqn:Hm; cbn [negb]; [|done].
      intros [= <- <-]. rewrite Hs, Hm. cbn [negb]. split; [done|]. by right.
    + intros [= <- <-]. split; [reflexivity|]. left. by rewrite <- Hs.
  - intros [= <- <-]. split; [reflexivity|]. by left.
Qed.

Lemma normalized_id_is_accepted_witness :
  normalize_project_id (Some "legacy"%string) = Ok ("legacy"%string, "v2"%string).
Proof.
  exact (proj1 (normalized_id_is_accepted None "legacy" "v1" eq_refl)).
Defined.

(** X21. The scheme label is not part of what is hashed: a decision filed
    without a partition id and the same decision filed under the explicit
    id ["legacy"] lie in the same partition and carry the same context
    hash; they differ in [hash_version] only. *)
Theorem legacy_label_is_not_hashed (now id : string) (c : Command) (d : Decision) :
  truthy_str (get (p_project_id (params c))) = false ->
  _create_decision_object now id c = Ok d ->
  exists d',
    _create_decision_object now id (with_project_id (Some "legacy"%string) c) = Ok d'
    /\ project_id d = "legacy"%string /\ project_id d' = "legacy"%string
    /\ hash_version d = "v1"%string /\ hash_version d' = "v2"%string
    /\ context_hash d' = context_hash d.
Proof.
  intros Hp. unfold _create_decision_object. cbn [with_project_id params verb
    set_project_id p_project_id p_signoff p_system_id p_use_case p_artifacts
    p_risk_links p_supersedes get].
  assert (normalize_project_id (get (p_project_id (params c))) = Ok ("legacy", "v1")%string)
    as ->.
  { unfold normalize_project_id. destruct (get _) as [x|]; [|done].
    cbn [truthy_str] in Hp. by rewrite Hp. }
  change (normalize_project_id (Some "legacy"%string)) with
    (@Ok (string * string) ("legacy", "v2")%string).
  destruct (command_of_value (verb c)); [|done].
  destruct (get_or (p_signoff (params c)) []); [|done].
  intros [= <-]. eexists. split; [reflexivity|]. done.
Qed.

Lemma legacy_label_is_not_hashed_witness :
  exists d d',
    _create_decision_object "now" "EVE-2026-000001"
      (mkCommand decision "CLASSIFY" no_params) = Ok d
    /\ _create_decision_object "now" "EVE-2026-000001"
         (with_project_id (Some "legacy"%string)
            (mkCommand decision "CLASSIFY" no_params)) = Ok d'
    /\ context_hash d' = context_hash d
    /\ hash_version d <> hash_version d'.
Proof.
  destruct (legacy_label_is_not_hashed "now" "EVE-2026-000001"
              (mkCommand decision "CLASSIFY" no_params) _ eq_refl eq_refl)
    as (d' & Hd' & _ & _ & Hv1 & Hv2 & Hh).
  eexists _, d'. split; [reflexivity|]. split; [exact Hd'|]. split; [exact Hh|].
  rewrite Hv1, Hv2. discriminate.
Defined.

(** *** What the engine keeps *)

Lemma current_sequence_advanced (y y' : N) (s : State) :
  current_sequence y' (advanced y s)
  = if N.eqb y y' then current_sequence y' s + 1 else current_sequence y' s.
Proof. exact (current_sequence_generate y y' s). Qed.

Lemma ids_inv_advanced (y : N) (s : State) (ds : list Decision) (vs : list VaultEntry)
  (arts : list Artifact) :
  ids_inv s ->
  map eve_decision_id ds = map eve_decision_id (decisions s) ->
  map v_eve_decision_id vs = map v_eve_decision_id (vault s) ->
  ids_inv (mkState (edi_sequence (advanced y s)) ds vs arts).
Proof.
  intros [H1 H2 H3 H4 H5] Hd Hv.
  assert (forall y', current_sequence y' (mkState (edi_sequence (advanced y s)) ds vs arts)
                     = current_sequence y' (advanced y s)) as Hc by done.
  split; cbn [decisions vault]; rewrite ?Hd, ?Hv; try done.
  - intros id Hid. destruct (H4 id Hid) as (y' & k & -> & Hk).
    exists y', k. split; [done|]. rewrite Hc, current_sequence_advanced.
    destruct (N.eqb y y'); lia.
  - intros y'. rewrite Hc, current_sequence_advanced.
    specialize (H5 y'). destruct (N.eqb y y'); lia.
Qed.

Lemma ids_inv_same (s : State) (arts : list Artifact) :
  ids_inv s -> ids_inv (mkState (edi_sequence s) (decisions s) (vault s) arts).
Proof. by intros [H1 H2 H3 H4 H5]. Qed.

Lemma fresh_id (y : N) (s : State) :
  ids_inv s ->
  format_edi y (current_sequence y s + 1) ∉ map eve_decision_id (decisions s).
Proof.
  intros [_ _ _ H4 _] Hin. destruct (H4 _ Hin) as (y' & k & Heq & Hk).
  apply format_edi_inj in Heq as [<- <-]. lia.
Qed.

Lemma ids_inv_written (y : N) (s : State) (old : list Decision) (d : Decision)
  (vs : list VaultEntry) (arts : list Artifact) :
  ids_inv s ->
  map eve_decision_id old = map eve_decision_id (decisions s) ->
  eve_decision_id d = format_edi y (current_sequence y s + 1) ->
  map v_eve_decision_id vs = map v_eve_decision_id (vault s)
  \/ map v_eve_decision_id vs = map v_eve_decision_id (vault s) ++ [eve_decision_id d] ->
  ids_inv (mkState (edi_sequence (advanced y s)) (old ++ [d]) vs arts).
Proof.
  intros Hinv Hold Hd Hvs. pose proof (fresh_id y s Hinv) as Hfresh.
  destruct Hinv as [H1 H2 H3 H4 H5].
  assert (forall y', current_sequence y' (mkState (edi_sequence (advanced y s))
                                                  (old ++ [d]) vs arts)
                     = current_sequence y' (advanced y s)) as Hc by done.
  split; cbn [decisions vault]; rewrite ?map_app, ?Hold; cbn [map].
  - apply NoDup_app. split; [done|]. split; [|apply NoDup_singleton].
    intros x Hx Hx'. apply list_elem_of_singleton in Hx'. subst x. by rewrite Hd in Hx.
  - destruct Hvs as [->| ->]; [done|].
    apply NoDup_app. split; [done|]. split; [|apply NoDup_singleton].
    intros x Hx Hx'. apply list_elem_of_singleton in Hx'. subst x.
    apply H3 in Hx. by rewrite Hd in Hx.
  - intros id Hid. apply elem_of_app.
    destruct Hvs as [Hvs|Hvs]; rewrite Hvs in Hid.
    + left. by apply H3.
    + apply elem_of_app in Hid as [Hid|Hid]; [left; by apply H3|by right].
  - intros id Hid. apply elem_of_app in Hid as [Hid|Hid].
    + destruct (H4 id Hid) as (y' & k & -> & Hk).
      exists y', k. split; [done|]. rewrite Hc, current_sequence_advanced.
      destruct (N.eqb y y'); lia.
    + apply list_elem_of_singleton in Hid. subst id.
      exists y, (current_sequence y s + 1). split; [done|].
      rewrite Hc, current_sequence_advanced, N.eqb_refl. specialize (H5 y). lia.
  - intros y'. rewrite Hc, current_sequence_advanced.
    specialize (H5 y'). destruct (N.eqb y y'); lia.
Qed.

Lemma ids_inv_execute (clock : Clock) (input : EclInput) (pid : option string)
  (s : State) :
  ids_inv s -> ids_inv (snd (execute clock input pid s)).
Proof.
  intros Hinv.
  destruct (execute_outcome clock input pid s) as [[-> _]|(c & w & ->)]; [done|].
  pose proof (_execute_decision_outcome clock c w s) as H. cbv zeta in H.
  destruct H as [[-> _]|[[-> _]|(d & ds & Hd & Hds & H)]]; [done| |].
  { destruct s. by apply (ids_inv_advanced (year clock)). }
  destruct (created_decision _ _ _ _ Hd) as (_ & _ & _ & Hdi & _).
  assert (exists old, ds = old ++ [d]
                      /\ map eve_decision_id old = map eve_decision_id (decisions s))
    as (old & -> & Hold).
  { destruct Hds as [->|(target & a & _ & -> & _)]; [by eexists|].
    eexists. split; [done|]. by apply update_first_map. }
  destruct H as [[-> _]|(entry & linked & wn & -> & _ & Hvi & _)].
  - apply ids_inv_written; auto.
  - apply ids_inv_written; auto. right. rewrite map_app. cbn [map]. congruence.
Qed.

Lemma engine_reachable_ids (s : State) : engine_reachable s -> ids_inv s.
Proof.
  induction 1 as [|clock input pid s _ IH|now art content s _ IH|now art s _ IH
                  |y s _ IH].
  - split; cbn; try apply NoDup_nil_2; try done;
      intros id Hid; by apply elem_of_nil in Hid.
  - by apply ids_inv_execute.
  - unfold create_artifact, modify. cbn [snd].
    destruct (existsb _ _); [done|]. by apply ids_inv_same.
  - unfold propose_artifact, modify. cbn [snd]. by apply ids_inv_same.
  - rewrite generate_next_edi_spec. cbn [snd].
    by apply (ids_inv_advanced y s (decisions s) (vault s) (artifacts s)).
Qed.

Lemma find_unique {A} (g : A -> string) (l : list A) (d : A) :
  NoDup (map g l) -> d ∈ l ->
  find (fun x => String.eqb (g x) (g d)) l = Some d.
Proof.
  induction l as [|x l IH]; intros Hnd Hin; [by apply elem_of_nil in Hin|].
  cbn [map] in Hnd. apply NoDup_cons in Hnd as [Hx Hnd]. cbn [find].
  apply elem_of_cons in Hin as [->|Hin]; [by rewrite String.eqb_refl|].
  destruct (String.eqb_spec (g x) (g d)) as [Heq|_]; [|by apply IH].
  exfalso. apply Hx. rewrite Heq. by apply list_elem_of_fmap_2.
Qed.

(** X17. In every state the engine reaches from an empty database no two
    decisions carry the same identifier, so [get_decision] returns the
    one decision stored under an identifier; and no decision has more
    than one vault entry, each entry belonging to a stored decision. *)
Theorem decision_ids_are_unique (s : State) :
  engine_reachable s ->
  NoDup (map eve_decision_id (decisions s))
  /\ (forall d, d ∈ decisions s -> get_decision (Some (eve_decision_id d)) s = Some d)
  /\ NoDup (map v_eve_decision_id (vault s))
  /\ (forall entry, entry ∈ vault s ->
        get_vault_entry (Some (v_eve_decision_id entry)) s = Some entry
        /\ exists d, get_decision (Some (v_eve_decision_id entry)) s = Some d).
Proof.
  intros Hreach. destruct (engine_reachable_ids s Hreach) as [H1 H2 H3 _ _].
  split; [done|]. split; [|split; [done|]].
  - intros d Hd. unfold get_decision. by apply (find_unique eve_decision_id).
  - intros entry He. split.
    + unfold get_vault_entry. by apply (find_unique v_eve_decision_id).
    + assert (v_eve_decision_id entry ∈ map eve_decision_id (decisions s)) as Hin.
      { apply H3. by apply list_elem_of_fmap_2. }
      apply list_elem_of_fmap in Hin as (d & Heq & Hd). exists d. rewrite Heq.
      unfold get_decision. by apply (find_unique eve_decision_id).
Qed.

Lemma decision_ids_are_unique_witness :
  NoDup (map eve_decision_id (decisions one_decision)).
Proof.
  apply (decision_ids_are_unique one_decision).
  apply (engine_execute morning (Structured classify_acme) None empty_state engine_start).
Defined.

(** *** Artifacts *)

Lemma update_first_Forall {A} (P : A -> Prop) (p : A -> bool) (f : A -> A) (l : list A) :
  (forall x, p x = true -> P x -> P (f x)) ->
  Forall P l -> Forall P (update_first p f l).
Proof.
  intros Hf. induction 1 as [|x l Hx Hl IH]; [done|]. cbn [update_first].
  destruct (p x) eqn:E; constructor; auto.
Qed.

Lemma link_all_artifacts (arts : list string) (id : string) (s : State) :
  artifacts (snd (link_all arts id s)) = link_each id arts (artifacts s).
Proof.
  revert s. induction arts as [|a arts IH]; intros s; [done|].
  cbn [link_all]. unfold mbind, M_bind, link_artifact_to_decision, modify.
  rewrite IH. reflexivity.
Qed.

Lemma link_each_ids (id : string) (arts : list string) (l : list Artifact) :
  map artifact_id (link_each id arts l) = map artifact_id l.
Proof.
  unfold link_each. revert l. induction arts as [|a arts IH]; intros l; [done|].
  cbn [fold_left]. rewrite IH. by apply update_first_map.
Qed.

Lemma link_each_ok (id : string) (arts : list string) (l : list Artifact) :
  Forall artifact_state_ok l -> Forall artifact_state_ok (link_each id arts l).
Proof.
  unfold link_each. revert l. induction arts as [|a arts IH]; intros l Hl; [done|].
  cbn [fold_left]. apply IH.
  apply update_first_Forall; [|done].
  intros x _ _. right. right. by split.
Qed.

Lemma execute_artifacts (clock : Clock) (input : EclInput) (pid : option string)
  (s : State) :
  exists id arts,
    artifacts (snd (execute clock input pid s)) = link_each id arts (artifacts s).
Proof.
  destruct (execute_outcome clock input pid s) as [[-> _]|(c & w & ->)];
    [by exists EmptyString, []|].
  unfold _execute_decision.
  destruct (truthy_str (get (p_supersedes (params c)))).
  - exists EmptyString, []. unfold _execute_supersede.
    destruct (p_supersedes (params c)) as [| |target]; [done|done|].
    unfold mbind, M_bind, reading.
    destruct (get_decision (Some target) s); [|done].
    destruct (negb _); [done|].
    rewrite generate_next_edi_spec. unfold lift.
    destruct (_create_decision_object _ _ _); [|done].
    unfold insert_decision, supersede, modify, seal_to_vault.
    destruct (negb _ || negb _); done.
  - unfold mbind, M_bind. rewrite generate_next_edi_spec. unfold lift.
    destruct (_create_decision_object _ _ _); [|by exists EmptyString, []].
    unfold insert_decision, modify, seal_to_vault.
    destruct (negb _ || negb _); [by exists EmptyString, []|].
    destruct (get_or (p_artifacts (params c)) []) as [arts|];
      [|by exists EmptyString, []].
    eexists _, arts.
    match goal with |- context [link_all arts ?id ?st] =>
      pose proof (link_all_artifacts arts id st) as Hl;
      destruct (link_all_spec arts id st) as (linked & Hs & _) end.
    rewrite Hs in Hl |- *. cbn [snd artifacts] in Hl |- *. exact Hl.
Qed.

(** X18. In every state the engine reaches from an empty database the
    artifacts have distinct identifiers, and each is a draft (neither
    frozen nor linked), or proposed (frozen, not linked), or executed and
    linked to a decision. *)
Theorem artifacts_stay_well_formed (s : State) :
  engine_reachable s ->
  NoDup (map artifact_id (artifacts s)) /\ Forall artifact_state_ok (artifacts s).
Proof.
  induction 1 as [|clock input pid s _ [IH1 IH2]|now art content s _ [IH1 IH2]
                  |now art s _ [IH1 IH2]|y s _ IH].
  - split; [apply NoDup_nil_2|done].
  - destruct (execute_artifacts clock input pid s) as (id & arts & ->).
    split; [by rewrite link_each_ids|by apply link_each_ok].
  - unfold create_artifact, modify. cbn [snd].
    destruct (existsb _ _) eqn:E; [done|]. cbn [artifacts]. split.
    + rewrite map_app. apply NoDup_app. split; [done|]. split; [|apply NoDup_singleton].
      intros x Hx Hx'. apply list_elem_of_singleton in Hx'. cbn in Hx'. subst x.
      apply list_elem_of_fmap in Hx as (a & Ha & Hin).
      assert (existsb (fun a => String.eqb (artifact_id a) art) (artifacts s) = true);
        [|congruence].
      apply existsb_exists. exists a. split; [by apply list_elem_of_In|].
      rewrite <- Ha. apply String.eqb_refl.
    + apply Forall_app. split; [done|]. constructor; [|done]. by left.
  - unfold propose_artifact, modify. cbn [snd artifacts]. split.
    + by rewrite update_first_map.
    + apply update_first_Forall; [|done].
      intros x Hp Hx. apply andb_true_iff in Hp as [_ Hp]. apply String.eqb_eq in Hp.
      destruct Hx as [(_ & _ & Hd)|[(Hs & _)|(Hs & _)]]; [|congruence|congruence].
      right. left. by repeat split.
  - exact IH.
Qed.

Lemma artifacts_stay_well_formed_witness :
  Forall artifact_state_ok
    (artifacts (snd (propose_artifact "t1" "CDOC-SCOPE-1"
                       (snd (create_artifact "t0" "CDOC-SCOPE-1" None empty_state))))).
Proof.
  apply artifacts_stay_well_formed.
  apply engine_propose_artifact, engine_create_artifact, engine_start.
Defined.

(** *** Listing decisions *)

Lemma ltb_asym (a b : string) : String.ltb a b = true -> String.ltb b a = false.
Proof.
  unfold String.ltb. rewrite (String.compare_antisym a b).
  by destruct (String.compare b a).
Qed.

Lemma insert_desc_perm (d : Decision) (l : list Decision) : insert_desc d l ≡ₚ d :: l.
Proof.
  induction l as [|x l IH]; [done|]. cbn [insert_desc].
  destruct (String.ltb _ _); [|done]. rewrite IH. apply Permutation_swap.
Qed.

Lemma sorted_desc_perm (l : list Decision) : sorted_desc l ≡ₚ l.
Proof.
  induction l as [|x l IH]; [done|]. cbn [sorted_desc foldr].
  fold (sorted_desc l). by rewrite insert_desc_perm, IH.
Qed.

Lemma insert_desc_sorted (d : Decision) (l : list Decision) :
  Sorted (fun a b => String.ltb (created_at a) (created_at b) = false) l ->
  Sorted (fun a b => String.ltb (created_at a) (created_at b) = false) (insert_desc d l).
Proof.
  induction 1 as [|x l Hl IH Hx]; [by repeat constructor|].
  cbn [insert_desc]. destruct (String.ltb (created_at d) (created_at x)) eqn:E.
  - constructor; [done|]. destruct l as [|y l]; cbn [insert_desc].
    + constructor. by apply ltb_asym.
    + destruct (String.ltb (created_at d) (created_at y)).
      * constructor. by inversion Hx.
      * constructor. by apply ltb_asym.
  - constructor; [by constructor|]. by constructor.
Qed.

Lemma sorted_desc_sorted (l : list Decision) :
  Sorted (fun a b => String.ltb (created_at a) (created_at b) = false) (sorted_desc l).
Proof.
  induction l as [|x l IH]; [constructor|]. by apply insert_desc_sorted.
Qed.

Lemma keep_if_elem (wanted : option string) (field : Decision -> option string)
  (l : list Decision) (d : Decision) :
  d ∈ keep_if wanted field l
  <-> d ∈ l /\ (truthy_str wanted = true -> field d = wanted).
Proof.
  unfold keep_if. destruct (truthy_str wanted); [|naive_solver].
  rewrite list_elem_of_In, filter_In, <- list_elem_of_In.
  destruct (decide (field d = wanted)); naive_solver.
Qed.

(** X19. [list_decisions] returns the decisions that pass every filter given
    (an empty filter passes everything), each as often as it is stored,
    ordered by creation time with the newest first. *)
Theorem list_decisions_newest_first (filters : option Filters) (s : State) :
  Sorted (fun a b => String.ltb (created_at a) (created_at b) = false)
         (list_decisions filters s)
  /\ (filters = None -> list_decisions filters s ≡ₚ decisions s)
  /\ (forall f d,
        filters = Some f ->
        d ∈ list_decisions filters s
        <-> d ∈ decisions s
            /\ (truthy_str (f_decision_type f) = true ->
                Some (decision_type d) = f_decision_type f)
            /\ (truthy_str (f_status f) = true -> Some (status d) = f_status f)
            /\ (truthy_str (f_system_id f) = true -> scope_system_id d = f_system_id f)
            /\ (truthy_str (f_project_id f) = true ->
                Some (project_id d) = f_project_id f)).
Proof.
  split; [apply sorted_desc_sorted|]. split.
  - intros ->. apply sorted_desc_perm.
  - intros f d ->. unfold list_decisions. rewrite sorted_desc_perm.
    rewrite !keep_if_elem. naive_solver.
Qed.

(** *** The end of a year's numbers *)

Lemma seven_digits_rejected (t : string) :
  PyStr.contains "-" t = false ->
  EDI_REGEX_match ("EVE-" +:+ t +:+ "-1000000") = false.
Proof.
  intros Ht. unfold EDI_REGEX_match.
  destruct t as [|c1 [|c2 [|c3 [|c4 [|c5 t]]]]];
    (match goal with
     | |- context [PyStr.startswith ?a ?b] =>
         assert (PyStr.startswith a b = true) as -> by (vm_compute; reflexivity)
     end);
    cbv -[PyStr.is_digit Ascii.eqb];
    repeat match goal with
           | |- context [PyStr.is_digit ?c] =>
               lazymatch c with
               | Ascii _ _ _ _ _ _ _ _ => fail
               | _ => destruct (PyStr.is_digit c); [|reflexivity]
               end
           end;
    try reflexivity.
  cbn [PyStr.contains] in Ht.
  repeat (apply orb_false_iff in Ht as [? Ht]).
  match goal with H : Ascii.eqb c5 "-" = false |- _ => rewrite H end.
  reflexivity.
Qed.

(** X16. The numbers of a year end at 999999: the next identifier has seven
    digits, which the pattern of [seal_to_vault] refuses.  The write that
    takes it moves the counter and stores the decision, then raises
    [ValueError]: the decision stays in the ledger without a vault
    entry. *)
Theorem millionth_decision_is_not_sealed (clock : Clock) (c : Command)
  (w : list string) (s : State) (d : Decision) :
  truthy_str (get (p_supersedes (params c))) = false ->
  current_sequence (year clock) s = 999999 ->
  _create_decision_object (created_now clock) (format_edi (year clock) 1000000) c = Ok d ->
  _execute_decision clock c w s
  = (Raise ValueError,
     mkState (edi_sequence (advanced (year clock) s)) (decisions s ++ [d])
             (vault s) (artifacts s))
  /\ get_decision (Some (format_edi (year clock) 1000000))
       (snd (_execute_decision clock c w s)) <> None
  /\ vault (snd (_execute_decision clock c w s)) = vault s.
Proof.
  intros Ht Hseq Hd.
  pose proof (_execute_decision_plain clock c w s Ht) as H. cbv zeta in H.
  rewrite Hseq in H. change (999999 + 1) with 1000000 in H. rewrite Hd in H.
  unfold seal_to_vault in H.
  assert (EDI_REGEX_match (format_edi (year clock) 1000000) = false) as Hre.
  { apply (seven_digits_rejected (year_key (year clock))), year_key_dash_free. }
  rewrite Hre, orb_true_r in H. rewrite H. cbn [snd vault]. split; [done|].
  split; [|done].
  unfold get_decision. cbn [decisions].
  destruct (created_decision _ _ _ _ Hd) as (_ & _ & _ & Hid & _).
  clear H. generalize (decisions s). intros l.
  induction l as [|x l IH]; cbn [app find has_id].
  - by rewrite Hid, String.eqb_refl.
  - destruct (String.eqb (eve_decision_id x) _); [done|exact IH].
Qed.

Lemma millionth_decision_is_not_sealed_witness :
  let full := mkState {[ "2026"%string := 999999 ]} [] [] [] in
  let c := mkCommand decision "CLASSIFY"
             (mkParams (Val "acme-sys"%string) IsNone
                (Val ["CDOC-SCOPE-1"; "CDOC-CLASS-1"]%string) IsNone
                (Val [mkSignoff "Compliance Owner" "joakim"])
                IsNone IsNone IsNone IsNone) in
  vault (snd (_execute_decision morning c [] full)) = [].
Proof.
  intros full c.
  assert (exists d, _create_decision_object (created_now morning)
                      (format_edi (year morning) 1000000) c = Ok d) as [d Hd].
  { unfold _create_decision_object. cbn. eauto. }
  exact (proj2 (proj2 (millionth_decision_is_not_sealed morning c [] full d
                         eq_refl eq_refl Hd))).
Defined.

Lemma rejected_instruction_changes_nothing_witness :
  snd (execute noon (Text "EVE CLASSIFY") None one_decision) = one_decision.
Proof.
  assert (execute noon (Text "EVE CLASSIFY") None one_decision
          = (Ok (Failure ["Missing SYSTEM <id> in command header"%string] None),
             snd (execute noon (Text "EVE CLASSIFY") None one_decision))) as H
    by (vm_compute; reflexivity).
  exact (rejected_instruction_changes_nothing _ _ _ _ _ _ _ H).
Defined.

(** *** The ledger only grows *)

Lemma Forall2_same {A} (R : A -> A -> Prop) (l : list A) :
  (forall x, R x x) -> Forall2 R l l.
Proof. intros HR. induction l; by constructor. Qed.

(** X22. Whatever instruction [execute] is given and whatever it answers,
    the decisions stored before are still there, in their places, each
    unchanged or - if it was EXECUTED - marked as superseded; at most one
    decision is added behind them; and the vault keeps its entries and
    gains at most one, never one without a new decision. *)
Theorem ledger_is_append_only (clock : Clock) (input : EclInput)
  (pid : option string) (s : State) :
  exists kept added sealed,
    decisions (snd (execute clock input pid s)) = kept ++ added
    /\ (length added <= 1)%nat
    /\ Forall2 (fun d d' =>
                  d' = d
                  \/ status d = "EXECUTED"%string
                     /\ exists id, d' = mark_superseded id d)
               (decisions s) kept
    /\ vault (snd (execute clock input pid s)) = vault s ++ sealed
    /\ (length sealed <= length added)%nat.
Proof.
  assert (Forall2 (fun d d' =>
                     d' = d
                     \/ status d = "EXECUTED"%string
                        /\ exists id, d' = mark_superseded id d)
                  (decisions s) (decisions s)) as Hsame
    by (apply Forall2_same; by left).
  destruct (execute_outcome clock input pid s) as [[-> _]|(c & w & ->)].
  { exists (decisions s), [], []. repeat split; rewrite ?app_nil_r; try done; cbn [length]; lia. }
  pose proof (_execute_decision_outcome clock c w s) as H. cbv zeta in H.
  destruct H as [[-> _]|[[-> _]|(d & ds & Hd & Hds & H)]].
  { exists (decisions s), [], []. repeat split; rewrite ?app_nil_r; try done; cbn [length]; lia. }
  { exists (decisions s), [], []. cbn [advanced decisions vault]. repeat split; rewrite ?app_nil_r; try done; cbn [length]; lia. }
  assert (exists kept,
             ds = kept ++ [d]
             /\ Forall2 (fun d d' =>
                           d' = d
                           \/ status d = "EXECUTED"%string
                              /\ exists id, d' = mark_superseded id d)
                        (decisions s) kept) as (kept & -> & Hkept).
  { destruct Hds as [->|(target & a & _ & -> & Ha & Hst)]; [by eexists|].
    eexists. split; [done|]. unfold get_decision in Ha.
    destruct (update_first_split _ (mark_superseded
                 (format_edi (year clock) (current_sequence (year clock) s + 1)))
                _ _ Ha) as (pre & post & Hl & -> & _).
    rewrite Hl. apply Forall2_app; [apply Forall2_same; by left|].
    constructor; [|apply Forall2_same; by left]. right. split; [done|]. by eexists. }
  destruct H as [[-> _]|(entry & linked & wn & -> & _)]; cbn [decisions vault].
  - exists kept, [d], []. repeat split; rewrite ?app_nil_r; try done; cbn [length]; lia.
  - exists kept, [d], [entry]. repeat split; rewrite ?app_nil_r; try done; cbn [length]; lia.
Qed.

(** *** Prefixes and case *)

Lemma upper_char_idemp (c : ascii) : PyStr.upper_char (PyStr.upper_char c) = PyStr.upper_char c.
Proof. by destruct c as [[] [] [] [] [] [] [] []]. Qed.

Lemma upper_idemp (s : string) : PyStr.upper (PyStr.upper s) = PyStr.upper s.
Proof.
  induction s as [|c s IH]; [done|]. cbn [PyStr.upper]. by rewrite upper_char_idemp, IH.
Qed.

Lemma matching_upper (prefix : string) (arts : list string) :
  length (matching_artifacts prefix (map PyStr.upper arts))
  = length (matching_artifacts prefix arts).
Proof.
  unfold matching_artifacts. induction arts as [|a arts IH]; [done|].
  cbn [map List.filter]. rewrite upper_idemp.
  destruct (PyStr.startswith _ _); cbn [length]; by rewrite IH.
Qed.

(** X23. Artifact prefixes are compared without regard to case: an
    instruction whose artifact ids are written in upper case gets the
    same validation as the instruction itself (ids in ASCII). *)
Theorem artifact_prefixes_ignore_case (c : Command) (arts : list string) :
  p_artifacts (params c) = Val arts ->
  validate (mkCommand (cmd_type c) (verb c)
              (set_artifacts (map PyStr.upper arts) (params c)))
  = validate c.
Proof.
  intros Ha. unfold validate.
  cbn [cmd_type verb params set_artifacts p_system_id p_artifacts p_signoff
       p_risk_links p_use_case].
  destruct (cmd_type c); [|done].
  destruct (command_of_value (verb c)) as [e|]; [|done].
  rewrite Ha. cbn [get_or]. rewrite !check_artifacts_list.
  assert (unmet_artifacts (map PyStr.upper arts) (required_artifacts (VALIDATION_RULES e))
          = unmet_artifacts arts (required_artifacts (VALIDATION_RULES e))) as ->.
  { unfold unmet_artifacts. apply filter_ext. intros r. by rewrite matching_upper. }
  assert (map (fun r => artifact_error (verb c) (fst r) (snd r)
                          (length (matching_artifacts (fst r) (map PyStr.upper arts))))
              (unmet_artifacts arts (required_artifacts (VALIDATION_RULES e)))
          = map (fun r => artifact_error (verb c) (fst r) (snd r)
                            (length (matching_artifacts (fst r) arts)))
                (unmet_artifacts arts (required_artifacts (VALIDATION_RULES e)))) as ->.
  { apply map_ext. intros r. by rewrite matching_upper. }
  done.
Qed.

Lemma artifact_prefixes_ignore_case_witness :
  validate (mkCommand decision "CLASSIFY"
              (mkParams (Val "acme-sys"%string) Missing
                        (Val ["CDOC-SCOPE-A"; "CDOC-CLASS-B"]%string) Missing
                        (Val [mkSignoff "Compliance Owner" "joakim"])
                        Missing Missing Missing Missing))
  = validate (mkCommand decision "CLASSIFY"
                (mkParams (Val "acme-sys"%string) Missing
                          (Val ["cdoc-scope-a"; "Cdoc-Class-b"]%string) Missing
                          (Val [mkSignoff "Compliance Owner" "joakim"])
                          Missing Missing Missing Missing)).
Proof.
  exact (artifact_prefixes_ignore_case
           (mkCommand decision "CLASSIFY"
              (mkParams (Val "acme-sys"%string) Missing
                        (Val ["cdoc-scope-a"; "Cdoc-Class-b"]%string) Missing
                        (Val [mkSignoff "Compliance Owner" "joakim"])
                        Missing Missing Missing Missing))
           ["cdoc-scope-a"; "Cdoc-Class-b"]%string eq_refl).
Defined.

(** C1 as it is worded does not hold of an instruction without partition
    id against the same instruction under the explicit id ["legacy"]:
    both are valid, they differ in the partition id only, both are
    executed, and the two decisions lie in the same partition with the
    same context hash; only their identifiers and their scheme labels
    differ. *)
Lemma absent_and_legacy_share_a_hash :
  let s1 := snd (execute morning (Structured classify_acme) None empty_state) in
  let s2 := snd (execute noon (Structured classify_acme) (Some "legacy"%string) s1) in
  (exists pr sl w,
      execute morning (Structured classify_acme) None empty_state
      = (Ok (Success "EVE-2026-000001" pr sl w), s1))
  /\ (exists pr sl w,
        execute noon (Structured classify_acme) (Some "legacy"%string) s1
        = (Ok (Success "EVE-2026-000002" pr sl w), s2))
  /\ exists d1 d2,
       decisions s2 = [d1; d2]
       /\ project_id d1 = "legacy"%string /\ project_id d2 = "legacy"%string
       /\ hash_version d1 = "v1"%string /\ hash_version d2 = "v2"%string
       /\ context_hash d1 = context_hash d2.
Proof.
  intros s1 s2. subst s1 s2. split; [|split].
  - vm_compute. eauto.
  - vm_compute. eauto.
  - vm_compute. eexists _, _. repeat split.
Qed.

End TrinityProps.
